(** * Equiformer: a shallow embedding of [equiformer_pytorch.py]

    Tensors are nested lists over the reals (floats idealised as exact
    arithmetic; the one float effect a property depends on, the underflow
    of the softmax, is written out apart in [softmax_f32]); the leading
    [batch], [node] and [neighbor] axes are explicit list levels.  Python exceptions are values of [error] carried by
    the [result] monad.  Degree-indexed feature maps are Python dicts, whose
    iteration order matters ([Norm.forward] and [Attention.forward] zip over
    [items()] and [keys()]), so they are association lists in insertion
    order.

    The sizes of a tensor are read off the nested list (the first entry
    along an axis), so a tensor has at least one batch element and is
    rectangular.  The shape errors of the numeric runtime are written out
    where the source reshapes, splits, broadcasts or indexes; elsewhere an
    elementwise operation pairs the entries of its operands up to the
    shorter one.  The basis provider, the radial networks and the embedding
    tables are parameters. *)

From Stdlib Require Import List ZArith Lia Bool Arith PeanoNat.
From Stdlib Require Import Reals Lra.
From Stdlib Require Import Sorted.
Import ListNotations.

Set Implicit Arguments.

(** ** Exceptions and the result monad *)

Inductive assertion : Type :=
| GateChannels          (* 'sum of channels from rest of the degrees must be less than ...' *)
| PoolForSelfInteract   (* 'must pool edges if followed with self interaction' *)
| DimHeadLength         (* assert len(dim_head) == num_degrees *)
| HeadsLength           (* assert len(heads) == num_degrees *)
| DimLength             (* assert len(self.dim) == num_degrees *)
| DimInLength           (* assert len(self.dim_in) == input_degrees *)
| EdgeDimMissing        (* 'edge dimension (edge_dim) must be supplied ...' *)
| SeqLenPositions       (* 'feature sequence length must be less than ...' *)
| EdgesMissing          (* 'edge embedding (num_edge_tokens & edge_dim) must be supplied ...' *)
| FeatureDim            (* 'feature dimension {d} must be equal to dimension given at init' *)
| InputDegrees          (* 'input must have {self.input_degrees} degree' *)
| TotalNeighbors.       (* 'you must be fetching at least 1 neighbor' *)

Inductive error : Type :=
| AssertionError (a : assertion)
| KeyError (degree : nat)
| PairKeyError (degree_in degree_out : nat)   (* KeyError of a dict keyed by '(di,do)' *)
| IndexError
| ZeroDivisionError
| TypeError
| RuntimeError.

Inductive result (A : Type) : Type :=
| Ok (a : A)
| Err (e : error).

Arguments Ok {A} a.
Arguments Err {A} e.

Definition bind {A B} (c : result A) (k : A -> result B) : result B :=
  match c with
  | Ok a => k a
  | Err e => Err e
  end.

Notation "x <- c ;; k" := (bind c (fun x => k))
  (at level 61, c at next level, right associativity).
Notation "' pat <- c ;; k" := (bind c (fun x => match x with pat => k end))
  (at level 61, pat pattern, c at next level, right associativity).

Definition assert (b : bool) (a : assertion) : result unit :=
  if b then Ok tt else Err (AssertionError a).

Definition of_option {A} (o : option A) (e : error) : result A :=
  match o with
  | Some a => Ok a
  | None => Err e
  end.

Fixpoint mapM {A B} (f : A -> result B) (l : list A) : result (list B) :=
  match l with
  | [] => Ok []
  | a :: l' => b <- f a ;; bs <- mapM f l' ;; Ok (b :: bs)
  end.

Fixpoint foldM {A B} (f : B -> A -> result B) (l : list A) (acc : B) : result B :=
  match l with
  | [] => Ok acc
  | a :: l' => acc' <- f acc a ;; foldM f l' acc'
  end.

(** ** Tensors *)

Open Scope R_scope.

Definition vec := list R.                 (* one axis *)
Definition cmat := list vec.              (* [channels, order] at one node *)
Definition T2 (A : Type) := list (list A).          (* [b, n] of A *)
Definition T3 (A : Type) := list (list (list A)).   (* [b, n, k] of A *)

Definition rsum (v : vec) : R := fold_right Rplus 0 v.

Fixpoint zip {A B} (xs : list A) (ys : list B) : list (A * B) :=
  match xs, ys with
  | x :: xs', y :: ys' => (x, y) :: zip xs' ys'
  | _, _ => []
  end.

Definition map2 {A B C} (f : A -> B -> C) (xs : list A) (ys : list B) : list C :=
  map (fun p => f (fst p) (snd p)) (zip xs ys).

Definition enumerate {A} (l : list A) : list (nat * A) :=
  zip (seq 0 (length l)) l.

(** Elementwise binary operation along one axis with torch's broadcasting
    rule: equal sizes, or one side of size 1. *)
Definition broadcast2 {A B C} (f : A -> B -> result C)
    (xs : list A) (ys : list B) : result (list C) :=
  if Nat.eqb (length xs) (length ys) then mapM (fun p => f (fst p) (snd p)) (zip xs ys)
  else match xs, ys with
       | [x], _ => mapM (fun y => f x y) ys
       | _, [y] => mapM (fun x => f x y) xs
       | _, _ => Err RuntimeError
       end.

(** Python dicts keyed by degree, in insertion order. *)
Definition dict (A : Type) := list (nat * A).

Fixpoint lookup {A} (k : nat) (d : dict A) : option A :=
  match d with
  | [] => None
  | (k', v) :: d' => if Nat.eqb k k' then Some v else lookup k d'
  end.

(** [d[k]], raising KeyError. *)
Definition getitem {A} (d : dict A) (k : nat) : result A :=
  of_option (lookup k d) (KeyError k).

(** [d[k] = v]: overwrite in place, or append. *)
Fixpoint setitem {A} (d : dict A) (k : nat) (v : A) : dict A :=
  match d with
  | [] => [(k, v)]
  | (k', v') :: d' => if Nat.eqb k k' then (k, v) :: d' else (k', v') :: setitem d' k v
  end.

Definition keys {A} (d : dict A) : list nat := map fst d.

(** A feature map: degree -> tensor of shape [b, n, channels, order]. *)
Definition featmap := dict (T2 cmat).

(** Tensors of any rank add elementwise and scale by a real. *)
Class Tensor (A : Type) : Type := {
  tadd : A -> A -> A;
  tscale : R -> A -> A;
  tempty : A
}.

#[export] Instance R_Tensor : Tensor R :=
  {| tadd := Rplus; tscale := Rmult; tempty := 0 |}.

#[export] Instance list_Tensor {A} `{Tensor A} : Tensor (list A) :=
  {| tadd := map2 tadd; tscale := fun c => map (tscale c); tempty := [] |}.

(** [t.sum(dim)] along one (non-empty) axis. *)
Definition tsum {A} `{Tensor A} (l : list A) : A :=
  match l with
  | [] => tempty
  | x :: l' => fold_left tadd l' x
  end.

(** ** Helpers of [equiformer_pytorch.utils] *)

Module utils.

(** Modelled from the spec: [utils.to_order] is not among the sources;
    the order of a degree is [2 * degree + 1]. *)
Definition to_order (degree : nat) : nat := 2 * degree + 1.

(** Modelled from the spec: [utils.default] is not among the sources;
    the value when it exists, the fallback otherwise. *)
Definition default {A} (val : option A) (d : A) : A :=
  match val with
  | Some v => v
  | None => d
  end.

(** Modelled from the spec: [utils.exists] is not among the sources;
    a value exists when it is not [None]. *)
Definition exists_ {A} (val : option A) : bool :=
  match val with
  | Some _ => true
  | None => false
  end.

(** An argument that is either an int or a tuple of ints. *)
Inductive int_or_tuple : Type :=
| Int (z : Z)
| Tuple (t : list Z).

(** Modelled from the spec: [utils.cast_tuple] is not among the sources;
    a scalar is broadcast to the given length, a tuple is kept. *)
Definition cast_tuple (val : int_or_tuple) (depth : nat) : list Z :=
  match val with
  | Int z => repeat z depth
  | Tuple t => t
  end.

(** Size of axis 1 of a [b, n, ...] tensor. *)
Definition axis1_len {A} (t : T2 A) : nat := length (hd [] t).

(** [torch.narrow(t, 1, start, len)]. *)
Definition narrow1 {A} (t : T2 A) (start len : nat) : T2 A :=
  map (fun row => firstn len (skipn start row)) t.

(** Modelled from the spec: the sizes of the pieces of [utils.fast_split],
    the first [remainder] pieces one longer than the others. *)
Fixpoint chunk_sizes (chunk_size remainder splits : nat) : list nat :=
  match splits with
  | O => []
  | S k =>
      (chunk_size + (if Nat.ltb 0 remainder then 1 else 0))%nat
        :: chunk_sizes chunk_size (remainder - 1) k
  end.

(** Modelled from the spec: the sizes of the pieces of [utils.fast_split]
    for an axis of [axis_len] entries. *)
Definition split_sizes (axis_len splits : nat) : list nat :=
  let splits := Nat.min axis_len (Nat.max splits 1) in
  match splits with
  | O => []
  | S _ =>
      let chunk_size := (axis_len / splits)%nat in
      let remainder := (axis_len - chunk_size * splits)%nat in
      chunk_sizes chunk_size remainder splits
  end.

(** Consecutive pieces of the given sizes, from [start] on. *)
Fixpoint narrow_all {A} (t : T2 A) (start : nat) (sizes : list nat) : list (T2 A) :=
  match sizes with
  | [] => []
  | len :: sizes' => narrow1 t start len :: narrow_all t (start + len) sizes'
  end.

(** Modelled from the spec: [utils.fast_split] is not among the sources;
    the tensor is cut along the sequence axis (axis 1) into [splits]
    contiguous pieces, as even as possible, at least one and never more
    pieces than the axis is long (none for an empty axis). *)
Definition fast_split {A} (t : T2 A) (splits : nat) : list (T2 A) :=
  narrow_all t 0 (split_sizes (axis1_len t) splits).

(** [torch.cat((a, el), dim = 1)]. *)
Definition cat1 {A} (a el : T2 A) : T2 A := map2 (@app A) a el.

(** Modelled from the spec: [utils.safe_cat] is not among the sources;
    the pieces are concatenated back along the axis, the first piece
    starting from nothing. *)
Definition safe_cat {A} (arr : option (T2 A)) (el : T2 A) : option (T2 A) :=
  match arr with
  | None => Some el
  | Some a => Some (cat1 a el)
  end.

(** Modelled from the spec: [utils.batched_index_select] with [dim = 1] is
    not among the sources; neighbor features are gathered by
    [neighbor_indices]: [out[b][i][j] = values[b][indices[b][i][j]]]. *)
Definition batched_index_select1 {A} (values : T2 A) (indices : T3 nat)
    : result (T3 A) :=
  mapM (fun p =>
          mapM (fun row => mapM (fun j => of_option (nth_error (fst p) j) IndexError) row)
               (snd p))
       (zip values indices).

(** Modelled from the spec: [utils.batched_index_select] with [dim = 2] is
    not among the sources: [out[b][i][j] = values[b][i][indices[b][i][j]]]. *)
Definition batched_index_select2 {A} (values : T3 A) (indices : T3 nat)
    : result (T3 A) :=
  mapM (fun p =>
          mapM (fun q => mapM (fun j => of_option (nth_error (fst q) j) IndexError) (snd q))
               (zip (fst p) (snd p)))
       (zip values indices).

Definition count_true (mask : list bool) : nat := length (filter (fun b => b) mask).

(** Modelled from the spec: [utils.masked_mean] along one axis is not among
    the sources; the mean over the valid entries only (invalid entries
    weigh 0, the count is clamped to at least 1, and the mean is zero when
    no entry is valid). *)
Definition masked_mean {A} `{Tensor A} (row : list A) (mask : list bool) : A :=
  let kept := map2 (fun x (m : bool) => tscale (if m then 1 else 0) x) row mask in
  let total_el := count_true (firstn (length row) mask) in
  tscale (if Nat.eqb total_el 0 then 0 else / INR (Nat.max total_el 1)) (tsum kept).

(** [t.mean(dim)] along one axis. *)
Definition mean {A} `{Tensor A} (row : list A) : A :=
  tscale (/ INR (length row)) (tsum row).

End utils.

(** ** Parameters drawn at construction

    [torch.randn] draws, the weights of the radial networks and the
    embedding tables are whatever the parameter source yields at the path
    of the module that owns them. *)

Record init_params : Type := {
  p_randn : list nat -> nat -> nat -> list vec;  (* a [dim_in, dim_out] matrix *)
  p_net : list nat -> nat -> vec -> vec;         (* an [nn.Sequential] with that many outputs *)
  p_emb : list nat -> nat -> Z -> vec            (* the rows of an [nn.Embedding] of that width *)
}.

Definition sub (k : nat) (ps : init_params) : init_params :=
  {| p_randn := fun path => p_randn ps (k :: path);
     p_net := fun path => p_net ps (k :: path);
     p_emb := fun path => p_emb ps (k :: path) |}.

(** Creating a tensor with a negative size fails. *)
Definition check_size (dim : Z) : result nat :=
  if (dim <? 0)%Z then Err RuntimeError else Ok (Z.to_nat dim).

(** ** Fiber functions *)

Definition fiber := list Z.

Definition fiber_product (fiber_in fiber_out : fiber)
    : list ((nat * Z) * (nat * Z)) :=
  let fiber_in := enumerate fiber_in in
  let fiber_out := enumerate fiber_out in
  list_prod fiber_in fiber_out.

(** The body of the loop of [fiber_and]. *)
Definition fiber_and_step (fiber_out : fiber) (out : list (nat * Z * Z)) (p : nat * Z)
    : result (list (nat * Z * Z)) :=
  let (degree, dim) := p in
  let fiber_out_degrees := seq 0 (length fiber_out) in
  if negb (existsb (Nat.eqb degree) fiber_out_degrees) then Ok out
  else
    dim_out <- of_option (nth_error fiber_out degree) IndexError ;;
    Ok (out ++ [(degree, dim, dim_out)]).

Definition fiber_and (fiber_in fiber_out : fiber) : result (list (nat * Z * Z)) :=
  let fiber_in := enumerate fiber_in in
  foldM (fiber_and_step fiber_out) fiber_in [].

(** ** Helper functions *)

Definition residual_fn (x residual : featmap) : featmap :=
  fold_left (fun out (p : nat * T2 cmat) =>
               let (degree, tensor) := p in
               let out := setitem out degree tensor in
               match lookup degree residual with
               | None => out
               | Some r => setitem out degree (tadd tensor r)
               end)
            x [].

(** ** Linear *)

Record Linear : Type := {
  Linear_weights : list (list vec);
  Linear_degrees : list nat
}.

Definition Linear_init (ps : init_params) (fiber_in fiber_out : fiber) : result Linear :=
  triples <- fiber_and fiber_in fiber_out ;;
  foldM (fun (self : Linear) (t : nat * Z * Z) =>
           let '(degree, dim_in, dim_out) := t in
           dim_in <- check_size dim_in ;;
           dim_out <- check_size dim_out ;;
           Ok {| Linear_weights := Linear_weights self ++ [p_randn ps [degree] dim_in dim_out];
                 Linear_degrees := Linear_degrees self ++ [degree] |})
        triples {| Linear_weights := []; Linear_degrees := [] |}.

(** [einsum('d m, d e -> e m')] at one node: for every output channel [e],
    the weighted sum of the input channels. *)
Definition transpose (w : list vec) : list vec :=
  match w with
  | [] => []
  | row :: _ => map (fun e => map (fun r => nth e r 0) w) (seq 0 (length row))
  end.

Definition Linear_node (weight : list vec) (x : cmat) : cmat :=
  map (fun col => tsum (map2 (fun (w : R) (xd : vec) => tscale w xd) col x))
      (transpose weight).

Definition Linear_forward (self : Linear) (x : featmap) : result featmap :=
  foldM (fun out (p : nat * list vec) =>
           let (degree, weight) := p in
           t <- getitem x degree ;;
           Ok (setitem out degree (map (map (Linear_node weight)) t)))
        (zip (Linear_degrees self) (Linear_weights self)) [].

(** ** Norm *)

Record Norm : Type := {
  Norm_eps : R;
  Norm_transforms : list vec
}.

Definition default_eps : R := / 1000000000000.

Definition Norm_init (fiber_ : fiber) (eps : R) : result Norm :=
  transforms <- mapM (fun dim => n <- check_size dim ;; Ok (repeat 1 n)) fiber_ ;;
  Ok {| Norm_eps := eps; Norm_transforms := transforms |}.

(** [v.norm(dim = -1)]. *)
Definition l2norm (v : vec) : R := sqrt (rsum (map (fun x => x * x) v)).

(** Size of the channel axis ([t.shape[-2]]). *)
Definition channels (t : T2 cmat) : nat := length (hd [] (hd [] t)).

Definition rms_node (dim : nat) (t : cmat) : R :=
  let l2normed := map l2norm t in
  l2norm l2normed * / sqrt (INR dim).

Definition Norm_node (eps : R) (scale : vec) (dim : nat) (t : cmat) : result cmat :=
  let rms := rms_node dim t in
  broadcast2 (fun (row : vec) (s : R) => Ok (map (fun x => x / Rmax rms eps * s) row))
             t scale.

(** The body of the loop of [Norm.forward]; [dim ** -0.5] raises for a
    tensor without channels. *)
Definition Norm_step (eps : R) (output : featmap) (p : vec * (nat * T2 cmat))
    : result featmap :=
  let '(scale, (degree, t)) := p in
  let dim := channels t in
  _ <- (if Nat.eqb dim 0 then Err ZeroDivisionError else Ok tt) ;;
  t' <- mapM (mapM (Norm_node eps scale dim)) t ;;
  Ok (setitem output degree t').

Definition Norm_forward (self : Norm) (features : featmap) : result featmap :=
  foldM (Norm_step (Norm_eps self)) (zip (Norm_transforms self) features) [].

(** ** Gate *)

Record Gate : Type := {
  Gate_fiber : fiber;
  Gate_num_degrees : nat;
  Gate_type0_dim_split : list Z
}.

Definition zsum (l : list Z) : Z := fold_right Z.add 0%Z l.

Definition Gate_init (fiber_ : fiber) : result Gate :=
  match fiber_ with
  | [] => Err IndexError
  | type0_dim :: rest =>
      let dim_gate := zsum rest in
      _ <- assert (dim_gate <? type0_dim)%Z GateChannels ;;
      Ok {| Gate_fiber := fiber_;
            Gate_num_degrees := length fiber_;
            Gate_type0_dim_split := rest ++ [(type0_dim - dim_gate)%Z] |}
  end.

Definition sigmoid (x : R) : R := / (1 + exp (- x)).
Definition silu (x : R) : R := x * sigmoid x.

(** [t.split(sizes, dim = -2)] at one node. *)
Fixpoint split_node (sizes : list nat) (t : cmat) : list cmat :=
  match sizes with
  | [] => []
  | s :: sizes' => firstn s t :: split_node sizes' (skipn s t)
  end.

Definition split_channels (sizes : list Z) (t : T2 cmat) : result (list (T2 cmat)) :=
  sizes' <- mapM check_size sizes ;;
  if Nat.eqb (fold_right Nat.add 0%nat sizes') (channels t)
  then Ok (map (fun k => map (map (fun node => nth k (split_node sizes' node) [])) t)
               (seq 0 (length sizes')))
  else Err RuntimeError.

(** [x * gate.sigmoid()] at one node, broadcasting along channels and order. *)
Definition gate_node (x gate : cmat) : result cmat :=
  broadcast2 (fun (xrow grow : vec) =>
                broadcast2 (fun (v g : R) => Ok (v * sigmoid g)) xrow grow)
             x gate.

Definition zipM2 {A B C} (f : A -> B -> result C) (xs : T2 A) (ys : T2 B)
    : result (T2 C) :=
  mapM (fun p => mapM (fun q => f (fst q) (snd q)) (zip (fst p) (snd p))) (zip xs ys).

Definition Gate_forward (self : Gate) (x : featmap) : result featmap :=
  type0_tensor <- getitem x 0%nat ;;
  parts <- split_channels (Gate_type0_dim_split self) type0_tensor ;;
  let gates := removelast parts in
  type0_tensor <- of_option (nth_error parts (length parts - 1)) RuntimeError ;;
  let output : featmap := [(0%nat, map (map (map (map silu))) type0_tensor)] in
  foldM (fun output (p : nat * T2 cmat) =>
           let (degree, gate) := p in
           xd <- getitem x degree ;;
           t <- zipM2 gate_node xd gate ;;
           Ok (setitem output degree t))
        (zip (seq 1 (Gate_num_degrees self - 1)) gates) output.

(** ** RadialFunc and PairwiseConv *)

(** Dicts keyed by a pair of degrees (the [ModuleDict] of kernels and the
    basis dictionary). *)
Definition dict2 (A : Type) := list ((nat * nat) * A).

Definition pair_eqb (p q : nat * nat) : bool :=
  Nat.eqb (fst p) (fst q) && Nat.eqb (snd p) (snd q).

Fixpoint lookup2 {A} (k : nat * nat) (d : dict2 A) : option A :=
  match d with
  | [] => None
  | (k', v) :: d' => if pair_eqb k k' then Some v else lookup2 k d'
  end.

Definition getitem2 {A} (d : dict2 A) (k : nat * nat) : result A :=
  of_option (lookup2 k d) (PairKeyError (fst k) (snd k)).

Fixpoint setitem2 {A} (d : dict2 A) (k : nat * nat) (v : A) : dict2 A :=
  match d with
  | [] => [(k, v)]
  | (k', v') :: d' => if pair_eqb k k' then (k, v) :: d' else (k', v') :: setitem2 d' k v
  end.

(** The basis of one edge for one pair of degrees: [order_out, order_in, freq]. *)
Definition basis_elem := list (list vec).
Definition basis_dict := dict2 (T3 basis_elem).

Record RadialFunc : Type := {
  RadialFunc_num_freq : nat;
  RadialFunc_in_dim : nat;
  RadialFunc_out_dim : nat;
  RadialFunc_mid_dim : nat;
  RadialFunc_net : vec -> vec
}.

Definition RadialFunc_init (ps : init_params) (num_freq in_dim out_dim : nat)
    (edge_dim : option Z) (mid_dim : nat) : RadialFunc :=
  {| RadialFunc_num_freq := num_freq;
     RadialFunc_in_dim := in_dim;
     RadialFunc_out_dim := out_dim;
     RadialFunc_mid_dim := mid_dim;
     RadialFunc_net := p_net ps [] (num_freq * in_dim * out_dim) |}.

(** Cut a list into [count] consecutive pieces of [size] elements. *)
Fixpoint pieces {A} (size count : nat) (l : list A) : list (list A) :=
  match count with
  | O => []
  | S c => firstn size l :: pieces size c (skipn size l)
  end.

(** [rearrange(y, '(o i f) -> o i f')] at one edge. *)
Definition RadialFunc_forward (self : RadialFunc) (x : vec) : list (list vec) :=
  let y := RadialFunc_net self x in
  let o := RadialFunc_out_dim self in
  let i := RadialFunc_in_dim self in
  let f := (length y / (o * i))%nat in
  map (pieces f i) (pieces (i * f) o y).

Record PairwiseConv : Type := {
  PairwiseConv_degree_in : nat;
  PairwiseConv_degree_out : nat;
  PairwiseConv_nc_in : nat;
  PairwiseConv_nc_out : nat;
  PairwiseConv_num_freq : nat;
  PairwiseConv_d_out : nat;
  PairwiseConv_edge_dim : option Z;
  PairwiseConv_rp : RadialFunc
}.

Definition PairwiseConv_init (ps : init_params) (degree_in : nat) (nc_in : Z)
    (degree_out : nat) (nc_out : Z) (edge_dim : option Z) : result PairwiseConv :=
  nc_in' <- check_size nc_in ;;
  nc_out' <- check_size nc_out ;;
  let num_freq := utils.to_order (Nat.min degree_in degree_out) in
  Ok {| PairwiseConv_degree_in := degree_in;
        PairwiseConv_degree_out := degree_out;
        PairwiseConv_nc_in := nc_in';
        PairwiseConv_nc_out := nc_out';
        PairwiseConv_num_freq := num_freq;
        PairwiseConv_d_out := utils.to_order degree_out;
        PairwiseConv_edge_dim := edge_dim;
        PairwiseConv_rp := RadialFunc_init ps num_freq nc_in' nc_out' edge_dim 128 |}.

(** [out = 0; for i in range(R.shape[-1]): out += R[..., i] * B[..., i]]
    at one entry, where the basis has the frequencies that are read (see
    [freq_loop] for the indexing). *)
Definition freq_sum (r b : vec) : R :=
  fold_left (fun out (p : R * R) => out + fst p * snd p) (zip r b) 0.

(** The kernel of one edge, viewed as a matrix with rows [(o, order_out)] and
    columns [(i, order_in)]. *)
Definition kernel_edge (Rm : list (list vec)) (B : basis_elem) : list vec :=
  flat_map (fun R_o =>
              map (fun B_do =>
                     flat_map (fun R_oi => map (fun B_dodi => freq_sum R_oi B_dodi) B_do)
                              R_o)
                  B)
           Rm.

Definition map3 {A B} (f : A -> B) (t : T3 A) : T3 B := map (map (map f)) t.

Definition zip_with3 {A B C} (f : A -> B -> C) (x : T3 A) (y : T3 B) : T3 C :=
  map2 (map2 (map2 f)) x y.

Definition PairwiseConv_forward (self : PairwiseConv) (feat : T3 vec)
    (basis : basis_dict) : result (T3 (list vec)) :=
  let Rm := map3 (RadialFunc_forward (PairwiseConv_rp self)) feat in
  B <- getitem2 basis (PairwiseConv_degree_in self, PairwiseConv_degree_out self) ;;
  Ok (zip_with3 kernel_edge Rm B).

(** ** Conv *)

Record Conv : Type := {
  Conv_fiber_in : fiber;
  Conv_fiber_out : fiber;
  Conv_edge_dim : option Z;
  Conv_self_interaction : bool;
  Conv_kernel_unary : dict2 PairwiseConv;
  Conv_splits : nat;
  Conv_pool : bool;
  Conv_self_interact : option Linear
}.

Definition Conv_init (ps : init_params) (fiber_in fiber_out : fiber)
    (self_interaction pool : bool) (edge_dim : option Z) (splits : nat) : result Conv :=
  kernel_unary <-
    foldM (fun kernels (p : (nat * Z) * (nat * Z)) =>
             let '((di, mi), (do, mo)) := p in
             k <- PairwiseConv_init (sub di (sub do (sub 0 ps))) di mi do mo edge_dim ;;
             Ok (setitem2 kernels (di, do) k))
          (fiber_product fiber_in fiber_out) [] ;;
  self_interact <-
    (if self_interaction then
       _ <- assert pool PoolForSelfInteract ;;
       l <- Linear_init (sub 1 ps) fiber_in fiber_out ;;
       Ok (Some l)
     else Ok None) ;;
  Ok {| Conv_fiber_in := fiber_in;
        Conv_fiber_out := fiber_out;
        Conv_edge_dim := edge_dim;
        Conv_self_interaction := self_interaction;
        Conv_kernel_unary := kernel_unary;
        Conv_splits := splits;
        Conv_pool := pool;
        Conv_self_interact := self_interact |}.

(** [(neighbor_indices, neighbor_mask, edges)]. *)
Definition edge_info : Type :=
  T3 nat * option (T3 bool) * option (T3 vec).

(** The first entries and the rests of a list of lists, if none is empty. *)
Fixpoint uncons_all {A} (ls : list (list A)) : option (list A * list (list A)) :=
  match ls with
  | [] => Some ([], [])
  | [] :: _ => None
  | (a :: l) :: ls' =>
      match uncons_all ls' with
      | Some (hs, ts) => Some (a :: hs, l :: ts)
      | None => None
      end
  end.

Fixpoint columns {A} (l0 : list A) (ls : list (list A)) : list (list A) :=
  match l0 with
  | [] => []
  | a :: l0' =>
      match uncons_all ls with
      | Some (hs, ts) => (a :: hs) :: columns l0' ts
      | None => []
      end
  end.

(** [zip( *ls)]: the columns of a list of lists, up to the shortest. *)
Definition zip_star {A} (ls : list (list A)) : list (list A) :=
  match ls with
  | [] => []
  | l0 :: ls' => columns l0 ls'
  end.

Definition split_basis (basis : basis_dict) (splits : nat) : list basis_dict :=
  let basis_keys := map fst basis in
  let split_basis_values :=
    zip_star (map (fun kv => utils.fast_split (snd kv) splits) basis) in
  map (fun v => zip basis_keys v) split_basis_values.

(** [einsum('o i, i c -> o c', kernel, x)] at one edge, [c] of size 1. *)
Definition matvec (kernel : list vec) (x : vec) : vec :=
  map (fun row => rsum (map2 Rmult row x)) kernel.

Fixpoint zip3 {A B C} (xs : list A) (ys : list B) (zs : list C) : list (A * B * C) :=
  match xs, ys, zs with
  | x :: xs', y :: ys', z :: zs' => (x, y, z) :: zip3 xs' ys' zs'
  | _, _, _ => []
  end.

(** The body of the loop over the chunks. *)
Definition Conv_chunk_step (kernel_fn : PairwiseConv) (output_chunk : option (T3 vec))
    (c : T3 vec * T3 vec * basis_dict) : result (option (T3 vec)) :=
  let '(x_chunk, edge_features, basis) := c in
  kernel <- PairwiseConv_forward kernel_fn edge_features basis ;;
  let chunk := zip_with3 matvec kernel x_chunk in
  Ok (utils.safe_cat output_chunk chunk).

(** The loop over the chunks of one pair of degrees. *)
Definition Conv_chunks (kernel_fn : PairwiseConv) (split_x split_edge_features : list (T3 vec))
    (split_basis_ : list basis_dict) : result (option (T3 vec)) :=
  foldM (Conv_chunk_step kernel_fn)
        (zip3 split_x split_edge_features split_basis_) None.

(** [output + output_chunk], where [output] starts as the int [0]. *)
Definition add_output (output : option (T3 vec)) (output_chunk : option (T3 vec))
    : result (option (T3 vec)) :=
  match output, output_chunk with
  | _, None => Err TypeError
  | None, Some c => Ok (Some c)
  | Some o, Some c => Ok (Some (tadd o c))
  end.

(** The body of the loop over the input degrees. *)
Definition Conv_accumulate_step (self : Conv) (inp : featmap) (neighbor_indices : T3 nat)
    (edges : option (T3 vec)) (rel_dist : T3 vec) (split_basis_ : list basis_dict)
    (degree_out : nat) (output : option (T3 vec)) (p : nat * Z)
    : result (option (T3 vec)) :=
  let splits := Conv_splits self in
  let (degree_in, m_in) := p in
  x <- getitem inp degree_in ;;
  x <- utils.batched_index_select1 x neighbor_indices ;;
  x <- mapM (mapM (mapM (fun node : cmat =>
         let flat := concat node in
         if (Z.of_nat (length flat) =? Z.of_nat (utils.to_order degree_in) * m_in)%Z
         then Ok flat else Err RuntimeError))) x ;;
  kernel_fn <- getitem2 (Conv_kernel_unary self) (degree_in, degree_out) ;;
  let edge_features :=
    match edges with
    | Some e => zip_with3 (@app R) rel_dist e
    | None => rel_dist
    end in
  let split_x := utils.fast_split x splits in
  let split_edge_features := utils.fast_split edge_features splits in
  output_chunk <- Conv_chunks kernel_fn split_x split_edge_features split_basis_ ;;
  add_output output output_chunk.

(** The accumulation over the input degrees for one output degree. *)
Definition Conv_accumulate (self : Conv) (inp : featmap) (neighbor_indices : T3 nat)
    (edges : option (T3 vec)) (rel_dist : T3 vec) (split_basis_ : list basis_dict)
    (degree_out : nat) : result (option (T3 vec)) :=
  foldM (Conv_accumulate_step self inp neighbor_indices edges rel_dist split_basis_ degree_out)
        (enumerate (Conv_fiber_in self)) None.

(** [output.view( *leading_shape, -1, to_order(degree_out))] at one position. *)
Definition unflatten (order : nat) (v : vec) : cmat :=
  pieces order (length v / order) v.

(** The output of [Conv.forward]: pooled over the neighbors, or per neighbor. *)
Inductive conv_output : Type :=
| Pooled (outputs : featmap)
| PerNeighbor (outputs : dict (T3 cmat)).

(** The bodies of the loop over the output degrees, with and without
    pooling over the neighbors. *)
Definition Conv_pool_step (accumulate : nat -> result (T3 vec))
    (neighbor_masks : option (T3 bool)) (outputs : featmap) (p : nat * Z)
    : result featmap :=
  let (degree_out, _) := p in
  output <- accumulate degree_out ;;
  let output : T2 vec :=
    match neighbor_masks with
    | Some m => map2 (map2 utils.masked_mean) output m
    | None => map (map utils.mean) output
    end in
  Ok (setitem outputs degree_out
        (map (map (unflatten (utils.to_order degree_out))) output)).

Definition Conv_keep_step (accumulate : nat -> result (T3 vec))
    (outputs : dict (T3 cmat)) (p : nat * Z) : result (dict (T3 cmat)) :=
  let (degree_out, _) := p in
  output <- accumulate degree_out ;;
  Ok (setitem outputs degree_out
        (map3 (unflatten (utils.to_order degree_out)) output)).

Definition Conv_forward (self : Conv) (inp : featmap) (edge_info_ : edge_info)
    (rel_dist : T3 R) (basis : basis_dict) : result conv_output :=
  let splits := Conv_splits self in
  let '(neighbor_indices, neighbor_masks, edges) := edge_info_ in
  let rel_dist := map3 (fun r => [r]) rel_dist in
  let split_basis_ := split_basis basis splits in
  let accumulate degree_out :=
    output <- Conv_accumulate self inp neighbor_indices edges rel_dist split_basis_ degree_out ;;
    of_option output TypeError in
  outputs <-
    (if Conv_pool self then
       outputs <- foldM (Conv_pool_step accumulate neighbor_masks)
                        (enumerate (Conv_fiber_out self)) [] ;;
       Ok (Pooled outputs)
     else
       outputs <- foldM (Conv_keep_step accumulate)
                        (enumerate (Conv_fiber_out self)) [] ;;
       Ok (PerNeighbor outputs)) ;;
  if Conv_self_interaction self then
    l <- of_option (Conv_self_interact self) TypeError ;;
    self_interact_out <- Linear_forward l inp ;;
    match outputs with
    | Pooled o => Ok (Pooled (residual_fn o self_interact_out))
    | PerNeighbor _ => Err RuntimeError   (* excluded by the assertion of [Conv_init] *)
    end
  else Ok outputs.

(** ** FeedForward *)

Record FeedForward : Type := {
  FeedForward_fiber : fiber;
  FeedForward_prenorm : Norm;
  FeedForward_project_in : Linear;
  FeedForward_gate : Gate;
  FeedForward_project_out : Linear
}.

Definition FeedForward_init (ps : init_params) (fiber_ : fiber)
    (fiber_out : option fiber) (mult : Z) : result FeedForward :=
  let fiber_hidden := map (fun dim => (dim * mult)%Z) fiber_ in
  let dim_gate := zsum (tl fiber_hidden) in
  project_in_fiber_hidden <-
    match fiber_hidden with
    | [] => Err IndexError
    | h0 :: rest => Ok ((h0 + dim_gate)%Z :: rest)
    end ;;
  let fiber_out := utils.default fiber_out fiber_ in
  prenorm <- Norm_init fiber_ default_eps ;;
  project_in <- Linear_init (sub 0 ps) fiber_ project_in_fiber_hidden ;;
  gate <- Gate_init project_in_fiber_hidden ;;
  project_out <- Linear_init (sub 1 ps) fiber_hidden fiber_out ;;
  Ok {| FeedForward_fiber := fiber_;
        FeedForward_prenorm := prenorm;
        FeedForward_project_in := project_in;
        FeedForward_gate := gate;
        FeedForward_project_out := project_out |}.

Definition FeedForward_forward (self : FeedForward) (features : featmap) : result featmap :=
  outputs <- Norm_forward (FeedForward_prenorm self) features ;;
  outputs <- Linear_forward (FeedForward_project_in self) outputs ;;
  outputs <- Gate_forward (FeedForward_gate self) outputs ;;
  Linear_forward (FeedForward_project_out self) outputs.

(** ** Attention *)

(** The value of [dim_head ** -0.5]: a float, or for a negative [dim_head]
    a complex number. *)
Inductive scale_value : Type :=
| RealScale (r : R)
| ComplexScale.

Record Attention : Type := {
  Attention_scale : list scale_value;
  Attention_heads : list Z;
  Attention_prenorm : Norm;
  Attention_to_q : Linear;
  Attention_to_v : Conv;
  Attention_to_k : Conv;
  Attention_to_out : Linear;
  Attention_attend_self : bool;
  Attention_to_self_k : option Linear;
  Attention_to_self_v : option Linear
}.

(** [dim ** -0.5]: a zero [dim] raises, a negative one gives a complex
    number. *)
Definition inv_sqrt (dim : Z) : result scale_value :=
  if (dim =? 0)%Z then Err ZeroDivisionError
  else if (dim <? 0)%Z then Ok ComplexScale
  else Ok (RealScale (/ sqrt (IZR dim))).

Definition Attention_init (ps : init_params) (fiber_ : fiber)
    (dim_head heads : utils.int_or_tuple) (attend_self : bool)
    (edge_dim : option Z) (splits : nat) : result Attention :=
  let num_degrees := length fiber_ in
  let dim_head := utils.cast_tuple dim_head num_degrees in
  _ <- assert (Nat.eqb (length dim_head) num_degrees) DimHeadLength ;;
  let heads := utils.cast_tuple heads num_degrees in
  _ <- assert (Nat.eqb (length heads) num_degrees) HeadsLength ;;
  let hidden_fiber := map2 Z.mul dim_head heads in
  scale <- mapM inv_sqrt dim_head ;;
  prenorm <- Norm_init fiber_ default_eps ;;
  to_q <- Linear_init (sub 0 ps) fiber_ hidden_fiber ;;
  to_v <- Conv_init (sub 1 ps) fiber_ hidden_fiber false false edge_dim splits ;;
  to_k <- Conv_init (sub 2 ps) fiber_ hidden_fiber false false edge_dim splits ;;
  to_out <- Linear_init (sub 3 ps) hidden_fiber fiber_ ;;
  self_kv <-
    (if attend_self then
       to_self_k <- Linear_init (sub 4 ps) fiber_ hidden_fiber ;;
       to_self_v <- Linear_init (sub 5 ps) fiber_ hidden_fiber ;;
       Ok (Some to_self_k, Some to_self_v)
     else Ok (None, None)) ;;
  Ok {| Attention_scale := scale;
        Attention_heads := heads;
        Attention_prenorm := prenorm;
        Attention_to_q := to_q;
        Attention_to_v := to_v;
        Attention_to_k := to_k;
        Attention_to_out := to_out;
        Attention_attend_self := attend_self;
        Attention_to_self_k := fst self_kv;
        Attention_to_self_v := snd self_kv |}.

(** [torch.finfo(torch.float32).max]. *)
Definition finfo_max : R := (2 - / 2 ^ 23) * 2 ^ 127.

(** [rearrange(t, '(h d) m -> h d m', h = h)] at one node. *)
Definition split_heads (h : Z) (t : cmat) : result (list cmat) :=
  if (h <=? 0)%Z then Err RuntimeError
  else
    let h' := Z.to_nat h in
    if Nat.eqb (length t mod h') 0 then Ok (pieces (length t / h') h' t)
    else Err RuntimeError.

(** [einsum('d m, d m -> ', q, k)]. *)
Definition inner (q k : cmat) : R :=
  rsum (map2 (fun (qd kd : vec) => rsum (map2 Rmult qd kd)) q k).

(** [F.pad(neighbor_mask, (num_left_pad, 0), value = True)] along the
    neighbor axis; a negative pad crops. *)
Definition pad_left (num_left_pad : Z) (mask : list bool) : list bool :=
  if (0 <=? num_left_pad)%Z then repeat true (Z.to_nat num_left_pad) ++ mask
  else skipn (Z.to_nat (- num_left_pad)) mask.

(** The mask applied to the similarities of one node. *)
Definition attention_mask (sim : vec) (neighbor_mask : list bool) : list bool :=
  let num_left_pad := (Z.of_nat (length sim) - Z.of_nat (length neighbor_mask))%Z in
  pad_left num_left_pad neighbor_mask.

(** [sim.masked_fill(~mask, -torch.finfo(sim.dtype).max)]. *)
Definition masked_fill_sim (sim : vec) (mask : list bool) : vec :=
  map2 (fun s (m : bool) => if m then s else - finfo_max) sim mask.

Definition softmax (sim : vec) : vec :=
  let total := rsum (map exp sim) in
  map (fun s => exp s / total) sim.

(** The attention weights of one head at one node: [k] holds the keys over
    the neighbor axis, the node's own key first when [attend_self]. *)
Definition attention_weights (scale : R) (neighbor_mask : option (list bool))
    (q : cmat) (k : list cmat) : vec :=
  let sim := map (fun kj => inner q kj * scale) k in
  let sim :=
    match neighbor_mask with
    | Some nm => masked_fill_sim sim (attention_mask sim nm)
    | None => sim
    end in
  softmax sim.

(** One head at one node: [einsum('j, j d m -> d m', attn, v)]. *)
Definition attend_head (scale : R) (neighbor_mask : option (list bool))
    (q : cmat) (k v : list cmat) : cmat :=
  let attn := attention_weights scale neighbor_mask q k in
  tsum (map2 (fun (a : R) (vj : cmat) => tscale a vj) attn v).

(** The heads of the keys (or values) of one node, per head a list over the
    neighbor axis, with the node's own key prepended when [attend_self]. *)
Definition head_keys (h : Z) (self_k : option cmat) (k : list cmat)
    : result (list (list cmat)) :=
  k <- mapM (split_heads h) k ;;          (* [j][h] *)
  let per_head := map (fun i => map (fun kj => nth i kj []) k) (seq 0 (Z.to_nat h)) in
  match self_k with
  | None => Ok per_head
  | Some sk =>
      sk <- split_heads h sk ;;
      Ok (map2 (fun s ks => s :: ks) sk per_head)
  end.

(** [sim.softmax(dim = -1)] is not implemented for the complex similarities
    that a complex scale gives. *)
Definition real_scale (scale : scale_value) : result R :=
  match scale with
  | RealScale r => Ok r
  | ComplexScale => Err RuntimeError
  end.

Definition Attention_node (h : Z) (scale : scale_value) (neighbor_mask : option (list bool))
    (q : cmat) (self_k self_v : option cmat) (k v : list cmat) : result cmat :=
  q <- split_heads h q ;;
  k <- head_keys h self_k k ;;
  v <- head_keys h self_v v ;;
  scale <- real_scale scale ;;
  let out := map (fun p => attend_head scale neighbor_mask (fst (fst p)) (snd (fst p)) (snd p))
                 (zip3 q k v) in
  Ok (concat out).

Definition opt_like {A B} (o : option (T2 A)) (like : T2 B) : T2 (option A) :=
  match o with
  | Some t => map (map (@Some A)) t
  | None => map (map (fun _ => None)) like
  end.

Definition unpooled (o : conv_output) : result (dict (T3 cmat)) :=
  match o with
  | PerNeighbor d => Ok d
  | Pooled _ => Err RuntimeError
  end.

Definition getitem_opt {A} (d : option (dict A)) (k : nat) : result (option A) :=
  match d with
  | Some d => v <- getitem d k ;; Ok (Some v)
  | None => Ok None
  end.

(** The body of the loop over the degrees of [Attention.forward]. *)
Definition Attention_degree (neighbor_mask : option (T3 bool))
    (queries : featmap) (keys_ values : dict (T3 cmat))
    (self_keys self_values : option featmap)
    (degree : nat) (h : Z) (scale : scale_value) : result (T2 cmat) :=
  q <- getitem queries degree ;;
  k <- getitem keys_ degree ;;
  v <- getitem values degree ;;
  self_k <- getitem_opt self_keys degree ;;
  self_v <- getitem_opt self_values degree ;;
  let nm := opt_like neighbor_mask q in
  let sk := opt_like self_k q in
  let sv := opt_like self_v q in
  mapM (fun pb =>
          let '(qb, kb, vb, nmb, skb, svb) := pb in
          mapM (fun pn =>
                  let '(qn, kn, vn, nmn, skn, svn) := pn in
                  Attention_node h scale nmn qn skn svn kn vn)
               (zip (zip (zip (zip (zip qb kb) vb) nmb) skb) svb))
       (zip (zip (zip (zip (zip q k) v) nm) sk) sv).

Definition Attention_forward (self : Attention) (features : featmap)
    (edge_info_ : edge_info) (rel_dist : T3 R) (basis : basis_dict)
    (mask : option (T2 bool)) : result featmap :=
  let attend_self := Attention_attend_self self in
  _ <- match features with
       | [] => Err RuntimeError      (* next(iter(features.items())) *)
       | _ => Ok tt
       end ;;
  let '(neighbor_indices, neighbor_mask, edges) := edge_info_ in
  features <- Norm_forward (Attention_prenorm self) features ;;
  queries <- Linear_forward (Attention_to_q self) features ;;
  keys_ <- Conv_forward (Attention_to_k self) features edge_info_ rel_dist basis ;;
  values <- Conv_forward (Attention_to_v self) features edge_info_ rel_dist basis ;;
  keys_ <- unpooled keys_ ;;
  values <- unpooled values ;;
  self_kv <-
    (if attend_self then
       to_self_k <- of_option (Attention_to_self_k self) TypeError ;;
       to_self_v <- of_option (Attention_to_self_v self) TypeError ;;
       self_keys <- Linear_forward to_self_k features ;;
       self_values <- Linear_forward to_self_v features ;;
       Ok (Some self_keys, Some self_values)
     else Ok (None, None)) ;;
  outputs <-
    foldM (fun (outputs : featmap) (p : nat * Z * scale_value) =>
             let '(degree, h, scale) := p in
             out <- Attention_degree neighbor_mask queries keys_ values
                      (fst self_kv) (snd self_kv) degree h scale ;;
             Ok (setitem outputs degree out))
          (zip3 (keys features) (Attention_heads self) (Attention_scale self)) [] ;;
  Linear_forward (Attention_to_out self) outputs.

(** ** Equiformer *)

(** [num_neighbors]: an integer, or [float('inf')]. *)
Inductive count : Type :=
| Finite (z : Z)
| Infinite.

Record config : Type := {
  dim : utils.int_or_tuple;
  dim_in : option utils.int_or_tuple;
  num_degrees : nat;
  input_degrees : nat;
  heads : utils.int_or_tuple;
  dim_head : utils.int_or_tuple;
  depth : nat;
  valid_radius : R;
  num_neighbors : count;
  reduce_dim_out : bool;
  num_tokens : option Z;
  num_positions : option Z;
  num_edge_tokens : option Z;
  edge_dim : option Z;
  attend_self : bool;
  differentiable_coors : bool;
  splits : nat;
  linear_out : bool
}.

Record Embedding : Type := {
  Embedding_num_embeddings : Z;
  Embedding_weight : Z -> vec
}.

Definition Embedding_init (ps : init_params) (num_embeddings embedding_dim : Z)
    : result Embedding :=
  _ <- check_size num_embeddings ;;
  embedding_dim <- check_size embedding_dim ;;
  Ok {| Embedding_num_embeddings := num_embeddings;
        Embedding_weight := p_emb ps [] embedding_dim |}.

Definition Embedding_forward (self : Embedding) (i : Z) : result vec :=
  if ((0 <=? i) && (i <? Embedding_num_embeddings self))%Z
  then Ok (Embedding_weight self i) else Err IndexError.

Inductive proj_out : Type :=
| ProjLinear (l : Linear)
| ProjFeedForward (f : FeedForward).

Record Equiformer : Type := {
  Equiformer_dim : fiber;
  Equiformer_num_degrees : nat;
  Equiformer_dim_in : fiber;
  Equiformer_input_degrees : nat;
  Equiformer_type0_feat_dim : Z;
  Equiformer_token_emb : option Embedding;
  Equiformer_num_positions : option Z;
  Equiformer_pos_emb : option Embedding;
  Equiformer_edge_emb : option Embedding;
  Equiformer_has_edges : bool;
  Equiformer_differentiable_coors : bool;
  Equiformer_valid_radius : R;
  Equiformer_num_neighbors : count;
  Equiformer_conv_in : Conv;
  Equiformer_attend_self : bool;
  Equiformer_layers : list (Attention * FeedForward);
  Equiformer_norm : Norm;
  Equiformer_ff_out : option proj_out
}.

Definition init_opt {A B} (o : option A) (f : A -> result B) : result (option B) :=
  match o with
  | Some a => b <- f a ;; Ok (Some b)
  | None => Ok None
  end.

Definition Equiformer_init (ps : init_params) (c : config) : result Equiformer :=
  let self_dim := utils.cast_tuple (dim c) (num_degrees c) in
  _ <- assert (Nat.eqb (length self_dim) (num_degrees c)) DimLength ;;
  let self_num_degrees := length self_dim in
  dim0 <- of_option (nth_error self_dim 0) IndexError ;;
  let dim_in_ := utils.default (dim_in c) (utils.Tuple [dim0]) in
  let self_dim_in := utils.cast_tuple dim_in_ (input_degrees c) in
  _ <- assert (Nat.eqb (length self_dim_in) (input_degrees c)) DimInLength ;;
  let self_input_degrees := length self_dim_in in
  type0_feat_dim <- of_option (nth_error self_dim_in 0) IndexError ;;
  token_emb <- init_opt (num_tokens c)
                 (fun n => Embedding_init (sub 0 ps) n type0_feat_dim) ;;
  pos_emb <- init_opt (num_positions c)
               (fun n => Embedding_init (sub 1 ps) n type0_feat_dim) ;;
  _ <- assert (negb (utils.exists_ (num_edge_tokens c) && negb (utils.exists_ (edge_dim c))))
         EdgeDimMissing ;;
  edge_emb <- init_opt (num_edge_tokens c)
                (fun n => e <- of_option (edge_dim c) TypeError ;;
                          Embedding_init (sub 2 ps) n e) ;;
  let has_edges := match edge_dim c with
                   | Some e => (0 <? e)%Z
                   | None => false
                   end in
  conv_in <- Conv_init (sub 3 ps) self_dim_in self_dim true true (edge_dim c) (splits c) ;;
  layers <- mapM (fun ind =>
                    attn <- Attention_init (sub 0 (sub ind (sub 4 ps))) self_dim
                              (dim_head c) (heads c) (attend_self c) (edge_dim c) (splits c) ;;
                    ff <- FeedForward_init (sub 1 (sub ind (sub 4 ps))) self_dim None 4 ;;
                    Ok (attn, ff))
                 (seq 0 (depth c)) ;;
  norm <- Norm_init self_dim default_eps ;;
  ff_out <-
    (if reduce_dim_out c then
       let fiber_out := repeat 1%Z self_num_degrees in
       if linear_out c then
         l <- Linear_init (sub 5 ps) self_dim fiber_out ;; Ok (Some (ProjLinear l))
       else
         f <- FeedForward_init (sub 5 ps) self_dim (Some fiber_out) 4 ;;
         Ok (Some (ProjFeedForward f))
     else Ok None) ;;
  Ok {| Equiformer_dim := self_dim;
        Equiformer_num_degrees := self_num_degrees;
        Equiformer_dim_in := self_dim_in;
        Equiformer_input_degrees := self_input_degrees;
        Equiformer_type0_feat_dim := type0_feat_dim;
        Equiformer_token_emb := token_emb;
        Equiformer_num_positions := num_positions c;
        Equiformer_pos_emb := pos_emb;
        Equiformer_edge_emb := edge_emb;
        Equiformer_has_edges := has_edges;
        Equiformer_differentiable_coors := differentiable_coors c;
        Equiformer_valid_radius := valid_radius c;
        Equiformer_num_neighbors := num_neighbors c;
        Equiformer_conv_in := conv_in;
        Equiformer_attend_self := attend_self c;
        Equiformer_layers := layers;
        Equiformer_norm := norm;
        Equiformer_ff_out := ff_out |}.

(** *** The arguments of [Equiformer.forward] *)

Inductive feats_arg : Type :=
| FeatTokens (t : T2 Z)          (* token indices, [b, n] *)
| FeatTensor (t : T2 vec)        (* degree-0 features, [b, n, d] *)
| FeatDict (d : featmap).        (* a degree-indexed feature map *)

Inductive edges_arg : Type :=
| EdgeTokens (t : T3 Z)          (* edge token indices, [b, n, n] *)
| EdgeFeats (t : T3 vec).        (* edge features, [b, n, n, e] *)

Record forward_args : Type := {
  arg_feats : feats_arg;
  arg_coors : T2 vec;
  arg_mask : option (T2 bool);
  arg_adj_mat : option (T3 bool);
  arg_edges : option edges_arg;
  arg_return_type : option Z;
  arg_return_pooled : bool;
  arg_neighbor_mask : option (T3 bool)
}.

(** *** Embeddings and input checks (lines 548-566) *)

Definition embed_tokens (self : Equiformer) (feats : feats_arg) : result feats_arg :=
  match Equiformer_token_emb self with
  | Some emb =>
      match feats with
      | FeatTokens t =>
          t' <- mapM (mapM (Embedding_forward emb)) t ;; Ok (FeatTensor t')
      | _ => Err TypeError        (* an embedding indexes with integers only *)
      end
  | None => Ok feats
  end.

Definition embed_positions (self : Equiformer) (feats : feats_arg) : result feats_arg :=
  match Equiformer_pos_emb self with
  | Some emb =>
      match feats with
      | FeatTensor t =>
          let n := utils.axis1_len t in
          num_positions <- of_option (Equiformer_num_positions self) TypeError ;;
          _ <- assert (Z.of_nat n <=? num_positions)%Z SeqLenPositions ;;
          pos <- mapM (Embedding_forward emb) (map Z.of_nat (seq 0 n)) ;;
          Ok (FeatTensor (map (fun row => tadd row pos) t))
      | _ => Err TypeError
      end
  | None => Ok feats
  end.

(** [if torch.is_tensor(feats): feats = {0: rearrange(feats, '... -> ... 1')}];
    integer features without a token embedding are a dtype mismatch the
    numeric runtime rejects. *)
Definition as_featmap (feats : feats_arg) : result featmap :=
  match feats with
  | FeatTensor t => Ok [(0%nat, map (map (map (fun x => [x]))) t)]
  | FeatDict d => Ok d
  | FeatTokens _ => Err TypeError
  end.

Definition same_keys (ks : list nat) (input_degrees : nat) : bool :=
  forallb (fun k => Nat.ltb k input_degrees) ks
  && forallb (fun i => existsb (Nat.eqb i) ks) (seq 0 input_degrees).

Record checked : Type := {
  checked_feats : featmap;
  checked_b : nat;
  checked_n : nat
}.

Definition check_inputs (self : Equiformer) (args : forward_args) : result checked :=
  feats <- embed_tokens self (arg_feats args) ;;
  feats <- embed_positions self feats ;;
  _ <- assert (negb (Equiformer_has_edges self && negb (utils.exists_ (arg_edges args))))
         EdgesMissing ;;
  feats <- as_featmap feats ;;
  feats0 <- getitem feats 0%nat ;;
  let b := length feats0 in
  let n := utils.axis1_len feats0 in
  let d := channels feats0 in
  _ <- assert (Z.of_nat d =? Equiformer_type0_feat_dim self)%Z FeatureDim ;;
  _ <- assert (same_keys (keys feats) (Equiformer_input_degrees self)) InputDegrees ;;
  Ok {| checked_feats := feats; checked_b := b; checked_n := n |}.

(** *** Pairwise tensors without the diagonal (lines 570-610) *)

Definition exclude_self_mask (n : nat) : list (list bool) :=
  map (fun i => map (fun j => negb (Nat.eqb i j)) (seq 0 n)) (seq 0 n).

(** [row.masked_select(mask_row)]. *)
Definition select {A} (row : list A) (mask_row : list bool) : list A :=
  map fst (filter (fun p => snd p) (zip row mask_row)).

(** [t.masked_select(mask)] for [t] of shape [b, n, n] (the entries along a
    trailing axis move together) and [mask] of shape [1, n, n]. *)
Definition masked_select {A} (t : T3 A) (mask : list (list bool)) : list A :=
  concat (map (fun tb => concat (map2 select tb mask)) t).

(** [flat.reshape(b, n, k)]. *)
Definition reshape3 {A} (b n k : nat) (flat : list A) : result (T3 A) :=
  if Nat.eqb (length flat) (b * n * k)
  then Ok (map (pieces k n) (pieces (n * k) b flat))
  else Err RuntimeError.

(** [t.masked_select(exclude_self_mask).reshape(b, n, n - 1)]; with [n = 0]
    the size [n - 1] is [-1], which cannot be inferred for an empty tensor. *)
Definition remove_self {A} (b n : nat) (t : T3 A) : result (T3 A) :=
  if Nat.eqb n 0 then Err RuntimeError
  else reshape3 b n (n - 1) (masked_select t (exclude_self_mask n)).

(** The same with a trailing [-1]: [reshape(b, n, n - 1, -1)], which cannot
    be inferred either when [n - 1 = 0]. *)
Definition remove_self_edges {A} (b n : nat) (t : T3 A) : result (T3 A) :=
  if Nat.leb n 1 then Err RuntimeError
  else reshape3 b n (n - 1) (masked_select t (exclude_self_mask n)).

Definition embed_edges (self : Equiformer) (edges : edges_arg) : result (T3 vec) :=
  match Equiformer_edge_emb self, edges with
  | Some emb, EdgeTokens t => mapM (mapM (mapM (Embedding_forward emb))) t
  | None, EdgeFeats t => Ok t
  | _, _ => Err TypeError
  end.

Definition Rleb (x y : R) : bool := if Rle_dec x y then true else false.

Record pairwise : Type := {
  pw_indices : T3 nat;
  pw_rel_pos : T3 vec;
  pw_mask : option (T3 bool);
  pw_edges : option (T3 vec);
  pw_rel_dist : T3 R;
  pw_modified_rel_dist : T3 R
}.

Definition build_pairwise (self : Equiformer) (args : forward_args) (b n : nat)
    : result pairwise :=
  let coors := arg_coors args in
  let mask_ := exclude_self_mask n in
  let indices := repeat (repeat (seq 0 n) n) b in
  let rel_pos := map (fun cb => map (fun ci => map (fun cj => map2 Rminus ci cj) cb) cb) coors in
  indices <- remove_self b n indices ;;
  rel_pos <- remove_self b n rel_pos ;;
  mask <- init_opt (arg_mask args)
            (fun m => remove_self b n
                        (map (fun mb => map (fun mi => map (fun mj => andb mi mj) mb) mb) m)) ;;
  edges <- init_opt (arg_edges args)
             (fun e => e <- embed_edges self e ;; remove_self_edges b n e) ;;
  let rel_dist := map3 l2norm rel_pos in
  let max_value := finfo_max in
  modified_rel_dist <-
    match arg_neighbor_mask args with
    | Some nm =>
        nm <- remove_self b n nm ;;
        (* the diagnostic about max_neighbors only prints *)
        Ok (zip_with3 (fun d (m : bool) => if m then d else max_value) rel_dist nm)
    | None => Ok rel_dist
    end ;;
  Ok {| pw_indices := indices;
        pw_rel_pos := rel_pos;
        pw_mask := mask;
        pw_edges := edges;
        pw_rel_dist := rel_dist;
        pw_modified_rel_dist := modified_rel_dist |}.

(** *** Neighbor selection (lines 612-637) *)

(** [if neighbors == 0: valid_radius = 0]. *)
Definition effective_valid_radius (self : Equiformer) : R :=
  match Equiformer_num_neighbors self with
  | Finite 0 => 0
  | _ => Equiformer_valid_radius self
  end.

(** [int(min(neighbors, n - 1))]. *)
Definition clamp_neighbors (neighbors : count) (n : nat) : Z :=
  match neighbors with
  | Finite z => Z.min z (Z.of_nat n - 1)
  | Infinite => (Z.of_nat n - 1)%Z
  end.

Fixpoint insert_by_value (x : R * nat) (l : list (R * nat)) : list (R * nat) :=
  match l with
  | [] => [x]
  | y :: l' => if Rleb (fst x) (fst y) then x :: l else y :: insert_by_value x l'
  end.

(** [row.topk(k, largest = False)]: the [k] smallest values in ascending
    order with their positions, equal values in ascending position. *)
Definition topk (k : nat) (row : list R) : result (list R * list nat) :=
  if Nat.ltb (length row) k then Err RuntimeError
  else
    let sorted := fold_right insert_by_value [] (zip row (seq 0 (length row))) in
    Ok (List.split (firstn k sorted)).

Record selection : Type := {
  sel_neighbor_indices : T3 nat;
  sel_neighbor_mask : T3 bool;
  sel_neighbor_rel_dist : T3 R;
  sel_neighbor_rel_pos : T3 vec;
  sel_edges : option (T3 vec);
  sel_nearest_indices : T3 nat
}.

Definition select_neighbors (self : Equiformer) (n : nat) (pw : pairwise)
    : result selection :=
  let valid_radius := effective_valid_radius self in
  let neighbors := clamp_neighbors (Equiformer_num_neighbors self) n in
  let total_neighbors := neighbors in
  _ <- assert (0 <? total_neighbors)%Z TotalNeighbors ;;
  let total_neighbors := Z.min total_neighbors (Z.of_nat n - 1) in
  top <- mapM (mapM (topk (Z.to_nat total_neighbors))) (pw_modified_rel_dist pw) ;;
  let dist_values : T3 R := map (map fst) top in
  let nearest_indices : T3 nat := map (map snd) top in
  let neighbor_mask := map3 (fun d => Rleb d valid_radius) dist_values in
  neighbor_rel_dist <- utils.batched_index_select2 (pw_rel_dist pw) nearest_indices ;;
  neighbor_rel_pos <- utils.batched_index_select2 (pw_rel_pos pw) nearest_indices ;;
  neighbor_indices <- utils.batched_index_select2 (pw_indices pw) nearest_indices ;;
  neighbor_mask <-
    match pw_mask pw with
    | Some mask =>
        m <- utils.batched_index_select2 mask nearest_indices ;;
        Ok (zip_with3 andb neighbor_mask m)
    | None => Ok neighbor_mask
    end ;;
  edges <- init_opt (pw_edges pw)
             (fun e => utils.batched_index_select2 e nearest_indices) ;;
  Ok {| sel_neighbor_indices := neighbor_indices;
        sel_neighbor_mask := neighbor_mask;
        sel_neighbor_rel_dist := neighbor_rel_dist;
        sel_neighbor_rel_pos := neighbor_rel_pos;
        sel_edges := edges;
        sel_nearest_indices := nearest_indices |}.

(** *** Trunk and return (lines 639-685) *)

(** Tensors of the ranks the last stages produce. *)
Inductive tensor : Type :=
| Rank4 (t : list (list (list vec)))
| Rank3 (t : list (list vec))
| Rank2 (t : list vec)
| Rank1 (t : vec)
| Rank0 (t : R).

(** [rearrange(v, '... 1 c -> ... c')]. *)
Definition squeeze_channel (t : tensor) : result tensor :=
  let sq {A} (l : list A) : result A :=
    match l with
    | [x] => Ok x
    | _ => Err RuntimeError
    end in
  match t with
  | Rank4 t => t' <- mapM (mapM sq) t ;; Ok (Rank3 t')
  | Rank3 t => t' <- mapM sq t ;; Ok (Rank2 t')
  | Rank2 t => t' <- sq t ;; Ok (Rank1 t')
  | _ => Err RuntimeError
  end.

(** [rearrange(type0, '... 1 -> ...')]. *)
Definition squeeze_last (t : tensor) : result tensor :=
  let sq (l : vec) : result R :=
    match l with
    | [x] => Ok x
    | _ => Err RuntimeError
    end in
  match t with
  | Rank4 t => t' <- mapM (mapM (mapM sq)) t ;; Ok (Rank3 t')
  | Rank3 t => t' <- mapM (mapM sq) t ;; Ok (Rank2 t')
  | Rank2 t => t' <- mapM sq t ;; Ok (Rank1 t')
  | Rank1 t => t' <- sq t ;; Ok (Rank0 t')
  | Rank0 _ => Err RuntimeError
  end.

(** [masked_mean(t, _mask, dim = 1)], or [t.mean(dim = 1)]. *)
Definition pool_nodes (mask : option (T2 bool)) (t : tensor) : result tensor :=
  let along {A} `{Tensor A} (t : list (list A)) : list A :=
    match mask with
    | Some m => map2 utils.masked_mean t m
    | None => map utils.mean t
    end in
  match t with
  | Rank4 t => Ok (Rank3 (along t))
  | Rank3 t => Ok (Rank2 (along t))
  | Rank2 t => Ok (Rank1 (along t))
  | _ => Err RuntimeError
  end.

Definition mapM_values {A B} (f : A -> result B) (d : dict A) : result (dict B) :=
  foldM (fun out (p : nat * A) => v <- f (snd p) ;; Ok (setitem out (fst p) v)) d [].

Definition pooled_output (o : conv_output) : result featmap :=
  match o with
  | Pooled d => Ok d
  | PerNeighbor _ => Err RuntimeError
  end.

Definition proj_out_forward (p : proj_out) (x : featmap) : result featmap :=
  match p with
  | ProjLinear l => Linear_forward l x
  | ProjFeedForward f => FeedForward_forward f x
  end.

(** [Return(type0, type1)]. *)
Record Return : Type := {
  type0 : tensor;
  type1 : tensor
}.

Section Forward.

(** The basis provider is an external collaborator. *)
Variable get_basis : T3 vec -> Z -> bool -> basis_dict.

(** Conv-in, the residual blocks, the final norm, the optional reduction and
    the optional pooling. *)
Definition trunk (self : Equiformer) (args : forward_args) (feats : featmap)
    (sel : selection) : result (dict tensor) :=
  let _mask := arg_mask args in
  let basis := get_basis (sel_neighbor_rel_pos sel)
                 (Z.of_nat (Equiformer_num_degrees self) - 1)
                 (Equiformer_differentiable_coors self) in
  let edge_info_ : edge_info :=
    (sel_neighbor_indices sel, Some (sel_neighbor_mask sel), sel_edges sel) in
  let x := feats in
  x <- Conv_forward (Equiformer_conv_in self) x edge_info_ (sel_neighbor_rel_dist sel) basis ;;
  x <- pooled_output x ;;
  x <- foldM (fun x (layer : Attention * FeedForward) =>
                let (attn, ff) := layer in
                a <- Attention_forward attn x edge_info_ (sel_neighbor_rel_dist sel) basis _mask ;;
                let x := residual_fn a x in
                f <- FeedForward_forward ff x ;;
                Ok (residual_fn f x))
             (Equiformer_layers self) x ;;
  x <- Norm_forward (Equiformer_norm self) x ;;
  x <- match Equiformer_ff_out self with
       | Some ff_out =>
           x <- proj_out_forward ff_out x ;;
           mapM_values (fun v => squeeze_channel (Rank4 v)) x
       | None => mapM_values (fun v => Ok (Rank4 v)) x
       end ;;
  if arg_return_pooled args then mapM_values (pool_nodes _mask) x else Ok x.

(** [type0, type1 = x[0], x[1]] and the squeeze of type 0 (lines 679-685). *)
Definition return_stage (x : dict tensor) : result Return :=
  t0 <- getitem x 0%nat ;;
  t1 <- getitem x 1%nat ;;
  t0 <- squeeze_last t0 ;;
  Ok {| type0 := t0; type1 := t1 |}.

Definition Equiformer_forward (self : Equiformer) (args : forward_args) : result Return :=
  ck <- check_inputs self args ;;
  pw <- build_pairwise self args (checked_b ck) (checked_n ck) ;;
  sel <- select_neighbors self (checked_n ck) pw ;;
  x <- trunk self args (checked_feats ck) sel ;;
  return_stage x.

End Forward.

(** ** Concrete models and inputs *)

Definition example_params : init_params :=
  {| p_randn := fun _ dim_in dim_out => repeat (repeat 1 dim_out) dim_in;
     p_net := fun _ out_features _ => repeat 1 out_features;
     p_emb := fun _ embedding_dim _ => repeat 1 embedding_dim |}.

(** [Equiformer(dim = 1, heads = 1, dim_head = 1, depth = 1,
    num_degrees = num_degrees, num_neighbors = num_neighbors)]. *)
Definition example_config (num_degrees_ : nat) (num_neighbors_ : count) : config :=
  {| dim := utils.Int 1;
     dim_in := None;
     num_degrees := num_degrees_;
     input_degrees := 1;
     heads := utils.Int 1;
     dim_head := utils.Int 1;
     depth := 1;
     valid_radius := 100000;
     num_neighbors := num_neighbors_;
     reduce_dim_out := false;
     num_tokens := None;
     num_positions := None;
     num_edge_tokens := None;
     edge_dim := None;
     attend_self := true;
     differentiable_coors := false;
     splits := 4;
     linear_out := true |}.

(** One batch element with [n] nodes on a line, one feature channel. *)
Definition example_args (n : nat) : forward_args :=
  {| arg_feats := FeatTensor [map (fun _ => [1]) (seq 0 n)];
     arg_coors := [map (fun i => [INR i; 0; 0]) (seq 0 n)];
     arg_mask := None;
     arg_adj_mat := None;
     arg_edges := None;
     arg_return_type := None;
     arg_return_pooled := false;
     arg_neighbor_mask := None |}.

(** A basis with the shapes of the real one, constant over the edges: for
    the pair [(di, do)], [to_order(do)] rows of [to_order(di)] entries with
    [to_order(min(di, do))] frequencies each. *)
Definition example_basis (rel_pos : T3 vec) (max_degree : Z) (differentiable : bool)
    : basis_dict :=
  map (fun p : nat * nat =>
         (p, map3 (fun _ => repeat (repeat (repeat 1 (utils.to_order
                                                         (Nat.min (fst p) (snd p))))
                                           (utils.to_order (fst p)))
                                   (utils.to_order (snd p))) rel_pos))
      (list_prod (seq 0 (Z.to_nat (max_degree + 1))) (seq 0 (Z.to_nat (max_degree + 1)))).

(** Two calls differ at most in [adj_mat] and [return_type]. *)
Definition same_but_adj_mat_return_type (args1 args2 : forward_args) : Prop :=
  arg_feats args1 = arg_feats args2
  /\ arg_coors args1 = arg_coors args2
  /\ arg_mask args1 = arg_mask args2
  /\ arg_edges args1 = arg_edges args2
  /\ arg_return_pooled args1 = arg_return_pooled args2
  /\ arg_neighbor_mask args1 = arg_neighbor_mask args2.

(** The arguments of a call with [adj_mat] and [return_type] replaced. *)
Definition with_adj_mat_return_type (args : forward_args)
    (adj_mat : option (T3 bool)) (return_type : option Z) : forward_args :=
  {| arg_feats := arg_feats args;
     arg_coors := arg_coors args;
     arg_mask := arg_mask args;
     arg_adj_mat := adj_mat;
     arg_edges := arg_edges args;
     arg_return_type := return_type;
     arg_return_pooled := arg_return_pooled args;
     arg_neighbor_mask := arg_neighbor_mask args |}.

(** The value of a successful computation. *)
Definition from_ok {A : Type} (r : result A)
    : match r return Type with Ok _ => A | Err _ => unit end :=
  match r with
  | Ok a => a
  | Err _ => tt
  end.

(** The model of [example_config] with two degrees and no neighbor limit. *)
Definition example_model : Equiformer :=
  from_ok (Equiformer_init example_params (example_config 2 Infinite)).

(** The same with [num_neighbors = 0]. *)
Definition zero_neighbors_model : Equiformer :=
  from_ok (Equiformer_init example_params (example_config 2 (Finite 0))).

(** The same with a single degree. *)
Definition one_degree_model : Equiformer :=
  from_ok (Equiformer_init example_params (example_config 1 Infinite)).

(** The pairwise tensors and the selection of a call on two nodes. *)
Definition example_pairwise : pairwise :=
  from_ok (build_pairwise example_model (example_args 2) 1 2).

Definition example_selection : selection :=
  from_ok (select_neighbors example_model 2 example_pairwise).

(** The indices [0 .. n-1] without [i]. *)
Definition others (n i : nat) : list nat := seq 0 i ++ seq (S i) (n - S i).

(** A dict whose only key is degree 0. *)
Definition single0 {A} (x : dict A) : Prop := exists v, x = [(0%nat, v)].

(** A [Linear] that maps degree 0 only. *)
Definition degree0_only (l : Linear) : Prop :=
  Linear_degrees l = [0%nat] /\ exists w, Linear_weights l = [w].

(** The projection that a [proj_out] ends with. *)
Definition proj_out_last (p : proj_out) : Linear :=
  match p with
  | ProjLinear l => l
  | ProjFeedForward f => FeedForward_project_out f
  end.

(** What the constructor guarantees when a single degree is configured. *)
Definition one_degree_modules (self : Equiformer) : Prop :=
  Conv_pool (Equiformer_conv_in self) = true
  /\ length (Conv_fiber_out (Equiformer_conv_in self)) = 1%nat
  /\ Forall (fun layer : Attention * FeedForward =>
               degree0_only (FeedForward_project_out (snd layer)))
            (Equiformer_layers self)
  /\ length (Norm_transforms (Equiformer_norm self)) = 1%nat
  /\ (forall p, Equiformer_ff_out self = Some p -> degree0_only (proj_out_last p)).

(** The feature map with the tensor of one degree scaled by [c]. *)
Definition scale_degree (c : R) (degree : nat) (features : featmap) : featmap :=
  map (fun p : nat * T2 cmat =>
         if Nat.eqb (fst p) degree then (fst p, tscale c (snd p)) else p)
      features.

(** A degree-0 feature map on one node with the single entry [x]. *)
Definition scalar_features (x : R) : featmap := [(0%nat, [[ [[x]] ]])].

(** [Norm((1,))], with the default [eps] and the initial scale. *)
Definition example_norm : Norm :=
  {| Norm_eps := default_eps; Norm_transforms := [[1]] |}.

(** ** Chunking *)

(** The same [Conv] with another number of splits. *)
Definition with_splits (splits_ : nat) (self : Conv) : Conv :=
  {| Conv_fiber_in := Conv_fiber_in self;
     Conv_fiber_out := Conv_fiber_out self;
     Conv_edge_dim := Conv_edge_dim self;
     Conv_self_interaction := Conv_self_interaction self;
     Conv_kernel_unary := Conv_kernel_unary self;
     Conv_splits := splits_;
     Conv_pool := Conv_pool self;
     Conv_self_interact := Conv_self_interact self |}.

(** The inputs of [Conv.forward] share the leading [batch, node] sizes. *)
Definition conv_shapes (b n : nat) (inp : featmap) (edge_info_ : edge_info)
    (rel_dist : T3 R) (basis : basis_dict) : Prop :=
  let '(neighbor_indices, _, edges) := edge_info_ in
  Forall (fun kv : nat * T2 cmat => length (snd kv) = b) inp
  /\ length neighbor_indices = b /\ utils.axis1_len neighbor_indices = n
  /\ length rel_dist = b /\ utils.axis1_len rel_dist = n
  /\ (forall e, edges = Some e -> length e = b /\ utils.axis1_len e = n)
  /\ Forall (fun kv : (nat * nat) * T3 basis_elem => utils.axis1_len (snd kv) = n) basis.

(** The kernel applied to the whole tensors at once, without chunks. *)
Definition conv_unchunked (kernel_fn : PairwiseConv) (x edge_features : T3 vec)
    (B : T3 basis_elem) : T3 vec :=
  let Rm := map3 (RadialFunc_forward (PairwiseConv_rp kernel_fn)) edge_features in
  zip_with3 matvec (zip_with3 kernel_edge Rm B) x.

(** The basis dictionary narrowed to each of the consecutive pieces. *)
Fixpoint narrow_dict (basis : basis_dict) (start : nat) (sizes : list nat)
    : list basis_dict :=
  match sizes with
  | [] => []
  | len :: sizes' =>
      map (fun kv => (fst kv, utils.narrow1 (snd kv) start len)) basis
        :: narrow_dict basis (start + len) sizes'
  end.

(** What the loop over the chunks computes, whatever the number of splits. *)
Definition chunks_result (kernel_fn : PairwiseConv) (x edge_features : T3 vec)
    (basis : basis_dict) (n : nat) : result (option (T3 vec)) :=
  match n, basis with
  | O, _ => Ok None
  | _, [] => Ok None
  | _, _ =>
      B <- getitem2 basis (PairwiseConv_degree_in kernel_fn, PairwiseConv_degree_out kernel_fn) ;;
      Ok (Some (utils.narrow1 (conv_unchunked kernel_fn x edge_features B) 0 n))
  end.

Definition list_sum_nat (l : list nat) : nat := fold_right Nat.add 0%nat l.

(** The inputs of the input convolution of [example_model] on two nodes. *)
Definition example_feats : featmap := [(0%nat, [[ [[1]]; [[1]] ]])].

Definition example_edge_info : edge_info :=
  (sel_neighbor_indices example_selection,
   Some (sel_neighbor_mask example_selection),
   sel_edges example_selection).

Definition example_conv_basis : basis_dict :=
  example_basis (sel_neighbor_rel_pos example_selection) 1 false.

(** Whether a computation succeeded. *)
Definition is_ok {A} (r : result A) : bool :=
  match r with
  | Ok _ => true
  | Err _ => false
  end.

(** ** Notions used by the further properties *)

(** The feature map with every tensor scaled by [c]. *)
Definition scale_all (c : R) (x : featmap) : featmap :=
  map (fun p : nat * T2 cmat => (fst p, tscale c (snd p))) x.

(** The result of a computation, mapped when it succeeded. *)
Definition result_map {A B} (f : A -> B) (r : result A) : result B :=
  match r with
  | Ok a => Ok (f a)
  | Err e => Err e
  end.

(** The number of degrees two fibers share. *)
Definition common_degrees (fiber_in fiber_out : fiber) : nat :=
  Nat.min (length fiber_in) (length fiber_out).

(** A fiber of channel counts a tensor can have. *)
Definition nonneg_fiber (fiber_ : fiber) : Prop := Forall (fun d => (0 <= d)%Z) fiber_.


(** [Linear((1, 1), (1,))] and a two-degree input on one node. *)
Definition example_linear : Linear :=
  from_ok (Linear_init example_params [1%Z; 1%Z] [1%Z]).

Definition two_degree_features : featmap :=
  [(0%nat, [[ [[1]] ]]); (1%nat, [[ [[1; 0; 0]] ]])].


(** A property of every node of every tensor of a feature map. *)
Definition all_nodes (P : cmat -> Prop) (x : featmap) : Prop :=
  Forall (fun kv : nat * T2 cmat => Forall (Forall P) (snd kv)) x.

(** A tensor paired with a scale of its own channel count whose nodes have
    a root mean square of at least [eps]. *)
Definition above_eps (eps : R) (p : vec * (nat * T2 cmat)) : Prop :=
  Forall (Forall (fun node : cmat =>
                    length node = length (fst p)
                    /\ eps <= rms_node (length node) node))
         (snd (snd p)).


(** [Gate((2, 1))] and an input of its fiber on one node. *)
Definition example_gate : Gate := from_ok (Gate_init [2%Z; 1%Z]).

Definition gate_features : featmap :=
  [(0%nat, [[ [[1]; [1]] ]]); (1%nat, [[ [[1; 0; 0]] ]])].


(** The degrees a [Conv] returns. *)
Definition conv_output_keys (o : conv_output) : list nat :=
  match o with
  | Pooled outputs => keys outputs
  | PerNeighbor outputs => keys outputs
  end.

Definition is_pooled (o : conv_output) : bool :=
  match o with
  | Pooled _ => true
  | PerNeighbor _ => false
  end.


(** The modules of a model were constructed on the fiber [fiber_]. *)
Definition built_on (fiber_ : fiber) (self : Equiformer) : Prop :=
  (exists ps fiber_in edge_dim_ splits_,
      Conv_init ps fiber_in fiber_ true true edge_dim_ splits_
      = Ok (Equiformer_conv_in self))
  /\ Forall (fun layer : Attention * FeedForward =>
               (exists ps dim_head_ heads_ attend_self_ edge_dim_ splits_,
                   Attention_init ps fiber_ dim_head_ heads_ attend_self_ edge_dim_ splits_
                   = Ok (fst layer))
               /\ (exists ps, FeedForward_init ps fiber_ None 4 = Ok (snd layer)))
            (Equiformer_layers self)
  /\ Norm_init fiber_ default_eps = Ok (Equiformer_norm self)
  /\ match Equiformer_ff_out self with
     | None => True
     | Some (ProjLinear l) =>
         exists ps, Linear_init ps fiber_ (repeat 1%Z (length fiber_)) = Ok l
     | Some (ProjFeedForward f) =>
         exists ps, FeedForward_init ps fiber_ (Some (repeat 1%Z (length fiber_))) 4 = Ok f
     end.


(** The first attention block of [example_model] and its input on two
    nodes, the output of the input convolution. *)
Definition example_attention : Attention :=
  from_ok (Attention_init (sub 0 (sub 0 (sub 4 example_params))) [1%Z; 1%Z]
             (utils.Int 1) (utils.Int 1) true None 4).

Definition example_conv_out : featmap :=
  from_ok (x <- Conv_forward (Equiformer_conv_in example_model) example_feats
                  example_edge_info (sel_neighbor_rel_dist example_selection)
                  example_conv_basis ;;
           pooled_output x).


(** The output of a [Conv] with every tensor scaled by [c]. *)
Definition scale_conv_output (c : R) (o : conv_output) : conv_output :=
  match o with
  | Pooled outputs => Pooled (scale_all c outputs)
  | PerNeighbor outputs =>
      PerNeighbor (map (fun p : nat * T3 cmat => (fst p, tscale c (snd p))) outputs)
  end.


(** The entry of a [b, n, ...] tensor at batch [bi] and node [i]. *)
Definition at2 {A} (t : T2 A) (bi i : nat) : option A :=
  match nth_error t bi with
  | Some rows => nth_error rows i
  | None => None
  end.



(** ** The self position under the neighbor mask *)

(** The entry of a dictionary of [b, n, ...] tensors at a degree, a batch
    and a node. *)
Definition at_node {A} (d : dict (T2 A)) (degree bi i : nat) : option A :=
  match lookup degree d with
  | Some t => at2 t bi i
  | None => None
  end.

(** Head [hd] of the [(h d)] channel axis of one tensor of a node. *)
Definition head_of (h hd : nat) (t : cmat) : cmat :=
  nth hd (pieces (length t / h) h t) [].

(** The output of one head at one node as C9 describes it, written from the
    claim and not from the code: the similarity of the node's own key stands
    first and enters the softmax as computed, whatever the neighbor mask
    holds; the similarities of the neighbors follow, replaced by
    [- finfo_max] where the neighbor mask (left-padded with [True] where it
    is shorter than the neighbor axis) is [False]. *)
Definition spec_self_unmasked_head (scale : R) (nm : list bool) (q s sv : cmat)
    (ks vs : list cmat) : cmat :=
  let sim_self := inner q s * scale in
  let mask := repeat true (length ks - length nm) ++ nm in
  let sim_neighbors :=
    map2 (fun sj (m : bool) => if m then sj else - finfo_max)
         (map (fun kj => inner q kj * scale) ks) mask in
  let attn := softmax (sim_self :: sim_neighbors) in
  tsum (map2 (fun (a : R) (vj : cmat) => tscale a vj) attn (sv :: vs)).

(** The same for all [h] heads of a node, concatenated along the channel
    axis. *)
Definition spec_self_unmasked_node (h : nat) (scale : R) (nm : list bool) (q sk sv : cmat)
    (ks vs : list cmat) : cmat :=
  concat (map (fun hd =>
                 spec_self_unmasked_head scale nm (head_of h hd q) (head_of h hd sk)
                   (head_of h hd sv) (map (head_of h hd) ks) (map (head_of h hd) vs))
              (seq 0 h)).

(** [exp] as float32 arithmetic returns it, where the attention weights
    depend on it: a result below half the smallest subnormal,
    [2 ^ -150 = exp(-103.97...)], is rounded to zero.  Rounding elsewhere
    is left out. *)
Definition exp_f32 (x : R) : R :=
  if Rle_dec x (-104) then 0 else exp x.

(** The largest entry of a row. *)
Definition row_max (sim : vec) : R :=
  fold_right Rmax (hd 0 sim) sim.

(** [sim.softmax(dim = -1)] on float32: the row is shifted by its largest
    entry before [exp], and the exponentials underflow as in [exp_f32]. *)
Definition softmax_f32 (sim : vec) : vec :=
  let m := row_max sim in
  let e := map (fun s => exp_f32 (s - m)) sim in
  let total := rsum e in
  map (fun x => x / total) e.

(** [attention_weights] with the float32 softmax. *)
Definition attention_weights_f32 (scale : R) (neighbor_mask : option (list bool))
    (q : cmat) (k : list cmat) : vec :=
  let sim := map (fun kj => inner q kj * scale) k in
  let sim :=
    match neighbor_mask with
    | Some nm => masked_fill_sim sim (attention_mask sim nm)
    | None => sim
    end in
  softmax_f32 sim.

(** ** The kernel of one edge before and after the view *)

(** [out] of [PairwiseConv.forward] at one edge before the final [view],
    with the axes [(o, d_out, i, d_in)] of [R[..., i] * B[..., i]]. *)
Definition kernel_out (Rm : list (list vec)) (B : basis_elem) : list (list (list vec)) :=
  map (fun R_o =>
         map (fun B_do =>
                map (fun R_oi => map (fun B_dodi => freq_sum R_oi B_dodi) B_do) R_o)
             B)
      Rm.

(** [out.view(..., rows, -1)] at one edge, on the entries in row-major
    order: the length of a row is inferred, and no entries, no rows, or a
    number of entries that [rows] does not divide, raise. *)
Definition view_rows (rows : nat) (flat : vec) : result (list vec) :=
  if Nat.eqb rows 0 || Nat.eqb (length flat) 0 then Err RuntimeError
  else if Nat.eqb (length flat mod rows) 0
       then Ok (pieces (length flat / rows) rows flat)
       else Err RuntimeError.

(** [out = 0; for i in range(R.shape[-1]): out += R[..., i] * B[..., i]]
    at one entry, with the indexing of the source: a basis with fewer
    frequencies than the radial weights raises. *)
Definition freq_loop (r b : vec) : result R :=
  foldM (fun out i =>
           b_i <- of_option (nth_error b i) IndexError ;;
           Ok (out + nth i r 0 * b_i))
        (seq 0 (length r)) 0.

(** * Properties *)

(** ** The result monad *)

Lemma bind_Ok_inv {A B} (c : result A) (k : A -> result B) (b : B) :
  bind c k = Ok b -> exists a, c = Ok a /\ k a = Ok b.
Proof.
  destruct c as [a|e]; simpl; intros H.
  - exists a. split; [reflexivity | exact H].
  - discriminate H.
Qed.

Lemma assert_Ok_inv (b : bool) (a : assertion) (u : unit) :
  assert b a = Ok u -> b = true.
Proof. destruct b; simpl; [reflexivity | discriminate]. Qed.

Lemma of_option_Ok_inv {A} (o : option A) (e : error) (a : A) :
  of_option o e = Ok a -> o = Some a.
Proof. destruct o; simpl; intros H; [injection H as -> | discriminate]; reflexivity. Qed.

(** Peel the binds of a successful computation. *)
Ltac ok_inv H :=
  repeat match type of H with
  | bind _ _ = Ok _ =>
      let a := fresh "a" in
      let Ha := fresh "Ha" in
      apply bind_Ok_inv in H; destruct H as (a & Ha & H)
  end.

(** Peel every successful bind among the hypotheses. *)
Ltac ok_all :=
  repeat match goal with
  | H : bind _ _ = Ok _ |- _ =>
      let a := fresh "a" in
      let Ha := fresh "Ha" in
      apply bind_Ok_inv in H; destruct H as (a & Ha & H)
  | H : Ok ?x = Ok ?y |- _ =>
      first [ is_var y; injection H as <-
            | is_var x; injection H as ->
            | injection H; clear H; intros; subst ]
  end.

Lemma mapM_length {A B} (f : A -> result B) (l : list A) (bs : list B) :
  mapM f l = Ok bs -> length bs = length l.
Proof.
  revert bs. induction l as [|a l IH]; simpl; intros bs H.
  - injection H as <-. reflexivity.
  - ok_inv H. injection H as <-. simpl. f_equal. apply IH. assumption.
Qed.

Lemma mapM_nth_error {A B} (f : A -> result B) (l : list A) (bs : list B) :
  mapM f l = Ok bs ->
  forall i b, nth_error bs i = Some b ->
  exists a, nth_error l i = Some a /\ f a = Ok b.
Proof.
  revert bs. induction l as [|a l IH]; simpl; intros bs H i b Hi.
  - injection H as <-. destruct i; discriminate.
  - ok_inv H. injection H as <-. destruct i as [|i]; simpl in *.
    + injection Hi as <-. exists a. split; [reflexivity | assumption].
    + eapply IH; eassumption.
Qed.

Lemma mapM_ext {A B} (f g : A -> result B) (l : list A) :
  (forall a, In a l -> f a = g a) -> mapM f l = mapM g l.
Proof.
  induction l as [|a l IH]; simpl; intros H; [reflexivity|].
  rewrite (H a) by (left; reflexivity).
  rewrite IH by (intros; apply H; right; assumption). reflexivity.
Qed.

(** ** Fiber functions *)

Lemma existsb_eqb_seq (d n : nat) :
  existsb (Nat.eqb d) (seq 0 n) = Nat.ltb d n.
Proof.
  destruct (Nat.ltb_spec d n) as [H|H].
  - apply existsb_exists. exists d. split.
    + apply in_seq. lia.
    + apply Nat.eqb_refl.
  - destruct (existsb (Nat.eqb d) (seq 0 n)) eqn:E; [|reflexivity].
    apply existsb_exists in E. destruct E as (x & Hx & E).
    apply Nat.eqb_eq in E. subst x. apply in_seq in Hx. lia.
Qed.

Lemma fiber_and_loop (fiber_out : fiber) (l pre : fiber) (acc : list (nat * Z * Z)) :
  foldM (fiber_and_step fiber_out) (zip (seq (length pre) (length l)) l) acc
  = Ok (acc ++ map (fun d => (d, nth d (pre ++ l) 0%Z, nth d fiber_out 0%Z))
                   (seq (length pre) (Nat.min (length l) (length fiber_out - length pre)))).
Proof.
  revert pre acc. induction l as [|a l IH]; intros pre acc.
  - simpl. rewrite app_nil_r. reflexivity.
  - cbn [length seq zip foldM fiber_and_step].
    cbv zeta. rewrite existsb_eqb_seq.
    specialize (IH (pre ++ [a])). rewrite length_app in IH. cbn [length] in IH.
    replace (length pre + 1)%nat with (S (length pre)) in IH by lia.
    destruct (Nat.ltb_spec (length pre) (length fiber_out)) as [Hlt|Hge]; cbn [negb].
    + destruct (nth_error fiber_out (length pre)) as [dim_out|] eqn:E.
      2:{ apply nth_error_None in E. lia. }
      cbn [of_option bind]. rewrite IH.
      replace (Nat.min (S (length l)) (length fiber_out - length pre))
        with (S (Nat.min (length l) (length fiber_out - S (length pre)))) by lia.
      cbn [seq map]. rewrite <- app_assoc. cbn [app].
      rewrite (nth_error_nth _ _ 0%Z E).
      rewrite app_nth2 by lia. rewrite Nat.sub_diag. cbn [nth].
      do 3 f_equal. apply map_ext. intros d.
      rewrite <- app_assoc. reflexivity.
    + cbn [bind]. rewrite IH.
      replace (length fiber_out - S (length pre))%nat with 0%nat by lia.
      replace (length fiber_out - length pre)%nat with 0%nat by lia.
      rewrite !Nat.min_0_r. reflexivity.
Qed.

(** C7. [fiber_and] never raises and returns exactly the triples
    [(degree, fiber_in[degree], fiber_out[degree])] of the degrees present in
    both fibers, in ascending degree order; a degree present in only one
    fiber contributes nothing. *)
Theorem fiber_and_common_degrees (fiber_in fiber_out : fiber) :
  fiber_and fiber_in fiber_out
  = Ok (map (fun d => (d, nth d fiber_in 0%Z, nth d fiber_out 0%Z))
            (seq 0 (Nat.min (length fiber_in) (length fiber_out)))).
Proof.
  unfold fiber_and, enumerate.
  pose proof (fiber_and_loop fiber_out fiber_in [] []) as H.
  cbn [length app] in H. rewrite Nat.sub_0_r in H. exact H.
Qed.

(** ** Gate *)

(** C4. Constructing a [Gate] on a fiber with
    [fiber[0] <= sum(fiber[1:])] raises the assertion error at construction,
    so no gate exists on which a forward pass could run; on a fiber with
    [fiber[0] > sum(fiber[1:])] construction succeeds. *)
Theorem Gate_init_precondition (type0_dim : Z) (rest : fiber) :
  ((type0_dim <= zsum rest)%Z ->
     Gate_init (type0_dim :: rest) = Err (AssertionError GateChannels))
  /\ ((type0_dim > zsum rest)%Z ->
        Gate_init (type0_dim :: rest)
        = Ok {| Gate_fiber := type0_dim :: rest;
                Gate_num_degrees := S (length rest);
                Gate_type0_dim_split := rest ++ [(type0_dim - zsum rest)%Z] |}).
Proof.
  unfold Gate_init. split; intros H.
  - destruct (Z.ltb_spec (zsum rest) type0_dim) as [Hlt|Hge]; [lia | reflexivity].
  - destruct (Z.ltb_spec (zsum rest) type0_dim) as [Hlt|Hge]; [reflexivity | lia].
Qed.

(** A witness of the gate precondition on both sides. *)
Lemma Gate_init_precondition_witness :
  Gate_init [1%Z; 1%Z] = Err (AssertionError GateChannels)
  /\ Gate_init [3%Z; 1%Z; 1%Z]
     = Ok {| Gate_fiber := [3%Z; 1%Z; 1%Z];
             Gate_num_degrees := 3;
             Gate_type0_dim_split := [1%Z; 1%Z; 1%Z] |}.
Proof.
  split.
  - apply (proj1 (Gate_init_precondition 1 [1%Z])). simpl. lia.
  - apply (proj2 (Gate_init_precondition 3 [1%Z; 1%Z])). simpl. lia.
Defined.

(** ** Neighbor selection *)

Section ForwardProperties.

Variable get_basis : T3 vec -> Z -> bool -> basis_dict.

Lemma select_neighbors_assertion (self : Equiformer) (n : nat) (pw : pairwise) :
  (clamp_neighbors (Equiformer_num_neighbors self) n <= 0)%Z ->
  select_neighbors self n pw = Err (AssertionError TotalNeighbors).
Proof.
  intros H. unfold select_neighbors.
  destruct (Z.ltb_spec 0 (clamp_neighbors (Equiformer_num_neighbors self) n)) as [Hlt|Hge].
  - lia.
  - reflexivity.
Qed.

(** C6. A forward call whose total number of neighbors (the configured
    count clamped to [n - 1]) is zero computes no result: the assertion
    'you must be fetching at least 1 neighbor' fails before the top-k
    selection, unless building the pairwise tensors has failed even
    earlier. *)
Theorem zero_total_neighbors_fails (self : Equiformer) (args : forward_args)
    (ck : checked) :
  check_inputs self args = Ok ck ->
  clamp_neighbors (Equiformer_num_neighbors self) (checked_n ck) = 0%Z ->
  (forall pw, select_neighbors self (checked_n ck) pw = Err (AssertionError TotalNeighbors))
  /\ Equiformer_forward get_basis self args
     = (_ <- build_pairwise self args (checked_b ck) (checked_n ck) ;;
        Err (AssertionError TotalNeighbors))
  /\ exists e, Equiformer_forward get_basis self args = Err e.
Proof.
  intros Hck Hzero.
  assert (Hsel : forall pw, select_neighbors self (checked_n ck) pw
                            = Err (AssertionError TotalNeighbors)).
  { intros pw. apply select_neighbors_assertion. lia. }
  assert (Hfw : Equiformer_forward get_basis self args
                = (_ <- build_pairwise self args (checked_b ck) (checked_n ck) ;;
                   Err (AssertionError TotalNeighbors))).
  { unfold Equiformer_forward. rewrite Hck. cbn [bind].
    destruct (build_pairwise self args (checked_b ck) (checked_n ck)) as [pw|e];
      cbn [bind]; [rewrite Hsel|]; reflexivity. }
  split; [exact Hsel | split; [exact Hfw|]].
  rewrite Hfw.
  destruct (build_pairwise self args (checked_b ck) (checked_n ck)) as [pw|e];
    cbn [bind]; eexists; reflexivity.
Qed.

(** C2, as the code has it. With a configured neighbor count of exactly 0
    the valid radius is forced to 0, the clamped count is not positive for
    any number of nodes, and the call aborts: neighbor selection raises the
    assertion error before the top-k, so no neighbor mask is produced. *)
Theorem zero_neighbors_aborts (self : Equiformer) (args : forward_args) :
  Equiformer_num_neighbors self = Finite 0 ->
  effective_valid_radius self = 0
  /\ (forall n pw, select_neighbors self n pw = Err (AssertionError TotalNeighbors))
  /\ exists e, Equiformer_forward get_basis self args = Err e.
Proof.
  intros H0.
  assert (Hsel : forall n pw, select_neighbors self n pw
                              = Err (AssertionError TotalNeighbors)).
  { intros n pw. apply select_neighbors_assertion. rewrite H0. simpl. lia. }
  split; [|split; [exact Hsel|]].
  - unfold effective_valid_radius. rewrite H0. reflexivity.
  - unfold Equiformer_forward.
    destruct (check_inputs self args) as [ck|e]; cbn [bind]; [|eexists; reflexivity].
    destruct (build_pairwise self args (checked_b ck) (checked_n ck)) as [pw|e];
      cbn [bind]; [|eexists; reflexivity].
    rewrite Hsel. eexists; reflexivity.
Qed.

(** C8. The arguments [adj_mat] and [return_type] are accepted and never
    read: two calls on the same model that differ at most in them give the
    same result. *)
Theorem adj_mat_return_type_unread (self : Equiformer) (args1 args2 : forward_args) :
  same_but_adj_mat_return_type args1 args2 ->
  Equiformer_forward get_basis self args1 = Equiformer_forward get_basis self args2.
Proof.
  intros (Hfeats & Hcoors & Hmask & Hedges & Hpooled & Hnm).
  destruct args1 as [feats1 coors1 mask1 adj1 edges1 rt1 pooled1 nm1].
  destruct args2 as [feats2 coors2 mask2 adj2 edges2 rt2 pooled2 nm2].
  cbn [arg_feats arg_coors arg_mask arg_edges arg_return_pooled arg_neighbor_mask] in *.
  subst feats2 coors2 mask2 edges2 pooled2 nm2.
  reflexivity.
Qed.

End ForwardProperties.

(** C2, as stated, fails: the model built with [num_neighbors = 0] aborts on
    two nodes with the assertion error instead of completing. *)
Lemma zero_neighbors_does_not_complete :
  Equiformer_init example_params (example_config 2 (Finite 0)) = Ok zero_neighbors_model
  /\ Equiformer_num_neighbors zero_neighbors_model = Finite 0
  /\ Equiformer_forward example_basis zero_neighbors_model (example_args 2)
     = Err (AssertionError TotalNeighbors).
Proof.
  split; [reflexivity|]. split; reflexivity.
Qed.

(** A witness of the abort on the model built with [num_neighbors = 0]. *)
Lemma zero_neighbors_aborts_witness :
  effective_valid_radius zero_neighbors_model = 0
  /\ (forall n pw, select_neighbors zero_neighbors_model n pw
                   = Err (AssertionError TotalNeighbors))
  /\ exists e, Equiformer_forward example_basis zero_neighbors_model (example_args 2) = Err e.
Proof.
  apply (@zero_neighbors_aborts example_basis zero_neighbors_model (example_args 2)).
  reflexivity.
Defined.

(** A witness with an adjacency matrix and a return type against none. *)
Lemma adj_mat_return_type_unread_witness :
  Equiformer_forward example_basis example_model (example_args 2)
  = Equiformer_forward example_basis example_model
      (with_adj_mat_return_type (example_args 2)
         (Some [[[false; true]; [true; false]]]) (Some 1%Z)).
Proof.
  apply (@adj_mat_return_type_unread example_basis example_model (example_args 2)
           (with_adj_mat_return_type (example_args 2)
              (Some [[[false; true]; [true; false]]]) (Some 1%Z))).
  repeat split.
Defined.

(** A witness of the failure on a single node, where [n - 1 = 0]. *)
Lemma zero_total_neighbors_fails_witness :
  exists e, Equiformer_forward example_basis example_model (example_args 1) = Err e.
Proof.
  pose proof (@zero_total_neighbors_fails example_basis example_model (example_args 1)
                _ eq_refl eq_refl) as H.
  exact (proj2 (proj2 H)).
Defined.

(** ** Lists *)

Lemma zip_nth_error {A B} (xs : list A) (ys : list B) (i : nat) (p : A * B) :
  nth_error (zip xs ys) i = Some p ->
  nth_error xs i = Some (fst p) /\ nth_error ys i = Some (snd p).
Proof.
  revert ys i. induction xs as [|x xs IH]; intros [|y ys] i H;
    try (destruct i; discriminate H).
  destruct i as [|i]; simpl in *.
  - injection H as <-. split; reflexivity.
  - apply IH. exact H.
Qed.

Lemma select_map {A} (f : A -> bool) (l : list A) :
  select l (map f l) = filter f l.
Proof.
  unfold select. induction l as [|a l IH]; simpl; [reflexivity|].
  destruct (f a); simpl; rewrite IH; reflexivity.
Qed.

Lemma filter_true_id {A} (f : A -> bool) (l : list A) :
  (forall x, In x l -> f x = true) -> filter f l = l.
Proof.
  induction l as [|a l IH]; simpl; intros H; [reflexivity|].
  rewrite (H a) by (left; reflexivity).
  rewrite IH by (intros; apply H; right; assumption). reflexivity.
Qed.

Lemma filter_others (n i : nat) :
  (i < n)%nat ->
  filter (fun j => negb (Nat.eqb i j)) (seq 0 n) = others n i.
Proof.
  intros Hi. unfold others.
  replace n with (i + S (n - S i))%nat at 1 by lia.
  rewrite seq_app. cbn [seq Nat.add]. rewrite filter_app. cbn [filter].
  rewrite Nat.eqb_refl. cbn [negb]. f_equal.
  - apply filter_true_id. intros x Hx. apply in_seq in Hx.
    destruct (Nat.eqb_spec i x); [lia | reflexivity].
  - apply filter_true_id. intros x Hx. apply in_seq in Hx.
    destruct (Nat.eqb_spec i x); [lia | reflexivity].
Qed.

Lemma others_length (n i : nat) : (i < n)%nat -> length (others n i) = (n - 1)%nat.
Proof.
  intros Hi. unfold others. rewrite length_app, !length_seq. lia.
Qed.

Lemma others_not_in (n i : nat) : ~ In i (others n i).
Proof.
  unfold others. intros H. apply in_app_or in H.
  destruct H as [H|H]; apply in_seq in H; lia.
Qed.

Lemma map2_repeat_map {A B C D} (f : A -> B -> C) (x : A) (g : D -> B) (l : list D) :
  map2 f (repeat x (length l)) (map g l) = map (fun a => f x (g a)) l.
Proof.
  unfold map2. induction l as [|a l IH]; simpl; [reflexivity|].
  rewrite IH. reflexivity.
Qed.

Lemma concat_uniform_length {A} (k : nat) (ls : list (list A)) :
  Forall (fun l => length l = k) ls -> length (concat ls) = (length ls * k)%nat.
Proof.
  induction 1 as [|l ls Hl _ IH]; simpl; [reflexivity|].
  rewrite length_app, IH, Hl. reflexivity.
Qed.

Lemma pieces_concat {A} (k : nat) (ls : list (list A)) :
  Forall (fun l => length l = k) ls -> pieces k (length ls) (concat ls) = ls.
Proof.
  induction 1 as [|l ls Hl _ IH]; simpl; [reflexivity|].
  rewrite firstn_app, skipn_app, Hl, Nat.sub_diag. cbn [firstn skipn].
  rewrite firstn_all2 by lia. rewrite skipn_all2 by lia.
  rewrite app_nil_r. cbn [app]. rewrite IH. reflexivity.
Qed.

(** The index tensor without its diagonal: row [i] of every batch element
    holds the other [n - 1] indices. *)
Lemma remove_self_indices (b n : nat) :
  (0 < n)%nat ->
  remove_self b n (repeat (repeat (seq 0 n) n) b)
  = Ok (repeat (map (others n) (seq 0 n)) b).
Proof.
  intros Hn. unfold remove_self.
  destruct (Nat.eqb_spec n 0) as [E|_]; [lia|].
  assert (Hrows : map2 select (repeat (seq 0 n) n) (exclude_self_mask n)
                  = map (others n) (seq 0 n)).
  { unfold exclude_self_mask.
    pose proof (map2_repeat_map (@select nat) (seq 0 n)
                  (fun i => map (fun j => negb (Nat.eqb i j)) (seq 0 n)) (seq 0 n)) as H.
    rewrite length_seq in H. rewrite H.
    apply map_ext_in. intros i Hi. apply in_seq in Hi.
    rewrite select_map. apply filter_others. lia. }
  assert (Huni : Forall (fun l => length l = (n - 1)%nat) (map (others n) (seq 0 n))).
  { apply Forall_forall. intros l Hl. apply in_map_iff in Hl.
    destruct Hl as (i & <- & Hi). apply in_seq in Hi. apply others_length. lia. }
  assert (Hlen : length (concat (map (others n) (seq 0 n))) = (n * (n - 1))%nat).
  { rewrite (concat_uniform_length Huni), length_map, length_seq. reflexivity. }
  unfold masked_select. rewrite map_repeat, Hrows.
  assert (Huni2 : Forall (fun l => length l = (n * (n - 1))%nat)
                         (repeat (concat (map (others n) (seq 0 n))) b)).
  { apply Forall_forall. intros l Hl. apply repeat_spec in Hl. subst l. exact Hlen. }
  unfold reshape3.
  rewrite (concat_uniform_length Huni2), repeat_length.
  replace (b * n * (n - 1))%nat with (b * (n * (n - 1)))%nat by lia.
  rewrite Nat.eqb_refl.
  pose proof (pieces_concat Huni2) as Hp. rewrite repeat_length in Hp. rewrite Hp.
  rewrite map_repeat.
  pose proof (pieces_concat Huni) as Hq. rewrite length_map, length_seq in Hq.
  rewrite Hq. reflexivity.
Qed.

Lemma build_pairwise_indices (self : Equiformer) (args : forward_args) (b n : nat)
    (pw : pairwise) :
  build_pairwise self args b n = Ok pw ->
  (0 < n)%nat /\ pw_indices pw = repeat (map (others n) (seq 0 n)) b.
Proof.
  unfold build_pairwise. intros H.
  apply bind_Ok_inv in H. destruct H as (indices & Hind & H).
  assert (Hn : (0 < n)%nat).
  { unfold remove_self in Hind. destruct (Nat.eqb_spec n 0); [discriminate | lia]. }
  rewrite (remove_self_indices b Hn) in Hind. injection Hind as <-.
  ok_inv H. injection H as <-. split; [exact Hn | reflexivity].
Qed.

(** Every gathered entry comes from the row it was gathered from. *)
Lemma batched_index_select2_in {A} (values : T3 A) (indices : T3 nat) (out : T3 A) :
  utils.batched_index_select2 values indices = Ok out ->
  forall bi rows i row,
    nth_error out bi = Some rows -> nth_error rows i = Some row ->
    exists vrows vrow,
      nth_error values bi = Some vrows /\ nth_error vrows i = Some vrow
      /\ forall x, In x row -> In x vrow.
Proof.
  unfold utils.batched_index_select2. intros H bi rows i row Hb Hi.
  destruct (mapM_nth_error _ _ H _ Hb) as (p & Hp & Hrows).
  apply zip_nth_error in Hp. destruct Hp as (Hv & _).
  destruct (mapM_nth_error _ _ Hrows _ Hi) as (q & Hq & Hrow).
  apply zip_nth_error in Hq. destruct Hq as (Hvr & _).
  exists (fst p), (fst q). split; [exact Hv | split; [exact Hvr|]].
  intros x Hx. apply In_nth_error in Hx. destruct Hx as (j & Hj).
  destruct (mapM_nth_error _ _ Hrow _ Hj) as (idx & _ & Hget).
  apply of_option_Ok_inv in Hget. eapply nth_error_In. exact Hget.
Qed.

(** C3. After the diagonal is removed every node has exactly [n - 1]
    candidate neighbors, none of them itself, and the index of a node never
    appears among its selected [neighbor_indices]. *)
Theorem self_excluded_from_neighbors (self : Equiformer) (args : forward_args)
    (b n : nat) (pw : pairwise) (sel : selection) :
  build_pairwise self args b n = Ok pw ->
  select_neighbors self n pw = Ok sel ->
  (forall bi rows i cand,
      nth_error (pw_indices pw) bi = Some rows -> nth_error rows i = Some cand ->
      length cand = (n - 1)%nat /\ ~ In i cand)
  /\ (forall bi rows i row,
        nth_error (sel_neighbor_indices sel) bi = Some rows ->
        nth_error rows i = Some row ->
        ~ In i row).
Proof.
  intros Hpw Hsel.
  destruct (build_pairwise_indices _ _ _ _ Hpw) as (Hn & Hidx).
  assert (Hcand : forall bi rows i cand,
             nth_error (pw_indices pw) bi = Some rows -> nth_error rows i = Some cand ->
             cand = others n i /\ (i < n)%nat).
  { intros bi rows i cand Hb Hi. rewrite Hidx in Hb.
    apply nth_error_In, repeat_spec in Hb. subst rows.
    rewrite nth_error_map in Hi.
    destruct (nth_error (seq 0 n) i) as [j|] eqn:Ej; [|discriminate].
    assert (Hlt : (i < n)%nat).
    { pose proof (proj1 (nth_error_Some (seq 0 n) i)) as Hs.
      rewrite length_seq in Hs. apply Hs. rewrite Ej. discriminate. }
    apply (nth_error_nth _ _ 0%nat) in Ej. rewrite seq_nth in Ej by exact Hlt.
    simpl in Ej. subst j. simpl in Hi. injection Hi as <-. split; [reflexivity | exact Hlt]. }
  split.
  - intros bi rows i cand Hb Hi.
    destruct (Hcand _ _ _ _ Hb Hi) as (-> & Hlt).
    split; [apply others_length; exact Hlt | apply others_not_in].
  - intros bi rows i row Hb Hi Hin.
    unfold select_neighbors in Hsel. ok_inv Hsel.
    injection Hsel as <-. cbn [sel_neighbor_indices] in Hb.
    match goal with
    | Hg : utils.batched_index_select2 (pw_indices pw) _ = Ok _ |- _ =>
        destruct (batched_index_select2_in _ _ Hg _ _ Hb Hi) as (vrows & vrow & Hv & Hvr & Hsub)
    end.
    destruct (Hcand _ _ _ _ Hv Hvr) as (-> & _).
    apply (@others_not_in n i). apply Hsub. exact Hin.
Qed.

(** A witness on two nodes: each node is offered, and selects, the other
    one only. *)
Lemma self_excluded_from_neighbors_witness :
  ~ In 0%nat (nth 0 (nth 0 (sel_neighbor_indices example_selection) []) [])
  /\ ~ In 1%nat (nth 1 (nth 0 (sel_neighbor_indices example_selection) []) []).
Proof.
  pose proof (proj2 (@self_excluded_from_neighbors example_model (example_args 2) 1 2
                       example_pairwise example_selection eq_refl eq_refl)) as H.
  split.
  - exact (H 0%nat _ 0%nat _ eq_refl eq_refl).
  - exact (H 0%nat _ 1%nat _ eq_refl eq_refl).
Defined.

(** ** The degrees of the final feature map *)

Lemma mapM_Forall {A B} (f : A -> result B) (l : list A) (bs : list B) :
  mapM f l = Ok bs -> Forall (fun b => exists a, In a l /\ f a = Ok b) bs.
Proof.
  revert bs. induction l as [|a l IH]; simpl; intros bs H.
  - injection H as <-. constructor.
  - ok_inv H. injection H as <-. constructor.
    + exists a. split; [left; reflexivity | assumption].
    + eapply Forall_impl; [|apply IH; eassumption].
      intros b (a' & Hin & Hf). exists a'. split; [right; exact Hin | exact Hf].
Qed.

Lemma fiber_and_single (fiber_in fiber_out : fiber) :
  Nat.min (length fiber_in) (length fiber_out) = 1%nat ->
  exists dim_in dim_out, fiber_and fiber_in fiber_out = Ok [(0%nat, dim_in, dim_out)].
Proof.
  intros Hmin. unfold fiber_and, enumerate.
  pose proof (fiber_and_loop fiber_out fiber_in [] []) as H.
  cbn [length app] in H. rewrite Nat.sub_0_r, Hmin in H.
  rewrite H. cbn [seq map]. eexists; eexists; reflexivity.
Qed.

Lemma Linear_init_degree0_only (ps : init_params) (fiber_in fiber_out : fiber) (l : Linear) :
  Nat.min (length fiber_in) (length fiber_out) = 1%nat ->
  Linear_init ps fiber_in fiber_out = Ok l -> degree0_only l.
Proof.
  intros Hmin H. unfold Linear_init in H.
  destruct (fiber_and_single _ _ Hmin) as (dim_in & dim_out & Hfa).
  rewrite Hfa in H. cbn [bind foldM] in H. ok_all.
  split; [reflexivity | eexists; reflexivity].
Qed.

Lemma Linear_forward_single0 (l : Linear) (x out : featmap) :
  degree0_only l -> Linear_forward l x = Ok out -> single0 out.
Proof.
  intros (Hd & w & Hw) H. unfold Linear_forward in H. rewrite Hd, Hw in H.
  cbn [zip foldM] in H. ok_all.
  eexists; reflexivity.
Qed.

Lemma residual_fn_single0 (x residual : featmap) :
  single0 x -> single0 (residual_fn x residual).
Proof.
  intros (v & ->). unfold residual_fn. cbn [fold_left setitem].
  destruct (lookup 0 residual); cbn [setitem Nat.eqb]; eexists; reflexivity.
Qed.

Lemma Norm_forward_single0 (self : Norm) (x out : featmap) :
  length (Norm_transforms self) = 1%nat -> single0 x ->
  Norm_forward self x = Ok out -> single0 out.
Proof.
  intros Hlen (v & ->) H. unfold Norm_forward in H.
  destruct (Norm_transforms self) as [|s [|s' ss]]; try discriminate Hlen.
  cbn [zip foldM] in H. unfold Norm_step in H. ok_all.
  eexists; reflexivity.
Qed.

Lemma mapM_values_single0 {A B} (f : A -> result B) (x : dict A) (out : dict B) :
  single0 x -> mapM_values f x = Ok out -> single0 out.
Proof.
  intros (v & ->) H. unfold mapM_values in H. cbn [foldM fst snd] in H.
  ok_all. eexists; reflexivity.
Qed.

Lemma Norm_init_length (fiber_ : fiber) (eps : R) (norm : Norm) :
  Norm_init fiber_ eps = Ok norm -> length (Norm_transforms norm) = length fiber_.
Proof.
  unfold Norm_init. intros H. ok_inv H. injection H as <-.
  cbn [Norm_transforms]. eapply mapM_length. eassumption.
Qed.

Lemma FeedForward_init_project_out (ps : init_params) (fiber_ : fiber)
    (fiber_out : option fiber) (mult : Z) (ff : FeedForward) :
  Nat.min (length fiber_) (length (utils.default fiber_out fiber_)) = 1%nat ->
  FeedForward_init ps fiber_ fiber_out mult = Ok ff ->
  degree0_only (FeedForward_project_out ff).
Proof.
  intros Hmin H. unfold FeedForward_init in H. ok_inv H. injection H as <-.
  cbn [FeedForward_project_out].
  eapply Linear_init_degree0_only; [|eassumption].
  rewrite length_map. exact Hmin.
Qed.

Lemma FeedForward_forward_single0 (ff : FeedForward) (x out : featmap) :
  degree0_only (FeedForward_project_out ff) ->
  FeedForward_forward ff x = Ok out -> single0 out.
Proof.
  intros Hd H. unfold FeedForward_forward in H. ok_inv H.
  eapply Linear_forward_single0; eassumption.
Qed.

(** With a single output degree, a pooling [Conv] yields degree 0 only. *)
Lemma Conv_forward_single0 (self : Conv) (inp : featmap) (ei : edge_info)
    (rel_dist : T3 R) (basis : basis_dict) (o : conv_output) (x : featmap) :
  Conv_pool self = true -> length (Conv_fiber_out self) = 1%nat ->
  Conv_forward self inp ei rel_dist basis = Ok o ->
  pooled_output o = Ok x -> single0 x.
Proof.
  intros Hpool Hlen H Hx. unfold Conv_forward in H.
  destruct ei as [[neighbor_indices neighbor_masks] edges].
  rewrite Hpool in H.
  destruct (Conv_fiber_out self) as [|d [|d' ds]]; try discriminate Hlen.
  cbn [enumerate length seq zip foldM] in H. unfold Conv_pool_step in H.
  destruct (Conv_self_interaction self); ok_all;
    cbn [pooled_output] in Hx; ok_all.
  - apply residual_fn_single0. eexists; reflexivity.
  - eexists; reflexivity.
Qed.

Lemma Conv_init_fields (ps : init_params) (fiber_in fiber_out : fiber)
    (self_interaction pool : bool) (edge_dim_ : option Z) (splits_ : nat) (self : Conv) :
  Conv_init ps fiber_in fiber_out self_interaction pool edge_dim_ splits_ = Ok self ->
  Conv_pool self = pool /\ Conv_fiber_out self = fiber_out.
Proof.
  unfold Conv_init. intros H. ok_inv H. injection H as <-. split; reflexivity.
Qed.

Lemma Equiformer_init_num_degrees (ps : init_params) (c : config) (self : Equiformer) :
  Equiformer_init ps c = Ok self ->
  length (utils.cast_tuple (dim c) (num_degrees c)) = num_degrees c
  /\ (1 <= num_degrees c)%nat.
Proof.
  unfold Equiformer_init. intros H.
  apply bind_Ok_inv in H. destruct H as (u & Hlen & H).
  apply assert_Ok_inv, Nat.eqb_eq in Hlen.
  apply bind_Ok_inv in H. destruct H as (dim0 & Hdim0 & _).
  apply of_option_Ok_inv in Hdim0.
  split; [exact Hlen|].
  rewrite <- Hlen.
  pose proof (proj1 (nth_error_Some (utils.cast_tuple (dim c) (num_degrees c)) 0)) as Hs.
  apply Hs. rewrite Hdim0. discriminate.
Qed.

Lemma Equiformer_init_one_degree (ps : init_params) (c : config) (self : Equiformer) :
  Equiformer_init ps c = Ok self -> num_degrees c = 1%nat -> one_degree_modules self.
Proof.
  intros H H1.
  destruct (Equiformer_init_num_degrees _ _ H) as (Hlen & _). rewrite H1 in Hlen.
  unfold Equiformer_init in H. rewrite H1 in H.
  set (self_dim := utils.cast_tuple (dim c) 1) in *.
  do 8 (apply bind_Ok_inv in H; destruct H as (? & _ & H)).
  apply bind_Ok_inv in H. destruct H as (conv_in & Hconv & H).
  apply bind_Ok_inv in H. destruct H as (layers & Hlayers & H).
  apply bind_Ok_inv in H. destruct H as (norm & Hnorm & H).
  apply bind_Ok_inv in H. destruct H as (ff_out & Hff & H).
  injection H as <-. unfold one_degree_modules.
  cbn [Equiformer_conv_in Equiformer_layers Equiformer_norm Equiformer_ff_out].
  apply Conv_init_fields in Hconv. destruct Hconv as (Hpool & Hout).
  split; [exact Hpool|]. split; [rewrite Hout; exact Hlen|].
  split; [|split].
  - apply mapM_Forall in Hlayers.
    eapply Forall_impl; [|exact Hlayers].
    intros [attn ff] (ind & _ & Hl). ok_all. cbn [snd].
    eapply FeedForward_init_project_out; [|eassumption].
    cbn [utils.default]. rewrite Hlen. reflexivity.
  - rewrite (Norm_init_length _ _ Hnorm). exact Hlen.
  - intros p ->.
    destruct (reduce_dim_out c); [|discriminate Hff].
    destruct (linear_out c); ok_all; cbn [proj_out_last].
    + eapply Linear_init_degree0_only; [|eassumption].
      rewrite Hlen. reflexivity.
    + eapply FeedForward_init_project_out; [|eassumption].
      cbn [utils.default]. rewrite Hlen. reflexivity.
Qed.

Section ReturnStage.

Variable get_basis : T3 vec -> Z -> bool -> basis_dict.

Lemma layers_single0 (layers : list (Attention * FeedForward)) (ei : edge_info)
    (rel_dist : T3 R) (basis : basis_dict) (mask_ : option (T2 bool)) (x x' : featmap) :
  Forall (fun layer : Attention * FeedForward =>
            degree0_only (FeedForward_project_out (snd layer))) layers ->
  single0 x ->
  foldM (fun x (layer : Attention * FeedForward) =>
           let (attn, ff) := layer in
           a <- Attention_forward attn x ei rel_dist basis mask_ ;;
           let x := residual_fn a x in
           f <- FeedForward_forward ff x ;;
           Ok (residual_fn f x))
        layers x = Ok x' ->
  single0 x'.
Proof.
  intros Hall. revert x. induction Hall as [|[attn ff] layers Hff _ IH]; intros x Hx H.
  - cbn [foldM] in H. injection H as <-. exact Hx.
  - cbn [foldM] in H. apply bind_Ok_inv in H. destruct H as (x1 & Hstep & H).
    apply (IH x1); [|exact H].
    ok_all. apply residual_fn_single0.
    eapply FeedForward_forward_single0; [exact Hff | eassumption].
Qed.

(** With a single configured degree the final feature map holds degree 0
    only. *)
Lemma trunk_single0 (self : Equiformer) (args : forward_args) (feats : featmap)
    (sel : selection) (x : dict tensor) :
  one_degree_modules self ->
  trunk get_basis self args feats sel = Ok x -> single0 x.
Proof.
  intros (Hpool & Hout & Hlayers & Hnorm & Hff) H. unfold trunk in H.
  apply bind_Ok_inv in H. destruct H as (o & Hconv & H).
  apply bind_Ok_inv in H. destruct H as (x1 & Hx1 & H).
  apply bind_Ok_inv in H. destruct H as (x2 & Hx2 & H).
  apply bind_Ok_inv in H. destruct H as (x3 & Hx3 & H).
  apply bind_Ok_inv in H. destruct H as (x4 & Hx4 & H).
  pose proof (Conv_forward_single0 _ _ _ _ _ Hpool Hout Hconv Hx1) as S1.
  pose proof (layers_single0 _ _ _ _ Hlayers S1 Hx2) as S2.
  pose proof (Norm_forward_single0 _ Hnorm S2 Hx3) as S3.
  assert (S4 : single0 x4).
  { destruct (Equiformer_ff_out self) as [p|] eqn:Ep.
    - apply bind_Ok_inv in Hx4. destruct Hx4 as (x3' & Hp & Hx4).
      eapply mapM_values_single0; [|exact Hx4].
      specialize (Hff p eq_refl). destruct p as [l|f]; cbn [proj_out_forward proj_out_last] in *.
      + eapply Linear_forward_single0; eassumption.
      + eapply FeedForward_forward_single0; eassumption.
    - eapply mapM_values_single0; [exact S3 | exact Hx4]. }
  destruct (arg_return_pooled args).
  - eapply mapM_values_single0; [exact S4 | exact H].
  - injection H as <-. exact S4.
Qed.

Lemma return_stage_single0 (x : dict tensor) :
  single0 x -> return_stage x = Err (KeyError 1).
Proof. intros (v & ->). reflexivity. Qed.

(** C10. [Equiformer.forward] reads both [x[0]] and [x[1]] from the final
    feature map.  A model constructed with [num_degrees = 1] ends with
    degree 0 only, so every call that reaches the return stage fails there
    with [KeyError 1] and no call returns; a call can return only when
    [num_degrees >= 2]. *)
Theorem return_needs_two_degrees (ps : init_params) (c : config) (self : Equiformer) :
  Equiformer_init ps c = Ok self ->
  (num_degrees c = 1%nat ->
     forall args,
       (forall feats sel x,
           trunk get_basis self args feats sel = Ok x ->
           return_stage x = Err (KeyError 1))
       /\ (forall r, Equiformer_forward get_basis self args <> Ok r))
  /\ (forall args r,
        Equiformer_forward get_basis self args = Ok r -> (2 <= num_degrees c)%nat).
Proof.
  intros Hinit.
  assert (Hone : num_degrees c = 1%nat -> forall args,
             (forall feats sel x,
                 trunk get_basis self args feats sel = Ok x ->
                 return_stage x = Err (KeyError 1))
             /\ (forall r, Equiformer_forward get_basis self args <> Ok r)).
  { intros H1 args.
    pose proof (Equiformer_init_one_degree _ _ Hinit H1) as Hmod.
    assert (Hret : forall feats sel x,
               trunk get_basis self args feats sel = Ok x ->
               return_stage x = Err (KeyError 1)).
    { intros feats sel x Hx. apply return_stage_single0.
      eapply trunk_single0; eassumption. }
    split; [exact Hret|].
    intros r H. unfold Equiformer_forward in H.
    apply bind_Ok_inv in H. destruct H as (ck & _ & H).
    apply bind_Ok_inv in H. destruct H as (pw & _ & H).
    apply bind_Ok_inv in H. destruct H as (sel & _ & H).
    apply bind_Ok_inv in H. destruct H as (x & Hx & H).
    rewrite (Hret _ _ _ Hx) in H. discriminate H. }
  split; [exact Hone|].
  intros args r H.
  destruct (Equiformer_init_num_degrees _ _ Hinit) as (_ & Hge).
  destruct (Nat.eq_dec (num_degrees c) 1) as [E|E]; [|lia].
  exfalso. exact (proj2 (Hone E args) r H).
Qed.

End ReturnStage.

(** A witness on the model built with [num_degrees = 1]: a call on two
    nodes ends in an error. *)
Lemma return_needs_two_degrees_witness :
  exists e, Equiformer_forward example_basis one_degree_model (example_args 2) = Err e.
Proof.
  pose proof (proj2 (proj1 (@return_needs_two_degrees example_basis example_params
                              (example_config 1 Infinite) one_degree_model eq_refl)
                           eq_refl (example_args 2))) as H.
  destruct (Equiformer_forward example_basis one_degree_model (example_args 2)) as [r|e].
  - exfalso. exact (H r eq_refl).
  - exists e. reflexivity.
Defined.

(** ** Norm *)

Lemma rsum_squares_scale (c : R) (v : vec) :
  rsum (map (fun x => x * x) (map (Rmult c) v)) = c * c * rsum (map (fun x => x * x) v).
Proof.
  induction v as [|x v IH]; simpl.
  - ring.
  - unfold rsum in *. simpl. rewrite IH. ring.
Qed.

Lemma rsum_squares_nonneg (v : vec) : 0 <= rsum (map (fun x => x * x) v).
Proof.
  induction v as [|x v IH]; simpl.
  - unfold rsum. simpl. lra.
  - unfold rsum in *. simpl. pose proof (Rle_0_sqr x) as Hx. unfold Rsqr in Hx. lra.
Qed.

Lemma l2norm_scale (c : R) (v : vec) :
  0 <= c -> l2norm (map (Rmult c) v) = c * l2norm v.
Proof.
  intros Hc. unfold l2norm. rewrite rsum_squares_scale.
  rewrite sqrt_mult.
  - rewrite sqrt_square by exact Hc. reflexivity.
  - apply Rmult_le_pos; exact Hc.
  - apply rsum_squares_nonneg.
Qed.

Lemma rms_node_scale (c : R) (dim_ : nat) (t : cmat) :
  0 <= c -> rms_node dim_ (map (map (Rmult c)) t) = c * rms_node dim_ t.
Proof.
  intros Hc. unfold rms_node.
  rewrite map_map.
  rewrite (map_ext (fun v => l2norm (map (Rmult c) v)) (fun v => c * l2norm v))
    by (intros v; apply l2norm_scale; exact Hc).
  rewrite <- (map_map l2norm (Rmult c)).
  rewrite l2norm_scale by exact Hc. ring.
Qed.

Lemma broadcast2_map_l {A A' B C} (f : A' -> B -> result C) (h : A -> A')
    (xs : list A) (ys : list B) :
  broadcast2 f (map h xs) ys = broadcast2 (fun a b => f (h a) b) xs ys.
Proof.
  unfold broadcast2. rewrite length_map.
  assert (Hzip : forall (l : list A) (r : list B),
             mapM (fun p => f (fst p) (snd p)) (zip (map h l) r)
             = mapM (fun p => f (h (fst p)) (snd p)) (zip l r)).
  { induction l as [|a l IH]; intros [|b r]; simpl; try reflexivity.
    rewrite IH. reflexivity. }
  assert (Hmap : forall (y : B) (l : list A),
             mapM (fun x => f x y) (map h l) = mapM (fun x => f (h x) y) l).
  { intros y. induction l as [|a l IH]; simpl; [reflexivity|].
    rewrite IH. reflexivity. }
  destruct (Nat.eqb (length xs) (length ys)); [apply Hzip|].
  destruct xs as [|x [|x' xs]]; simpl.
  - destruct ys as [|y [|y' ys]]; reflexivity.
  - reflexivity.
  - destruct ys as [|y [|y' ys]]; try reflexivity.
    simpl. rewrite (Hmap y xs). reflexivity.
Qed.

Lemma broadcast2_ext {A B C} (f g : A -> B -> result C) (xs : list A) (ys : list B) :
  (forall a b, f a b = g a b) -> broadcast2 f xs ys = broadcast2 g xs ys.
Proof.
  intros H. unfold broadcast2.
  destruct (Nat.eqb (length xs) (length ys)).
  - apply mapM_ext. intros p _. apply H.
  - destruct xs as [|x [|x' xs]]; destruct ys as [|y [|y' ys]]; try reflexivity;
      apply mapM_ext; intros; apply H.
Qed.

(** At a node whose RMS is above the floor before and after scaling, the
    norm of the scaled node is the norm of the node. *)
Lemma Norm_node_scale (eps c : R) (scale : vec) (dim_ : nat) (t : cmat) :
  0 < c -> 0 < eps ->
  eps <= rms_node dim_ t -> eps <= c * rms_node dim_ t ->
  Norm_node eps scale dim_ (map (map (Rmult c)) t) = Norm_node eps scale dim_ t.
Proof.
  intros Hc Heps Hrms Hcrms. unfold Norm_node.
  rewrite broadcast2_map_l. apply broadcast2_ext. intros row s. f_equal.
  rewrite map_map. apply map_ext. intros x.
  rewrite rms_node_scale by lra.
  rewrite (Rmax_left _ _ Hrms), (Rmax_left _ _ Hcrms).
  field. split; lra.
Qed.

Lemma channels_tscale (c : R) (t : T2 cmat) : channels (tscale c t) = channels t.
Proof.
  unfold channels. destruct t as [|row t]; [reflexivity|].
  destruct row as [|node row]; [reflexivity|].
  cbn. apply length_map.
Qed.

Lemma mapM_map {A A' B} (f : A' -> result B) (h : A -> A') (l : list A) :
  mapM f (map h l) = mapM (fun a => f (h a)) l.
Proof.
  induction l as [|a l IH]; simpl; [reflexivity|]. rewrite IH. reflexivity.
Qed.

Lemma Norm_step_scale (eps c : R) (acc : featmap) (scale : vec) (d : nat) (t : T2 cmat) :
  0 < c -> 0 < eps ->
  Forall (Forall (fun node => eps <= rms_node (channels t) node
                              /\ eps <= c * rms_node (channels t) node)) t ->
  Norm_step eps acc (scale, (d, tscale c t)) = Norm_step eps acc (scale, (d, t)).
Proof.
  intros Hc Heps Hall. unfold Norm_step. cbv zeta.
  rewrite channels_tscale.
  destruct (Nat.eqb (channels t) 0); [reflexivity|]. cbn [bind].
  replace (mapM (mapM (Norm_node eps scale (channels t))) (tscale c t))
    with (mapM (mapM (Norm_node eps scale (channels t))) t); [reflexivity|].
  change (tscale c t) with (map (map (map (map (Rmult c)))) t).
  rewrite mapM_map. apply mapM_ext. intros row Hrow.
  rewrite mapM_map. apply mapM_ext. intros node Hnode.
  rewrite Forall_forall in Hall. specialize (Hall row Hrow).
  rewrite Forall_forall in Hall. destruct (Hall node Hnode) as (H1 & H2).
  symmetry. apply Norm_node_scale; assumption.
Qed.

(** C5, as the code has it. For a positive constant [c], scaling the tensor
    of one degree by [c] leaves the output of the norm unchanged provided
    that the floor [eps] is positive and that, at every node of that tensor,
    the RMS is at least [eps] both before and after the scaling (so that the
    clamp does not act). *)
Theorem Norm_scale_invariant_above_eps (self : Norm) (features : featmap)
    (degree : nat) (c : R) :
  0 < c -> 0 < Norm_eps self ->
  (forall t, In (degree, t) features ->
     Forall (Forall (fun node =>
                       Norm_eps self <= rms_node (channels t) node
                       /\ Norm_eps self <= c * rms_node (channels t) node)) t) ->
  Norm_forward self (scale_degree c degree features) = Norm_forward self features.
Proof.
  intros Hc Heps. unfold Norm_forward.
  generalize (Norm_transforms self) as transforms.
  assert (Hgen : forall features transforms (acc : featmap),
             (forall t, In (degree, t) features ->
                Forall (Forall (fun node =>
                          Norm_eps self <= rms_node (channels t) node
                          /\ Norm_eps self <= c * rms_node (channels t) node)) t) ->
             foldM (Norm_step (Norm_eps self))
                   (zip transforms (scale_degree c degree features)) acc
             = foldM (Norm_step (Norm_eps self)) (zip transforms features) acc).
  { clear features. induction features as [|[d t] features IH]; intros transforms acc Hall.
    - reflexivity.
    - destruct transforms as [|scale transforms]; [reflexivity|].
      cbn [scale_degree map zip foldM fst snd].
      fold (scale_degree c degree features).
      assert (Hstep : Norm_step (Norm_eps self) acc
                        (scale, if Nat.eqb d degree then (d, tscale c t) else (d, t))
                      = Norm_step (Norm_eps self) acc (scale, (d, t))).
      { destruct (Nat.eqb_spec d degree) as [->|Hne]; [|reflexivity].
        apply Norm_step_scale; [exact Hc | exact Heps|].
        apply Hall. left. reflexivity. }
      rewrite Hstep.
      destruct (Norm_step (Norm_eps self) acc (scale, (d, t))) as [acc'|e];
        cbn [bind]; [|reflexivity].
      apply IH. intros t' Hin. apply Hall. right. exact Hin. }
  intros transforms Hall. apply Hgen. exact Hall.
Qed.

Lemma rms_node_scalar (x : R) : 0 <= x -> rms_node 1 [[x]] = x.
Proof.
  intros Hx. unfold rms_node, l2norm, rsum. cbn [map fold_right INR].
  replace (x * x + 0) with (x * x) by ring.
  rewrite (sqrt_square x Hx).
  replace (x * x + 0) with (x * x) by ring.
  rewrite (sqrt_square x Hx). rewrite sqrt_1. field.
Qed.

Lemma Norm_forward_scalar (x : R) :
  0 <= x ->
  Norm_forward example_norm (scalar_features x)
  = Ok (scalar_features (x / Rmax x default_eps * 1)).
Proof.
  intros Hx. unfold Norm_forward, example_norm, scalar_features, Norm_step.
  cbn [Norm_transforms Norm_eps zip foldM channels hd length Nat.eqb bind mapM].
  unfold Norm_node. rewrite (rms_node_scalar Hx).
  unfold broadcast2. cbn [length Nat.eqb zip mapM fst snd map bind setitem].
  reflexivity.
Qed.

Lemma default_eps_pos : 0 < default_eps.
Proof. unfold default_eps. lra. Qed.

(** C5, as stated, fails below the floor: a degree-0 entry of [eps / 2] is
    normalised to [1 / 2], and the same entry scaled by 4 to [1]. *)
Lemma Norm_scale_changes_below_eps :
  Norm_forward example_norm (scalar_features (default_eps / 2))
  = Ok (scalar_features (/ 2))
  /\ Norm_forward example_norm (scale_degree 4 0 (scalar_features (default_eps / 2)))
     = Ok (scalar_features 1)
  /\ scalar_features (/ 2) <> scalar_features 1.
Proof.
  pose proof default_eps_pos as He.
  split; [|split].
  - rewrite Norm_forward_scalar by lra.
    rewrite Rmax_right by lra.
    do 2 f_equal. unfold scalar_features. do 6 f_equal. field. lra.
  - change (scale_degree 4 0 (scalar_features (default_eps / 2)))
      with (scalar_features (4 * (default_eps / 2))).
    rewrite Norm_forward_scalar by lra.
    rewrite Rmax_left by lra.
    unfold scalar_features. do 7 f_equal. field. lra.
  - unfold scalar_features. intros H. injection H as H. lra.
Qed.

(** A witness above the floor: the entry [1], scaled by 2. *)
Lemma Norm_scale_invariant_above_eps_witness :
  Norm_forward example_norm (scale_degree 2 0 (scalar_features 1))
  = Norm_forward example_norm (scalar_features 1).
Proof.
  pose proof default_eps_pos as He.
  apply (@Norm_scale_invariant_above_eps example_norm (scalar_features 1) 0%nat 2).
  - lra.
  - exact He.
  - intros t [H|[]]. injection H as <-.
    apply Forall_cons; [|apply Forall_nil].
    apply Forall_cons; [|apply Forall_nil].
    cbn [example_norm Norm_eps channels hd length].
    rewrite rms_node_scalar by lra. unfold default_eps. split; lra.
Defined.

(** ** Chunking *)

Lemma zip_firstn {A B} (k : nat) (a : list A) (b : list B) :
  zip (firstn k a) (firstn k b) = firstn k (zip a b).
Proof.
  revert a b. induction k as [|k IH]; intros [|x a] [|y b]; simpl; try reflexivity.
  rewrite IH. reflexivity.
Qed.

Lemma zip_skipn {A B} (k : nat) (a : list A) (b : list B) :
  zip (skipn k a) (skipn k b) = skipn k (zip a b).
Proof.
  revert a b. induction k as [|k IH]; intros [|x a] [|y b]; simpl; try reflexivity.
  - destruct (skipn k a); reflexivity.
  - apply IH.
Qed.

Lemma map2_narrow {A B C} (g : A -> B -> C) (s l : nat) (a : list A) (b : list B) :
  map2 g (firstn l (skipn s a)) (firstn l (skipn s b))
  = firstn l (skipn s (map2 g a b)).
Proof.
  unfold map2. rewrite zip_firstn, zip_skipn, skipn_map, firstn_map. reflexivity.
Qed.

Lemma zip_map_both {A B A' B'} (f : A -> A') (g : B -> B') (a : list A) (b : list B) :
  zip (map f a) (map g b) = map (fun p => (f (fst p), g (snd p))) (zip a b).
Proof.
  revert b. induction a as [|x a IH]; intros [|y b]; simpl; try reflexivity.
  rewrite IH. reflexivity.
Qed.

Lemma map3_narrow1 {A B} (f : A -> B) (t : T3 A) (s l : nat) :
  map3 f (utils.narrow1 t s l) = utils.narrow1 (map3 f t) s l.
Proof.
  unfold map3, utils.narrow1. rewrite !map_map. apply map_ext. intros row.
  rewrite skipn_map, firstn_map. reflexivity.
Qed.

Lemma zip_with3_narrow1 {A B C} (f : A -> B -> C) (x : T3 A) (y : T3 B) (s l : nat) :
  zip_with3 f (utils.narrow1 x s l) (utils.narrow1 y s l)
  = utils.narrow1 (zip_with3 f x y) s l.
Proof.
  unfold zip_with3, utils.narrow1. unfold map2 at 1 4.
  rewrite zip_map_both, !map_map. apply map_ext. intros [a b]. cbn [fst snd].
  apply map2_narrow.
Qed.

Lemma lookup2_map_values {A B} (g : A -> B) (k : nat * nat) (d : dict2 A) :
  lookup2 k (map (fun kv => (fst kv, g (snd kv))) d) = option_map g (lookup2 k d).
Proof.
  induction d as [|[k' v] d IH]; simpl; [reflexivity|].
  destruct (pair_eqb k k'); [reflexivity | exact IH].
Qed.

Lemma firstn_plus {A} (a l : nat) (r : list A) :
  firstn a r ++ firstn l (skipn a r) = firstn (a + l) r.
Proof.
  revert r. induction a as [|a IH]; intros r; simpl.
  - reflexivity.
  - destruct r as [|x r]; simpl.
    + rewrite firstn_nil. reflexivity.
    + rewrite IH. reflexivity.
Qed.

Lemma map_zip_diag {A B} (f : A * A -> B) (Y : list A) :
  map f (zip Y Y) = map (fun r => f (r, r)) Y.
Proof.
  induction Y as [|r Y IH]; simpl; [reflexivity|]. rewrite IH. reflexivity.
Qed.

Lemma cat1_narrow1 {A} (Y : T2 A) (a l : nat) :
  utils.cat1 (utils.narrow1 Y 0 a) (utils.narrow1 Y a l) = utils.narrow1 Y 0 (a + l).
Proof.
  unfold utils.cat1, utils.narrow1, map2.
  rewrite zip_map_both, map_map, map_zip_diag.
  apply map_ext. intros r. cbn [fst snd skipn]. apply firstn_plus.
Qed.

(** One chunk: the kernel of the narrowed inputs is the narrowed kernel. *)
Lemma PairwiseConv_forward_narrow (kernel_fn : PairwiseConv) (ef : T3 vec)
    (basis : basis_dict) (s l : nat) :
  PairwiseConv_forward kernel_fn (utils.narrow1 ef s l)
    (map (fun kv => (fst kv, utils.narrow1 (snd kv) s l)) basis)
  = (B <- getitem2 basis (PairwiseConv_degree_in kernel_fn, PairwiseConv_degree_out kernel_fn) ;;
     Ok (utils.narrow1
           (zip_with3 kernel_edge
              (map3 (RadialFunc_forward (PairwiseConv_rp kernel_fn)) ef) B) s l)).
Proof.
  unfold PairwiseConv_forward, getitem2.
  rewrite (lookup2_map_values (fun t : T3 basis_elem => utils.narrow1 t s l)).
  destruct (lookup2 _ basis) as [B|]; cbn [option_map of_option bind fst snd].
  - rewrite map3_narrow1, zip_with3_narrow1. reflexivity.
  - reflexivity.
Qed.

Lemma Conv_chunk_step_narrow (kernel_fn : PairwiseConv) (acc : option (T3 vec))
    (x ef : T3 vec) (basis : basis_dict) (B : T3 basis_elem) (s l : nat) :
  lookup2 (PairwiseConv_degree_in kernel_fn, PairwiseConv_degree_out kernel_fn) basis
  = Some B ->
  Conv_chunk_step kernel_fn acc
    (utils.narrow1 x s l, utils.narrow1 ef s l,
     map (fun kv => (fst kv, utils.narrow1 (snd kv) s l)) basis)
  = Ok (utils.safe_cat acc (utils.narrow1 (conv_unchunked kernel_fn x ef B) s l)).
Proof.
  intros HB. unfold Conv_chunk_step.
  rewrite PairwiseConv_forward_narrow. unfold getitem2. rewrite HB.
  cbn [of_option bind]. rewrite zip_with3_narrow1. reflexivity.
Qed.

Lemma Conv_chunk_step_missing (kernel_fn : PairwiseConv) (acc : option (T3 vec))
    (x ef : T3 vec) (basis : basis_dict) (s l : nat) :
  lookup2 (PairwiseConv_degree_in kernel_fn, PairwiseConv_degree_out kernel_fn) basis
  = None ->
  Conv_chunk_step kernel_fn acc
    (utils.narrow1 x s l, utils.narrow1 ef s l,
     map (fun kv => (fst kv, utils.narrow1 (snd kv) s l)) basis)
  = Err (PairKeyError (PairwiseConv_degree_in kernel_fn) (PairwiseConv_degree_out kernel_fn)).
Proof.
  intros HB. unfold Conv_chunk_step.
  rewrite PairwiseConv_forward_narrow. unfold getitem2. rewrite HB. reflexivity.
Qed.

(** Consecutive pieces concatenate to the prefix they cover. *)
Lemma chunks_fold_from (kernel_fn : PairwiseConv) (x ef : T3 vec) (basis : basis_dict)
    (B : T3 basis_elem) (sizes : list nat) (start : nat) :
  lookup2 (PairwiseConv_degree_in kernel_fn, PairwiseConv_degree_out kernel_fn) basis
  = Some B ->
  foldM (Conv_chunk_step kernel_fn)
        (zip3 (utils.narrow_all x start sizes) (utils.narrow_all ef start sizes)
              (narrow_dict basis start sizes))
        (Some (utils.narrow1 (conv_unchunked kernel_fn x ef B) 0 start))
  = Ok (Some (utils.narrow1 (conv_unchunked kernel_fn x ef B) 0
                (start + list_sum_nat sizes))).
Proof.
  intros HB. revert start. induction sizes as [|len sizes IH]; intros start.
  - cbn. rewrite Nat.add_0_r. reflexivity.
  - cbn [utils.narrow_all narrow_dict zip3 foldM].
    rewrite (Conv_chunk_step_narrow _ _ _ _ _ _ _ HB).
    cbn [utils.safe_cat bind]. rewrite cat1_narrow1, IH.
    cbn [list_sum_nat fold_right]. rewrite Nat.add_assoc. reflexivity.
Qed.

Lemma chunk_sizes_sum (c r k : nat) :
  list_sum_nat (utils.chunk_sizes c r k) = (c * k + Nat.min r k)%nat.
Proof.
  revert r. induction k as [|k IH]; intros r.
  - cbn. lia.
  - cbn [utils.chunk_sizes list_sum_nat fold_right].
    change (fold_right Nat.add 0%nat (utils.chunk_sizes c (r - 1) k))
      with (list_sum_nat (utils.chunk_sizes c (r - 1) k)).
    rewrite IH, Nat.mul_succ_r.
    destruct r as [|r]; cbn [Nat.ltb Nat.leb]; lia.
Qed.

Lemma split_sizes_sum (n s : nat) : list_sum_nat (utils.split_sizes n s) = n.
Proof.
  unfold utils.split_sizes.
  destruct (Nat.min n (Nat.max s 1)) as [|k] eqn:Ek.
  - cbn. lia.
  - rewrite chunk_sizes_sum.
    pose proof (Nat.div_mod_eq n (S k)) as Hdm.
    pose proof (Nat.mod_upper_bound n (S k) ltac:(lia)) as Hlt.
    rewrite (Nat.mul_comm (n / S k) (S k)).
    lia.
Qed.

Lemma split_sizes_nonempty (n s : nat) :
  (0 < n)%nat -> exists len rest, utils.split_sizes n s = len :: rest.
Proof.
  intros Hn. unfold utils.split_sizes.
  destruct (Nat.min n (Nat.max s 1)) as [|k] eqn:Ek; [lia|].
  cbn [utils.chunk_sizes]. eexists; eexists; reflexivity.
Qed.

Lemma uncons_all_narrow (rest : basis_dict) (start len : nat) (sizes : list nat) :
  uncons_all (map (fun kv : (nat * nat) * T3 basis_elem =>
                     utils.narrow_all (snd kv) start (len :: sizes)) rest)
  = Some (map (fun kv => utils.narrow1 (snd kv) start len) rest,
          map (fun kv => utils.narrow_all (snd kv) (start + len) sizes) rest).
Proof.
  induction rest as [|kv rest IH]; [reflexivity|].
  cbn [map uncons_all utils.narrow_all] in *. rewrite IH. reflexivity.
Qed.

Lemma zip_keys_values {K A B} (g : A -> B) (d : list (K * A)) :
  zip (map fst d) (map (fun kv => g (snd kv)) d) = map (fun kv => (fst kv, g (snd kv))) d.
Proof.
  induction d as [|kv d IH]; simpl; [reflexivity|]. rewrite IH. reflexivity.
Qed.

Lemma columns_narrow (kv0 : (nat * nat) * T3 basis_elem) (rest : basis_dict)
    (sizes : list nat) (start : nat) :
  map (fun v => zip (map fst (kv0 :: rest)) v)
      (columns (utils.narrow_all (snd kv0) start sizes)
               (map (fun kv : (nat * nat) * T3 basis_elem =>
                       utils.narrow_all (snd kv) start sizes) rest))
  = narrow_dict (kv0 :: rest) start sizes.
Proof.
  revert start. induction sizes as [|len sizes IH]; intros start; [reflexivity|].
  cbn [utils.narrow_all columns].
  pose proof (uncons_all_narrow rest start len sizes) as Hu.
  cbn [utils.narrow_all] in Hu. rewrite Hu.
  cbn [map narrow_dict]. rewrite IH. f_equal.
  cbn [zip fst]. f_equal.
  apply (zip_keys_values (fun t : T3 basis_elem => utils.narrow1 t start len)).
Qed.

Lemma split_basis_narrow (kv0 : (nat * nat) * T3 basis_elem) (rest : basis_dict)
    (n s : nat) :
  Forall (fun kv : (nat * nat) * T3 basis_elem => utils.axis1_len (snd kv) = n)
         (kv0 :: rest) ->
  split_basis (kv0 :: rest) s = narrow_dict (kv0 :: rest) 0 (utils.split_sizes n s).
Proof.
  intros Hall.
  unfold split_basis, utils.fast_split. cbn [map zip_star].
  inversion Hall as [|? ? H0 Hrest]; subst.
  rewrite (map_ext_in
             (fun kv : (nat * nat) * T3 basis_elem =>
                utils.narrow_all (snd kv) 0 (utils.split_sizes (utils.axis1_len (snd kv)) s))
             (fun kv => utils.narrow_all (snd kv) 0
                          (utils.split_sizes (utils.axis1_len (snd kv0)) s))).
  - apply columns_narrow.
  - intros kv Hin. rewrite Forall_forall in Hrest. rewrite (Hrest kv Hin). reflexivity.
Qed.

(** The loop over the chunks computes the same for every number of splits:
    the kernel applied to the whole tensors. *)
Lemma Conv_chunks_unchunked (kernel_fn : PairwiseConv) (x ef : T3 vec)
    (basis : basis_dict) (n s : nat) :
  utils.axis1_len x = n -> utils.axis1_len ef = n ->
  Forall (fun kv : (nat * nat) * T3 basis_elem => utils.axis1_len (snd kv) = n) basis ->
  Conv_chunks kernel_fn (utils.fast_split x s) (utils.fast_split ef s) (split_basis basis s)
  = chunks_result kernel_fn x ef basis n.
Proof.
  intros Hx He HB. unfold Conv_chunks, utils.fast_split. rewrite Hx, He.
  destruct n as [|n'].
  - reflexivity.
  - destruct basis as [|kv0 brest].
    { unfold split_basis. cbn [map zip_star].
      destruct (utils.split_sizes (S n') s); reflexivity. }
    rewrite (split_basis_narrow s HB).
    unfold chunks_result, getitem2.
    remember (kv0 :: brest) as basis eqn:Eb. clear Eb HB.
    pose proof (split_sizes_sum (S n') s) as Hsum.
    destruct (split_sizes_nonempty s (n := S n') ltac:(lia)) as (len & rest & Hsz).
    rewrite Hsz in *.
    cbn [utils.narrow_all narrow_dict zip3 foldM].
    destruct (lookup2 (PairwiseConv_degree_in kernel_fn, PairwiseConv_degree_out kernel_fn)
                      basis) as [B|] eqn:EB.
    + rewrite (Conv_chunk_step_narrow _ _ _ _ _ _ _ EB).
      cbn [utils.safe_cat bind of_option].
      pose proof (chunks_fold_from kernel_fn x ef basis rest (0 + len) EB) as Hf.
      cbn [Nat.add] in Hf. cbn [Nat.add]. refine (eq_trans Hf _).
      cbn [list_sum_nat fold_right] in Hsum.
      change (fold_right Nat.add 0%nat rest) with (list_sum_nat rest) in Hsum.
      rewrite Hsum. reflexivity.
    + rewrite Conv_chunk_step_missing; [reflexivity | exact EB].
Qed.

Lemma bind_congr {A B} (c : result A) (k1 k2 : A -> result B) :
  (forall a, c = Ok a -> k1 a = k2 a) -> bind c k1 = bind c k2.
Proof.
  intros H. destruct c as [a|e]; simpl; [apply H; reflexivity | reflexivity].
Qed.

Lemma foldM_ext {A B} (f g : B -> A -> result B) (l : list A) (acc : B) :
  (forall acc a, f acc a = g acc a) -> foldM f l acc = foldM g l acc.
Proof.
  intros H. revert acc. induction l as [|a l IH]; intros acc; simpl; [reflexivity|].
  rewrite H. apply bind_congr. intros acc' _. apply IH.
Qed.

Lemma lookup_In {A} (k : nat) (d : dict A) (v : A) :
  lookup k d = Some v -> In (k, v) d.
Proof.
  induction d as [|[k' v'] d IH]; simpl; [discriminate|].
  destruct (Nat.eqb_spec k k') as [->|Hne]; intros H.
  - injection H as ->. left. reflexivity.
  - right. apply IH. exact H.
Qed.

Lemma mapM_axis1_len {A B} (F : list A -> result (list B)) (x : T2 A) (x' : T2 B) :
  (forall r r', F r = Ok r' -> length r' = length r) ->
  mapM F x = Ok x' -> utils.axis1_len x' = utils.axis1_len x.
Proof.
  intros HF H. destruct x as [|r x]; simpl in H.
  - injection H as <-. reflexivity.
  - ok_all. unfold utils.axis1_len. cbn [hd]. apply HF. assumption.
Qed.

Lemma batched_index_select1_axis1_len {A} (values : T2 A) (indices : T3 nat) (x : T3 A) :
  length values = length indices ->
  utils.batched_index_select1 values indices = Ok x ->
  utils.axis1_len x = utils.axis1_len indices.
Proof.
  intros Hlen H. unfold utils.batched_index_select1 in H.
  destruct values as [|v values]; destruct indices as [|i indices]; try discriminate Hlen.
  - cbn in H. injection H as <-. reflexivity.
  - cbn [zip mapM fst snd] in H. ok_all.
    unfold utils.axis1_len. cbn [hd]. eapply mapM_length. eassumption.
Qed.

Lemma axis1_len_map3 {A B} (f : A -> B) (t : T3 A) :
  utils.axis1_len (map3 f t) = utils.axis1_len t.
Proof.
  unfold utils.axis1_len, map3. destruct t as [|r t]; [reflexivity|].
  cbn [map hd]. apply length_map.
Qed.

Lemma zip_length {A B} (a : list A) (b : list B) :
  length (zip a b) = Nat.min (length a) (length b).
Proof.
  revert b. induction a as [|x a IH]; intros [|y b]; simpl; try reflexivity.
  rewrite IH. reflexivity.
Qed.

Lemma axis1_len_zip_with3 {A B C} (f : A -> B -> C) (x : T3 A) (y : T3 B) (n : nat) :
  length x = length y -> utils.axis1_len x = n -> utils.axis1_len y = n ->
  utils.axis1_len (zip_with3 f x y) = n.
Proof.
  intros Hlen Hx Hy. unfold utils.axis1_len, zip_with3, map2 in *.
  destruct x as [|r x]; destruct y as [|r' y]; try discriminate Hlen.
  - exact Hx.
  - cbn [zip map hd fst snd] in *. rewrite length_map, zip_length, Hx, Hy.
    apply Nat.min_id.
Qed.

(** One input degree contributes the same for every number of splits. *)
Lemma Conv_accumulate_step_splits (self : Conv) (inp : featmap) (ni : T3 nat)
    (nm : option (T3 bool)) (edges : option (T3 vec)) (rel_dist : T3 R)
    (basis : basis_dict) (b n s1 s2 degree_out : nat) (output : option (T3 vec))
    (p : nat * Z) :
  conv_shapes b n inp (ni, nm, edges) rel_dist basis ->
  Conv_accumulate_step (with_splits s1 self) inp ni edges (map3 (fun r => [r]) rel_dist)
    (split_basis basis s1) degree_out output p
  = Conv_accumulate_step (with_splits s2 self) inp ni edges (map3 (fun r => [r]) rel_dist)
      (split_basis basis s2) degree_out output p.
Proof.
  intros (Hinp & Hnib & Hnin & Hrdb & Hrdn & Hedges & Hbasis).
  unfold Conv_accumulate_step. destruct p as [degree_in m_in].
  cbn [with_splits Conv_splits Conv_kernel_unary].
  apply bind_congr. intros x0 Hx0.
  apply bind_congr. intros x1 Hx1.
  apply bind_congr. intros x2 Hx2.
  apply bind_congr. intros kernel_fn _.
  assert (Hx : utils.axis1_len x2 = n).
  { apply of_option_Ok_inv, lookup_In in Hx0.
    rewrite Forall_forall in Hinp. specialize (Hinp _ Hx0). cbn [snd] in Hinp.
    rewrite (mapM_axis1_len _ _ (fun r r' => @mapM_length _ _ _ r r') Hx2).
    rewrite (batched_index_select1_axis1_len _ _ (eq_trans Hinp (eq_sym Hnib)) Hx1).
    exact Hnin. }
  assert (He : utils.axis1_len
                 match edges with
                 | Some e => zip_with3 (@app R) (map3 (fun r => [r]) rel_dist) e
                 | None => map3 (fun r => [r]) rel_dist
                 end = n).
  { destruct edges as [e|].
    - destruct (Hedges e eq_refl) as (Heb & Hen).
      apply axis1_len_zip_with3.
      + unfold map3. rewrite length_map. exact (eq_trans Hrdb (eq_sym Heb)).
      + rewrite axis1_len_map3. exact Hrdn.
      + exact Hen.
    - rewrite axis1_len_map3. exact Hrdn. }
  pose proof (Conv_chunks_unchunked kernel_fn _ _ s1 Hx He Hbasis) as E1.
  pose proof (Conv_chunks_unchunked kernel_fn _ _ s2 Hx He Hbasis) as E2.
  exact (f_equal (fun c => output_chunk <- c ;; add_output output output_chunk)
                 (eq_trans E1 (eq_sym E2))).
Qed.

(** C1. On inputs that share the leading [batch, node] sizes, the output of
    the convolution is the same for every two positive numbers of splits, in
    particular for [splits = 1] (one chunk: the unchunked computation) and
    [splits = 4]. *)
Theorem Conv_chunk_invariance (self : Conv) (inp : featmap) (edge_info_ : edge_info)
    (rel_dist : T3 R) (basis : basis_dict) (b n s1 s2 : nat) :
  (0 < s1)%nat -> (0 < s2)%nat ->
  conv_shapes b n inp edge_info_ rel_dist basis ->
  Conv_forward (with_splits s1 self) inp edge_info_ rel_dist basis
  = Conv_forward (with_splits s2 self) inp edge_info_ rel_dist basis.
Proof.
  intros _ _ Hshapes. destruct edge_info_ as [[ni nm] edges].
  assert (Hacc : forall degree_out,
             (output <- Conv_accumulate (with_splits s1 self) inp ni edges
                          (map3 (fun r => [r]) rel_dist) (split_basis basis s1) degree_out ;;
              of_option output TypeError)
             = (output <- Conv_accumulate (with_splits s2 self) inp ni edges
                            (map3 (fun r => [r]) rel_dist) (split_basis basis s2) degree_out ;;
                of_option output TypeError)).
  { intros degree_out. unfold Conv_accumulate. cbn [with_splits Conv_fiber_in].
    rewrite (foldM_ext _
               (Conv_accumulate_step (with_splits s2 self) inp ni edges
                  (map3 (fun r => [r]) rel_dist) (split_basis basis s2) degree_out));
      [reflexivity|].
    intros output p. eapply Conv_accumulate_step_splits. exact Hshapes. }
  unfold Conv_forward.
  cbn [with_splits Conv_splits Conv_pool Conv_fiber_out Conv_self_interaction
       Conv_self_interact].
  destruct (Conv_pool self).
  - rewrite (foldM_ext _ (Conv_pool_step
                            (fun degree_out =>
                               output <- Conv_accumulate (with_splits s2 self) inp ni edges
                                           (map3 (fun r => [r]) rel_dist)
                                           (split_basis basis s2) degree_out ;;
                               of_option output TypeError) nm));
      [reflexivity|].
    intros outputs [degree_out d]. unfold Conv_pool_step. rewrite Hacc. reflexivity.
  - rewrite (foldM_ext _ (Conv_keep_step
                            (fun degree_out =>
                               output <- Conv_accumulate (with_splits s2 self) inp ni edges
                                           (map3 (fun r => [r]) rel_dist)
                                           (split_basis basis s2) degree_out ;;
                               of_option output TypeError)));
      [reflexivity|].
    intros outputs [degree_out d]. unfold Conv_keep_step. rewrite Hacc. reflexivity.
Qed.

(** A witness on the input convolution of the example model: two nodes, one
    chunk against two chunks. *)
Lemma Conv_chunk_invariance_witness :
  Conv_forward (with_splits 1 (Equiformer_conv_in example_model)) example_feats
    example_edge_info (sel_neighbor_rel_dist example_selection) example_conv_basis
  = Conv_forward (with_splits 4 (Equiformer_conv_in example_model)) example_feats
      example_edge_info (sel_neighbor_rel_dist example_selection) example_conv_basis.
Proof.
  apply (@Conv_chunk_invariance (Equiformer_conv_in example_model) example_feats
           example_edge_info (sel_neighbor_rel_dist example_selection)
           example_conv_basis 1 2 1 4).
  - lia.
  - lia.
  - unfold conv_shapes, example_edge_info.
    split; [repeat constructor|].
    split; [reflexivity|]. split; [reflexivity|].
    split; [reflexivity|]. split; [reflexivity|].
    split; [intros e H; discriminate H|].
    repeat constructor.
Defined.

(** ** Runs on concrete inputs *)

Example fiber_and_example :
  fiber_and [1%Z; 2%Z; 3%Z] [4%Z; 5%Z] = Ok [(0%nat, 1%Z, 4%Z); (1%nat, 2%Z, 5%Z)].
Proof. reflexivity. Qed.

Example fiber_product_example :
  fiber_product [1%Z; 2%Z] [4%Z]
  = [((0%nat, 1%Z), (0%nat, 4%Z)); ((1%nat, 2%Z), (0%nat, 4%Z))].
Proof. reflexivity. Qed.

Example split_sizes_example :
  utils.split_sizes 10 4 = [3; 3; 2; 2]%nat
  /\ utils.split_sizes 2 4 = [1; 1]%nat
  /\ utils.split_sizes 5 1 = [5]%nat
  /\ utils.split_sizes 0 4 = [].
Proof. repeat split. Qed.

Example Gate_init_example :
  Gate_init [] = Err IndexError
  /\ Gate_init [2%Z; 2%Z] = Err (AssertionError GateChannels).
Proof. split; reflexivity. Qed.

(** The example model selects, for each of two nodes, the other one. *)
Example example_neighbor_indices :
  sel_neighbor_indices example_selection = [[[1%nat]; [0%nat]]].
Proof. reflexivity. Qed.

(** With two degrees the call on two nodes returns. *)
Example example_forward_returns :
  is_ok (Equiformer_forward example_basis example_model (example_args 2)) = true.
Proof. lazy. reflexivity. Qed.

(** With one degree the same call fails on [x[1]]. *)
Example one_degree_forward_fails :
  Equiformer_forward example_basis one_degree_model (example_args 2) = Err (KeyError 1).
Proof. lazy. reflexivity. Qed.

(** The input convolution of the example model succeeds with one chunk. *)
Example example_conv_forward_returns :
  is_ok (Conv_forward (with_splits 1 (Equiformer_conv_in example_model)) example_feats
           example_edge_info (sel_neighbor_rel_dist example_selection) example_conv_basis)
  = true.
Proof. lazy. reflexivity. Qed.

(** * Further properties of the modules *)

(** ** Dicts *)

Lemma setitem_fresh {A} (d : dict A) (k : nat) (v : A) :
  ~ In k (keys d) -> setitem d k v = d ++ [(k, v)].
Proof.
  induction d as [|[k' v'] d IH]; simpl; intros H; [reflexivity|].
  destruct (Nat.eqb_spec k k') as [->|Hne].
  - exfalso. apply H. left. reflexivity.
  - rewrite IH; [reflexivity|]. intros Hin. apply H. right. exact Hin.
Qed.

Lemma setitem_last {A} (d : dict A) (k : nat) (v v' : A) :
  ~ In k (keys d) -> setitem (d ++ [(k, v)]) k v' = d ++ [(k, v')].
Proof.
  induction d as [|[k' w] d IH]; simpl; intros H.
  - rewrite Nat.eqb_refl. reflexivity.
  - destruct (Nat.eqb_spec k k') as [->|Hne].
    + exfalso. apply H. left. reflexivity.
    + rewrite IH; [reflexivity|]. intros Hin. apply H. right. exact Hin.
Qed.

Lemma keys_app {A} (d1 d2 : dict A) : keys (d1 ++ d2) = keys d1 ++ keys d2.
Proof. unfold keys. apply map_app. Qed.

Lemma NoDup_app_cons_not_in {A} (l : list A) (a : A) (r : list A) :
  NoDup (l ++ a :: r) -> ~ In a l.
Proof.
  intros H Hin. apply NoDup_remove_2 in H. apply H. apply in_or_app. left. exact Hin.
Qed.

(** A loop whose body stores one value under the key of each item yields
    the keys of the items, in order, after the keys it started from. *)
Lemma foldM_setitem_keys {A B} (key : A -> nat) (step : dict B -> A -> result (dict B)) :
  (forall out p out', step out p = Ok out' -> exists v, out' = setitem out (key p) v) ->
  forall l acc out,
    foldM step l acc = Ok out ->
    NoDup (keys acc ++ map key l) ->
    keys out = keys acc ++ map key l.
Proof.
  intros Hstep. induction l as [|a l IH]; intros acc out H Hnd.
  - cbn in H. injection H as <-. cbn. rewrite app_nil_r. reflexivity.
  - cbn [foldM] in H. apply bind_Ok_inv in H. destruct H as (acc' & Ha & H).
    destruct (Hstep _ _ _ Ha) as (v & ->).
    cbn [map] in Hnd. pose proof (NoDup_app_cons_not_in _ _ _ Hnd) as Hfresh.
    rewrite setitem_fresh in H by exact Hfresh.
    apply IH in H.
    + rewrite H, keys_app. cbn. rewrite <- app_assoc. reflexivity.
    + rewrite keys_app. cbn. rewrite <- app_assoc. exact Hnd.
Qed.

Lemma zip_enumerate_In {A} (l : list A) (s i : nat) (a : A) :
  In (i, a) (zip (seq s (length l)) l) <-> (s <= i)%nat /\ nth_error l (i - s) = Some a.
Proof.
  revert s. induction l as [|x l IH]; intros s; cbn [length seq zip].
  - split; [intros [] | intros (_ & H); destruct (i - s)%nat; discriminate H].
  - cbn [In]. rewrite IH. split.
    + intros [H | (Hle & Hn)].
      * injection H as <- <-. rewrite Nat.sub_diag. split; [lia | reflexivity].
      * split; [lia|]. replace (i - s)%nat with (S (i - S s)) by lia. exact Hn.
    + intros (Hle & Hn). destruct (Nat.eq_dec i s) as [->|Hne].
      * rewrite Nat.sub_diag in Hn. injection Hn as ->. left. reflexivity.
      * right. split; [lia|].
        replace (i - s)%nat with (S (i - S s)) in Hn by lia. exact Hn.
Qed.

Lemma enumerate_In {A} (l : list A) (i : nat) (a : A) :
  In (i, a) (enumerate l) <-> nth_error l i = Some a.
Proof.
  unfold enumerate. rewrite zip_enumerate_In, Nat.sub_0_r.
  split; [intros (_ & H); exact H | intros H; split; [lia | exact H]].
Qed.

Lemma enumerate_length {A} (l : list A) : length (enumerate l) = length l.
Proof. unfold enumerate. rewrite zip_length, length_seq. apply Nat.min_id. Qed.

Lemma enumerate_keys {A} (l : list A) : map fst (enumerate l) = seq 0 (length l).
Proof.
  unfold enumerate. generalize 0%nat as s.
  induction l as [|x l IH]; intros s; cbn; [reflexivity|]. rewrite IH. reflexivity.
Qed.

(** ** Fiber functions *)

(** X1. [fiber_product] enumerates exactly the pairs of an entry of
    [fiber_in] with an entry of [fiber_out], each with its degree, one for
    every pair of degrees. *)
Theorem fiber_product_pairs (fiber_in fiber_out : fiber) :
  length (fiber_product fiber_in fiber_out) = (length fiber_in * length fiber_out)%nat
  /\ forall di mi do_ mo,
       In ((di, mi), (do_, mo)) (fiber_product fiber_in fiber_out)
       <-> nth_error fiber_in di = Some mi /\ nth_error fiber_out do_ = Some mo.
Proof.
  unfold fiber_product. split.
  - rewrite length_prod, !enumerate_length. reflexivity.
  - intros di mi do_ mo. rewrite in_prod_iff, !enumerate_In. reflexivity.
Qed.

(** ** residual_fn *)

Lemma residual_fn_loop (residual : featmap) (x acc : featmap) :
  NoDup (keys acc ++ keys x) ->
  fold_left (fun out (p : nat * T2 cmat) =>
               let (degree, tensor) := p in
               let out := setitem out degree tensor in
               match lookup degree residual with
               | None => out
               | Some r => setitem out degree (tadd tensor r)
               end)
            x acc
  = acc ++ map (fun p : nat * T2 cmat =>
                  (fst p, match lookup (fst p) residual with
                          | Some r => tadd (snd p) r
                          | None => snd p
                          end)) x.
Proof.
  revert acc. induction x as [|[d t] x IH]; intros acc Hnd.
  - cbn. rewrite app_nil_r. reflexivity.
  - cbn [fold_left map fst snd]. cbn [keys map fst] in Hnd.
    pose proof (NoDup_app_cons_not_in _ _ _ Hnd) as Hfresh.
    cbv zeta. rewrite setitem_fresh by exact Hfresh.
    assert (Hnd' : forall v : T2 cmat, NoDup (keys (acc ++ [(d, v)]) ++ keys x)).
    { intros v. rewrite keys_app. cbn. rewrite <- app_assoc. exact Hnd. }
    destruct (lookup d residual) as [r|].
    + rewrite setitem_last by exact Hfresh.
      rewrite IH by apply Hnd'. rewrite <- app_assoc. reflexivity.
    + rewrite IH by apply Hnd'. rewrite <- app_assoc. reflexivity.
Qed.

(** X2. [residual_fn x residual] keeps the degrees of [x], in order: a
    degree also present in [residual] holds the sum of both tensors, any
    other degree of [x] is passed through, and a degree present in
    [residual] only is dropped. *)
Theorem residual_fn_degrees (x residual : featmap) :
  NoDup (keys x) ->
  residual_fn x residual
  = map (fun p : nat * T2 cmat =>
           (fst p, match lookup (fst p) residual with
                   | Some r => tadd (snd p) r
                   | None => snd p
                   end)) x.
Proof.
  intros Hnd. unfold residual_fn.
  exact (residual_fn_loop residual x [] Hnd).
Qed.

(** A witness with degree 1 in [x] only and degree 2 in the residual only. *)
Lemma residual_fn_degrees_witness :
  residual_fn [(0%nat, [[ [[1]] ]]); (1%nat, [[ [[1; 1; 1]] ]])]
              [(0%nat, [[ [[2]] ]]); (2%nat, [[ [[0; 0; 0; 0; 0]] ]])]
  = [(0%nat, [[ [[1 + 2]] ]]); (1%nat, [[ [[1; 1; 1]] ]])].
Proof.
  rewrite residual_fn_degrees.
  - reflexivity.
  - repeat constructor; cbn; intuition discriminate.
Defined.

(** ** Linear *)

Lemma fiber_and_explicit (fiber_in fiber_out : fiber) :
  fiber_and fiber_in fiber_out
  = Ok (map (fun d => (d, nth d fiber_in 0%Z, nth d fiber_out 0%Z))
            (seq 0 (common_degrees fiber_in fiber_out))).
Proof.
  unfold fiber_and, enumerate, common_degrees.
  pose proof (fiber_and_loop fiber_out fiber_in [] []) as H.
  cbn [length app] in H. rewrite Nat.sub_0_r in H. exact H.
Qed.

Lemma Linear_init_loop (ps : init_params) (triples : list (nat * Z * Z)) (acc l : Linear) :
  foldM (fun (self : Linear) (t : nat * Z * Z) =>
           let '(degree, dim_in, dim_out) := t in
           dim_in <- check_size dim_in ;;
           dim_out <- check_size dim_out ;;
           Ok {| Linear_weights := Linear_weights self ++ [p_randn ps [degree] dim_in dim_out];
                 Linear_degrees := Linear_degrees self ++ [degree] |})
        triples acc = Ok l ->
  Linear_degrees l = Linear_degrees acc ++ map (fun t => fst (fst t)) triples
  /\ length (Linear_weights l) = (length (Linear_weights acc) + length triples)%nat.
Proof.
  revert acc. induction triples as [|[[d di] do_] triples IH]; intros acc H.
  - cbn in H. injection H as <-. cbn. rewrite app_nil_r. split; [reflexivity | lia].
  - cbn [foldM] in H. apply bind_Ok_inv in H. destruct H as (acc' & Ha & H).
    ok_all. apply IH in H. cbn [Linear_degrees Linear_weights] in H.
    destruct H as (Hd & Hw). split.
    + rewrite Hd, <- app_assoc. reflexivity.
    + rewrite Hw, length_app. cbn. lia.
Qed.

Lemma Linear_init_structure (ps : init_params) (fiber_in fiber_out : fiber) (l : Linear) :
  Linear_init ps fiber_in fiber_out = Ok l ->
  Linear_degrees l = seq 0 (common_degrees fiber_in fiber_out)
  /\ length (Linear_weights l) = common_degrees fiber_in fiber_out.
Proof.
  unfold Linear_init. rewrite fiber_and_explicit. cbn [bind]. intros H.
  apply Linear_init_loop in H. cbn [Linear_degrees Linear_weights app length] in H.
  destruct H as (Hd & Hw). split.
  - rewrite Hd, map_map. cbn [fst]. apply map_id.
  - rewrite Hw, length_map, length_seq. reflexivity.
Qed.

Lemma map_fst_zip {A B} (a : list A) (b : list B) :
  length a = length b -> map fst (zip a b) = a.
Proof.
  revert b. induction a as [|x a IH]; intros [|y b] H; try discriminate H; cbn.
  - reflexivity.
  - rewrite IH by (cbn in H; lia). reflexivity.
Qed.

Lemma getitem_Ok_lookup {A} (d : dict A) (k : nat) (v : A) :
  getitem d k = Ok v -> lookup k d = Some v.
Proof. unfold getitem. apply of_option_Ok_inv. Qed.

Lemma Linear_forward_keys (ps : init_params) (fiber_in fiber_out : fiber)
    (l : Linear) (x out : featmap) :
  Linear_init ps fiber_in fiber_out = Ok l ->
  Linear_forward l x = Ok out ->
  keys out = seq 0 (common_degrees fiber_in fiber_out).
Proof.
  intros Hinit H. destruct (Linear_init_structure _ _ _ Hinit) as (Hd & Hw).
  unfold Linear_forward in H.
  apply (foldM_setitem_keys fst) in H.
  - rewrite H. cbn [keys map app].
    rewrite map_fst_zip by (rewrite Hd, length_seq; lia). exact Hd.
  - intros acc [degree weight] acc' Hs. apply bind_Ok_inv in Hs.
    destruct Hs as (t & _ & Hs). injection Hs as <-. eexists. reflexivity.
  - cbn [keys map app].
    rewrite map_fst_zip by (rewrite Hd, length_seq; lia).
    rewrite Hd. apply seq_NoDup.
Qed.

Lemma Linear_forward_reads (x : featmap) (items : list (nat * list vec))
    (acc out : featmap) :
  foldM (fun out (p : nat * list vec) =>
           let (degree, weight) := p in
           t <- getitem x degree ;;
           Ok (setitem out degree (map (map (Linear_node weight)) t)))
        items acc = Ok out ->
  forall d, In d (map fst items) -> lookup d x <> None.
Proof.
  revert acc. induction items as [|[d0 w0] items IH]; intros acc Hf d Hin; [destruct Hin|].
  cbn [foldM] in Hf. apply bind_Ok_inv in Hf. destruct Hf as (acc' & Ha & Hf).
  apply bind_Ok_inv in Ha. destruct Ha as (t & Ht & _).
  destruct Hin as [<-|Hin].
  - cbn [fst]. rewrite (getitem_Ok_lookup _ _ Ht). discriminate.
  - eapply IH; eassumption.
Qed.

(** X3. A [Linear] between two fibers returns, when it succeeds, exactly the
    degrees the fibers share, in ascending order, and it succeeds only on an
    input that holds every one of them. *)
Theorem Linear_forward_degrees (ps : init_params) (fiber_in fiber_out : fiber)
    (l : Linear) (x out : featmap) :
  Linear_init ps fiber_in fiber_out = Ok l ->
  Linear_forward l x = Ok out ->
  keys out = seq 0 (common_degrees fiber_in fiber_out)
  /\ forall d, (d < common_degrees fiber_in fiber_out)%nat -> lookup d x <> None.
Proof.
  intros Hinit H. split; [eapply Linear_forward_keys; eassumption|].
  destruct (Linear_init_structure _ _ _ Hinit) as (Hd & Hw).
  intros d Hlt. unfold Linear_forward in H. eapply Linear_forward_reads; [exact H|].
  rewrite map_fst_zip by (rewrite Hd, length_seq; lia).
  rewrite Hd. apply in_seq. lia.
Qed.

Lemma Linear_forward_degrees_witness :
  keys (from_ok (Linear_forward example_linear two_degree_features)) = [0%nat]
  /\ lookup 0 two_degree_features <> None.
Proof.
  destruct (@Linear_forward_degrees example_params [1%Z; 1%Z] [1%Z] example_linear
              two_degree_features
              (from_ok (Linear_forward example_linear two_degree_features))
              eq_refl eq_refl) as (Hk & Hx).
  split; [exact Hk | apply Hx; cbn; lia].
Defined.

Lemma map_setitem {A B} (f : A -> B) (d : dict A) (k : nat) (v : A) :
  map (fun p : nat * A => (fst p, f (snd p))) (setitem d k v)
  = setitem (map (fun p : nat * A => (fst p, f (snd p))) d) k (f v).
Proof.
  induction d as [|[k' v'] d IH]; cbn; [reflexivity|].
  destruct (Nat.eqb k k'); cbn; [reflexivity | rewrite IH; reflexivity].
Qed.

Lemma lookup_map_values {A B} (f : A -> B) (d : dict A) (k : nat) :
  lookup k (map (fun p : nat * A => (fst p, f (snd p))) d) = option_map f (lookup k d).
Proof.
  induction d as [|[k' v'] d IH]; cbn; [reflexivity|].
  destruct (Nat.eqb k k'); [reflexivity | exact IH].
Qed.

Lemma vec_scale_comm (c w : R) (v : vec) :
  tscale w (tscale c v) = tscale c (tscale w v).
Proof.
  cbn. rewrite !map_map. apply map_ext. intros x. ring.
Qed.

Lemma vec_add_scale (c : R) (a b : vec) :
  tadd (tscale c a) (tscale c b) = tscale c (tadd a b).
Proof.
  cbn. unfold map2. revert b. induction a as [|x a IH]; intros [|y b]; cbn; try reflexivity.
  rewrite IH. f_equal. ring.
Qed.

Lemma tsum_scale (c : R) (l : list vec) :
  tsum (map (tscale c) l) = tscale c (tsum l).
Proof.
  destruct l as [|x l]; [reflexivity|]. cbn [tsum map].
  revert x. induction l as [|y l IH]; intros x; [reflexivity|].
  cbn [map fold_left]. rewrite vec_add_scale. apply IH.
Qed.

Lemma Linear_node_scale (weight : list vec) (c : R) (x : cmat) :
  Linear_node weight (tscale c x) = tscale c (Linear_node weight x).
Proof.
  unfold Linear_node.
  transitivity (map (@tscale vec _ c)
                  (map (fun col => tsum (map2 (fun (w : R) (xd : vec) => tscale w xd) col x))
                       (transpose weight))); [|reflexivity].
  rewrite map_map. apply map_ext. intros col.
  rewrite <- tsum_scale. f_equal. unfold map2.
  change (tscale c x) with (map (@tscale vec _ c) x).
  rewrite map_map. revert x. induction col as [|w col IH]; intros [|xd x]; cbn [zip map]; try reflexivity.
  cbn [fst snd]. rewrite IH. f_equal. apply vec_scale_comm.
Qed.

(** ** Norm *)

Lemma map_snd_zip {A B} (a : list A) (b : list B) :
  map snd (zip a b) = firstn (length a) b.
Proof.
  revert b. induction a as [|x a IH]; intros [|y b]; cbn; try reflexivity.
  rewrite IH. reflexivity.
Qed.

Lemma NoDup_firstn_of {A} (n : nat) (l : list A) : NoDup l -> NoDup (firstn n l).
Proof.
  intros H. rewrite <- (firstn_skipn n l) in H.
  revert H. generalize (skipn n l) as r. induction (firstn n l) as [|a f IH]; intros r H.
  - constructor.
  - cbn in H. inversion H as [|? ? Hnin Hnd]; subst. constructor.
    + intros Hin. apply Hnin. apply in_or_app. left. exact Hin.
    + eapply IH. exact Hnd.
Qed.

Lemma Norm_step_setitem (eps : R) (out : featmap) (p : vec * (nat * T2 cmat))
    (out' : featmap) :
  Norm_step eps out p = Ok out' ->
  exists t', mapM (mapM (Norm_node eps (fst p) (channels (snd (snd p))))) (snd (snd p)) = Ok t'
             /\ channels (snd (snd p)) <> 0%nat
             /\ out' = setitem out (fst (snd p)) t'.
Proof.
  destruct p as [scale [degree t]]. unfold Norm_step. cbn [fst snd]. intros H.
  destruct (Nat.eqb_spec (channels t) 0) as [E|E]; [discriminate H|].
  cbn [bind] in H. apply bind_Ok_inv in H. destruct H as (t' & Ht & H).
  injection H as <-. exists t'. repeat split; assumption.
Qed.

Lemma NoDup_app_apart {A} (a b : list A) (d : A) :
  NoDup (a ++ b) -> In d a -> ~ In d b.
Proof.
  induction a as [|x a IH]; intros Hnd Hin Hb; [destruct Hin|].
  cbn in Hnd. inversion Hnd as [|? ? Hnin Hnd']; subst.
  destruct Hin as [->|Hin].
  - apply Hnin. apply in_or_app. right. exact Hb.
  - exact (IH Hnd' Hin Hb).
Qed.

Lemma Norm_forward_keys (self : Norm) (features out : featmap) :
  NoDup (keys features) ->
  Norm_forward self features = Ok out ->
  keys out = firstn (length (Norm_transforms self)) (keys features).
Proof.
  intros Hnd H. unfold Norm_forward in H.
  assert (Hk : map (fun p : vec * (nat * T2 cmat) => fst (snd p))
                   (zip (Norm_transforms self) features)
               = firstn (length (Norm_transforms self)) (keys features)).
  { rewrite <- (map_map snd fst), map_snd_zip. unfold keys. symmetry. apply firstn_map. }
  apply (foldM_setitem_keys (fun p : vec * (nat * T2 cmat) => fst (snd p))) in H.
  - rewrite H. cbn [keys map app]. exact Hk.
  - intros acc p acc' Hs. apply Norm_step_setitem in Hs.
    destruct Hs as (t' & _ & _ & ->). exists t'. reflexivity.
  - cbn [keys map app]. rewrite Hk. apply NoDup_firstn_of. exact Hnd.
Qed.

(** X5. [Norm] pairs its scales with the input's tensors by position: the
    output holds the first [len(transforms)] degrees of the input, in the
    input's order, and no others. *)
Theorem Norm_forward_degrees (self : Norm) (features out : featmap) :
  NoDup (keys features) ->
  Norm_forward self features = Ok out ->
  keys out = firstn (length (Norm_transforms self)) (keys features)
  /\ (length (Norm_transforms self) < length features ->
      exists d, In d (keys features) /\ ~ In d (keys out))%nat.
Proof.
  intros Hnd H. pose proof (@Norm_forward_keys self features out Hnd H) as Hk.
  split; [exact Hk|]. intros Hlt.
  assert (Hlen : (length (Norm_transforms self) < length (keys features))%nat)
    by (unfold keys; rewrite length_map; exact Hlt).
  destruct (nth_error (keys features) (length (Norm_transforms self))) as [d|] eqn:Hd;
    [|apply nth_error_None in Hd; lia].
  exists d. split; [eapply nth_error_In; exact Hd|].
  rewrite Hk. intros Hin.
  rewrite <- (firstn_skipn (length (Norm_transforms self)) (keys features)) in Hnd.
  eapply NoDup_app_apart; [exact Hnd | exact Hin |].
  rewrite <- (firstn_skipn (length (Norm_transforms self)) (keys features)) in Hd.
  rewrite nth_error_app2 in Hd by (rewrite firstn_length_le; lia).
  rewrite firstn_length_le in Hd by lia. eapply nth_error_In. exact Hd.
Qed.

Lemma Norm_forward_degrees_witness :
  keys (from_ok (Norm_forward example_norm two_degree_features)) = [0%nat]
  /\ exists d, In d (keys two_degree_features)
               /\ ~ In d (keys (from_ok (Norm_forward example_norm two_degree_features))).
Proof.
  assert (Hnd : NoDup (keys two_degree_features))
    by (repeat constructor; cbn; intuition discriminate).
  destruct (@Norm_forward_degrees example_norm two_degree_features
              (from_ok (Norm_forward example_norm two_degree_features)) Hnd eq_refl)
    as (Hk & Hdrop).
  split; [exact Hk | apply Hdrop; cbn; lia].
Defined.

Lemma residual_fn_keys (x residual : featmap) :
  NoDup (keys x) -> keys (residual_fn x residual) = keys x.
Proof.
  intros Hnd.
  refine (eq_trans (f_equal keys (residual_fn_loop residual x [] Hnd)) _).
  cbn [app]. unfold keys.
  rewrite map_map. apply map_ext. intros [d t]. reflexivity.
Qed.

Lemma mapM_Ok_map {A B} (g : A -> B) (l : list A) :
  mapM (fun a => Ok (g a)) l = Ok (map g l).
Proof.
  induction l as [|a l IH]; cbn; [reflexivity|]. rewrite IH. reflexivity.
Qed.

Lemma setitem_Forall {A} (Q : A -> Prop) (d : dict A) (k : nat) (v : A) :
  Forall (fun kv => Q (snd kv)) d -> Q v -> Forall (fun kv => Q (snd kv)) (setitem d k v).
Proof.
  intros Hd Hv. induction d as [|[k' v'] d IH]; cbn.
  - constructor; [exact Hv | constructor].
  - inversion Hd as [|? ? Hh Ht]; subst.
    destruct (Nat.eqb k k'); constructor; auto.
Qed.

Lemma foldM_setitem_Forall {A B} (Q : B -> Prop) (step : dict B -> A -> result (dict B))
    (l : list A) :
  (forall out p out', In p l -> step out p = Ok out' ->
                      exists k v, out' = setitem out k v /\ Q v) ->
  forall acc out,
    Forall (fun kv => Q (snd kv)) acc ->
    foldM step l acc = Ok out ->
    Forall (fun kv => Q (snd kv)) out.
Proof.
  induction l as [|a l IH]; intros Hstep acc out Hacc H.
  - cbn in H. injection H as <-. exact Hacc.
  - cbn [foldM] in H. apply bind_Ok_inv in H. destruct H as (acc' & Ha & H).
    destruct (Hstep _ _ _ (or_introl eq_refl) Ha) as (k & v & -> & Hv).
    eapply IH; [| apply setitem_Forall; eassumption | exact H].
    intros out0 p out' Hin. apply Hstep. right. exact Hin.
Qed.

Lemma Norm_init_transforms (fiber_ : fiber) (eps : R) (norm : Norm) :
  Norm_init fiber_ eps = Ok norm ->
  Norm_eps norm = eps /\ Forall (Forall (eq 1)) (Norm_transforms norm).
Proof.
  unfold Norm_init. intros H. apply bind_Ok_inv in H. destruct H as (ts & Hts & H).
  injection H as <-. cbn [Norm_eps Norm_transforms]. split; [reflexivity|].
  apply mapM_Forall in Hts. eapply Forall_impl; [|exact Hts].
  intros scale (dim_ & _ & Hs). apply bind_Ok_inv in Hs. destruct Hs as (n & _ & Hs).
  injection Hs as <-. apply Forall_forall. intros x Hx. symmetry. eapply repeat_spec. exact Hx.
Qed.

Lemma zip_ones_r (t : cmat) (scale : vec) (f : R -> R) :
  Forall (eq 1) scale -> length t = length scale ->
  map (fun p : vec * R => map (fun x => f x * snd p) (fst p)) (zip t scale)
  = map (map f) t.
Proof.
  intros Hs. revert t. induction Hs as [|s scale <- _ IH]; intros [|row t] Hl;
    try discriminate Hl; [reflexivity|].
  cbn [zip map fst snd]. rewrite IH by (cbn in Hl; lia). f_equal.
  apply map_ext. intros x. ring.
Qed.

Lemma Norm_node_unit_rms (eps : R) (scale : vec) (t t' : cmat) :
  0 < eps -> Forall (eq 1) scale -> length t = length scale ->
  eps <= rms_node (length t) t ->
  Norm_node eps scale (length t) t = Ok t' ->
  length t' = length t /\ rms_node (length t') t' = 1.
Proof.
  intros He Hs Hl Hr H. unfold Norm_node, broadcast2 in H.
  rewrite Hl, Nat.eqb_refl in H.
  rewrite (mapM_Ok_map (fun p : vec * R =>
             map (fun x => x / Rmax (rms_node (length scale) t) eps * snd p) (fst p))) in H.
  injection H as <-.
  rewrite (zip_ones_r t (fun x => x / Rmax (rms_node (length scale) t) eps) Hs Hl).
  rewrite length_map. split; [reflexivity|].
  rewrite <- Hl. rewrite Rmax_left by exact Hr.
  set (rms := rms_node (length t) t) in *.
  assert (Hpos : 0 < rms) by lra.
  replace (map (map (fun x => x / rms)) t) with (map (map (Rmult (/ rms))) t).
  - rewrite rms_node_scale by (apply Rlt_le, Rinv_0_lt_compat; exact Hpos).
    change (rms_node (length t) t) with rms. apply Rinv_l. lra.
  - apply map_ext. intros row. apply map_ext. intros x. unfold Rdiv. ring.
Qed.

Lemma channels_of_node (t : T2 cmat) (n : nat) :
  channels t <> 0%nat ->
  Forall (Forall (fun node : cmat => length node = n)) t ->
  channels t = n.
Proof.
  unfold channels. intros Hc Ht.
  destruct t as [|[|node row] t]; cbn [hd length] in Hc |- *; try congruence.
  exact (Forall_inv (Forall_inv Ht)).
Qed.

(** X6. A [Norm] as constructed (scales of ones) normalises: every node of
    its output has root mean square 1, provided each input tensor has the
    channel count of its scale and each input node a root mean square of at
    least [eps]. *)
Theorem Norm_forward_unit_rms (fiber_ : fiber) (eps : R) (self : Norm)
    (features out : featmap) :
  Norm_init fiber_ eps = Ok self ->
  0 < eps ->
  Forall (above_eps eps) (zip (Norm_transforms self) features) ->
  Norm_forward self features = Ok out ->
  all_nodes (fun node => rms_node (length node) node = 1) out.
Proof.
  intros Hinit He Hreg H. destruct (Norm_init_transforms _ _ Hinit) as (Heps & Hones).
  unfold Norm_forward in H. rewrite Heps in H. unfold all_nodes.
  apply (foldM_setitem_Forall
           (fun t : T2 cmat => Forall (Forall (fun node => rms_node (length node) node = 1)) t)
           (Norm_step eps) (zip (Norm_transforms self) features)) with (acc := []);
    [| constructor | exact H].
  intros acc p acc' Hin Hs. apply Norm_step_setitem in Hs.
  destruct Hs as (t' & Ht' & Hc & ->). exists (fst (snd p)), t'. split; [reflexivity|].
  pose proof (proj1 (Forall_forall _ _) Hreg p Hin) as Hp. unfold above_eps in Hp.
  assert (Hscale : Forall (eq 1) (fst p)).
  { destruct p as [scale kv]. apply (in_map fst) in Hin. cbn [fst].
    assert (Hsub : In scale (Norm_transforms self)).
    { clear - Hin. revert Hin. generalize features as fs.
      induction (Norm_transforms self) as [|s ts IH]; intros [|f fs] Hin; cbn in Hin;
        try contradiction.
      destruct Hin as [<-|Hin]; [left; reflexivity | right; eapply IH; exact Hin]. }
    exact (proj1 (Forall_forall _ _) Hones scale Hsub). }
  assert (Hch : channels (snd (snd p)) = length (fst p)).
  { apply channels_of_node; [exact Hc|].
    eapply Forall_impl; [|exact Hp]. intros row Hrow.
    eapply Forall_impl; [|exact Hrow]. intros node [Hn _]. exact Hn. }
  rewrite Hch in Ht'.
  apply Forall_forall. intros row' Hrow'.
  apply mapM_Forall in Ht'. pose proof (proj1 (Forall_forall _ _) Ht' row' Hrow') as (row & Hrow & Hm).
  apply Forall_forall. intros node' Hnode'.
  apply mapM_Forall in Hm. pose proof (proj1 (Forall_forall _ _) Hm node' Hnode') as (node & Hnode & Hn).
  pose proof (proj1 (Forall_forall _ _) (proj1 (Forall_forall _ _) Hp row Hrow) node Hnode)
    as (Hlen & Hrms).
  rewrite <- Hlen in Hn.
  exact (proj2 (Norm_node_unit_rms He Hscale Hlen Hrms Hn)).
Qed.

Lemma Norm_forward_unit_rms_witness :
  all_nodes (fun node => rms_node (length node) node = 1)
            (scalar_features (1 / Rmax 1 default_eps * 1)).
Proof.
  pose proof default_eps_pos as He.
  apply (@Norm_forward_unit_rms [1%Z] default_eps example_norm (scalar_features 1)).
  - reflexivity.
  - exact He.
  - constructor; [|constructor]. unfold above_eps. cbn [snd fst example_norm Norm_transforms zip].
    repeat constructor. cbn [length]. rewrite rms_node_scalar by lra.
    unfold default_eps. lra.
  - apply Norm_forward_scalar. lra.
Defined.

(** ** Gate *)

Lemma split_channels_length (sizes : list Z) (t : T2 cmat) (parts : list (T2 cmat)) :
  split_channels sizes t = Ok parts -> length parts = length sizes.
Proof.
  unfold split_channels. intros H. apply bind_Ok_inv in H. destruct H as (sizes' & Hs & H).
  destruct (Nat.eqb _ _); [|discriminate H]. injection H as <-.
  rewrite length_map, length_seq. eapply mapM_length. exact Hs.
Qed.

Lemma Gate_forward_keys (g : Gate) (x out : featmap) :
  Gate_num_degrees g = length (Gate_type0_dim_split g) ->
  Gate_type0_dim_split g <> [] ->
  Gate_forward g x = Ok out ->
  keys out = seq 0 (Gate_num_degrees g).
Proof.
  intros Hn Hne H. unfold Gate_forward in H.
  apply bind_Ok_inv in H. destruct H as (t0 & _ & H).
  apply bind_Ok_inv in H. destruct H as (parts & Hparts & H).
  apply bind_Ok_inv in H. destruct H as (t0' & _ & H).
  apply split_channels_length in Hparts.
  assert (Hpos : (0 < Gate_num_degrees g)%nat).
  { rewrite Hn. destruct (Gate_type0_dim_split g); [congruence | cbn; lia]. }
  assert (Hg : length (removelast parts) = (Gate_num_degrees g - 1)%nat).
  { destruct parts as [|p0 parts] using rev_ind; [cbn in Hparts; lia|].
    rewrite removelast_last. rewrite length_app in Hparts. cbn [length] in Hparts. lia. }
  apply (foldM_setitem_keys fst) in H.
  - rewrite H. cbn [keys map app fst].
    rewrite map_fst_zip by (rewrite length_seq; lia).
    destruct (Gate_num_degrees g) as [|k]; [lia|].
    replace (S k - 1)%nat with k by lia. reflexivity.
  - intros acc [degree gate] acc' Hs. apply bind_Ok_inv in Hs.
    destruct Hs as (xd & _ & Hs). apply bind_Ok_inv in Hs.
    destruct Hs as (t & _ & Hs). injection Hs as <-. eexists. reflexivity.
  - cbn [keys map app fst].
    rewrite map_fst_zip by (rewrite length_seq; lia).
    destruct (Gate_num_degrees g) as [|k]; [lia|].
    replace (S k - 1)%nat with k by lia.
    change (NoDup (seq 0 (S k))). apply seq_NoDup.
Qed.

Lemma zsum_app (a b : list Z) : zsum (a ++ b) = (zsum a + zsum b)%Z.
Proof.
  unfold zsum. induction a as [|x a IH]; cbn [app fold_right]; lia.
Qed.

Lemma Gate_init_structure (fiber_ : fiber) (g : Gate) :
  Gate_init fiber_ = Ok g ->
  Gate_num_degrees g = length fiber_
  /\ length (Gate_type0_dim_split g) = length fiber_
  /\ Gate_type0_dim_split g <> []
  /\ zsum (Gate_type0_dim_split g) = hd 0%Z fiber_
  /\ (0 < last (Gate_type0_dim_split g) 0)%Z.
Proof.
  unfold Gate_init. destruct fiber_ as [|type0_dim rest]; [discriminate|]. intros H.
  apply bind_Ok_inv in H. destruct H as (u & Ha & H). injection H as <-.
  cbn [Gate_num_degrees Gate_type0_dim_split hd].
  unfold assert in Ha. destruct (Z.ltb_spec (zsum rest) type0_dim) as [Hlt|]; [|discriminate Ha].
  repeat split.
  - rewrite length_app. cbn. lia.
  - destruct rest; discriminate.
  - rewrite zsum_app. unfold zsum at 2. cbn [fold_right]. lia.
  - rewrite last_last. lia.
Qed.

(** X7. A [Gate] built on a fiber keeps a positive number of degree-0
    channels after the gates are split off, and returns one tensor for
    every degree of the fiber, in ascending order, whatever further degrees
    its input holds. *)
Theorem Gate_forward_degrees (fiber_ : fiber) (g : Gate) (x out : featmap) :
  Gate_init fiber_ = Ok g ->
  Gate_forward g x = Ok out ->
  keys out = seq 0 (length fiber_)
  /\ (0 < hd 0%Z fiber_ - zsum (tl fiber_))%Z.
Proof.
  intros Hinit H.
  destruct (Gate_init_structure _ Hinit) as (Hn & Hl & Hne & Hsum & Hlast).
  split.
  - rewrite <- Hn. apply (Gate_forward_keys g x); [congruence | exact Hne | exact H].
  - unfold Gate_init in Hinit. destruct fiber_ as [|type0_dim rest]; [discriminate Hinit|].
    apply bind_Ok_inv in Hinit. destruct Hinit as (u & Ha & _).
    unfold assert in Ha. cbn [hd tl].
    destruct (Z.ltb_spec (zsum rest) type0_dim) as [Hlt|]; [lia | discriminate Ha].
Qed.

Lemma Gate_forward_degrees_witness :
  keys (from_ok (Gate_forward example_gate gate_features)) = [0%nat; 1%nat]
  /\ (0 < 2 - 1)%Z.
Proof.
  exact (@Gate_forward_degrees [2%Z; 1%Z] example_gate gate_features
           (from_ok (Gate_forward example_gate gate_features)) eq_refl eq_refl).
Defined.

(** ** FeedForward *)

Lemma check_size_nonneg (d : Z) : (0 <= d)%Z -> check_size d = Ok (Z.to_nat d).
Proof.
  intros H. unfold check_size. destruct (Z.ltb_spec d 0); [lia | reflexivity].
Qed.

Lemma foldM_ok {A B} (step : B -> A -> result B) (l : list A) :
  (forall acc a, In a l -> exists acc', step acc a = Ok acc') ->
  forall acc, exists out, foldM step l acc = Ok out.
Proof.
  induction l as [|a l IH]; intros Hstep acc.
  - exists acc. reflexivity.
  - destruct (Hstep acc a (or_introl eq_refl)) as (acc' & Ha).
    destruct (IH (fun acc0 a0 Hin => Hstep acc0 a0 (or_intror Hin)) acc') as (out & Hout).
    exists out. cbn [foldM]. rewrite Ha. exact Hout.
Qed.

Lemma mapM_ok {A B} (f : A -> result B) (l : list A) :
  (forall a, In a l -> exists b, f a = Ok b) -> exists bs, mapM f l = Ok bs.
Proof.
  induction l as [|a l IH]; intros Hf.
  - exists []. reflexivity.
  - destruct (Hf a (or_introl eq_refl)) as (b & Hb).
    destruct (IH (fun a0 Hin => Hf a0 (or_intror Hin))) as (bs & Hbs).
    exists (b :: bs). cbn [mapM]. rewrite Hb, Hbs. reflexivity.
Qed.

Lemma nonneg_fiber_nth (fiber_ : fiber) (d : nat) :
  nonneg_fiber fiber_ -> (0 <= nth d fiber_ 0)%Z.
Proof.
  intros H. destruct (Nat.lt_ge_cases d (length fiber_)) as [Hlt|Hge].
  - exact (proj1 (Forall_forall _ _) H _ (nth_In _ _ Hlt)).
  - rewrite nth_overflow by exact Hge. lia.
Qed.

Lemma Linear_init_ok (ps : init_params) (fiber_in fiber_out : fiber) :
  nonneg_fiber fiber_in -> nonneg_fiber fiber_out ->
  exists l, Linear_init ps fiber_in fiber_out = Ok l.
Proof.
  intros Hin Hout. unfold Linear_init. rewrite fiber_and_explicit. cbn [bind].
  apply foldM_ok. intros acc [[d di] do_] Ht.
  apply in_map_iff in Ht. destruct Ht as (d' & Ht & _). injection Ht as <- <- <-.
  rewrite (check_size_nonneg (nonneg_fiber_nth d' Hin)).
  rewrite (check_size_nonneg (nonneg_fiber_nth d' Hout)).
  eexists. reflexivity.
Qed.

Lemma Norm_init_ok (fiber_ : fiber) (eps : R) :
  nonneg_fiber fiber_ -> exists norm, Norm_init fiber_ eps = Ok norm.
Proof.
  intros H. unfold Norm_init.
  destruct (mapM_ok (fun dim_ => n <- check_size dim_ ;; Ok (repeat 1 n)) fiber_) as (ts & Hts).
  - intros d Hd. rewrite (check_size_nonneg (proj1 (Forall_forall _ _) H d Hd)).
    eexists. reflexivity.
  - rewrite Hts. eexists. reflexivity.
Qed.

Lemma nonneg_fiber_scale (fiber_ : fiber) (mult : Z) :
  nonneg_fiber fiber_ -> (0 <= mult)%Z ->
  nonneg_fiber (map (fun dim_ => (dim_ * mult)%Z) fiber_).
Proof.
  intros H Hm. unfold nonneg_fiber in *. rewrite Forall_map.
  eapply Forall_impl; [|exact H]. cbn. intros d Hd. apply Z.mul_nonneg_nonneg; assumption.
Qed.

Lemma zsum_nonneg (l : list Z) : nonneg_fiber l -> (0 <= zsum l)%Z.
Proof.
  unfold zsum. induction 1 as [|x l Hx _ IH]; cbn [fold_right]; lia.
Qed.

(** X8. On a fiber of non-negative channel counts, a [FeedForward] can be
    built exactly when the hidden degree-0 width [fiber[0] * mult] is
    positive; otherwise its gate's assertion fails. *)
Theorem FeedForward_init_needs_type0 (ps : init_params) (type0_dim : Z) (rest : fiber)
    (fiber_out : option fiber) (mult : Z) :
  nonneg_fiber (type0_dim :: rest) ->
  nonneg_fiber (utils.default fiber_out (type0_dim :: rest)) ->
  (0 <= mult)%Z ->
  ((type0_dim * mult <= 0)%Z ->
     FeedForward_init ps (type0_dim :: rest) fiber_out mult
     = Err (AssertionError GateChannels))
  /\ ((0 < type0_dim * mult)%Z ->
        is_ok (FeedForward_init ps (type0_dim :: rest) fiber_out mult) = true).
Proof.
  intros Hf Hout Hm.
  pose proof (nonneg_fiber_scale Hf Hm) as Hh. cbn [map] in Hh.
  pose proof (Forall_inv_tail Hh) as Hrest. pose proof (zsum_nonneg Hrest) as Hgate.
  assert (Hin : nonneg_fiber
                  ((type0_dim * mult + zsum (map (fun dim_ => (dim_ * mult)%Z) rest))%Z
                     :: map (fun dim_ => (dim_ * mult)%Z) rest)).
  { constructor; [|exact Hrest]. pose proof (Forall_inv Hh). cbn in *. lia. }
  destruct (Norm_init_ok default_eps Hf) as (norm & Hnorm).
  destruct (Linear_init_ok (sub 0 ps) Hf Hin) as (pin & Hpin).
  destruct (Linear_init_ok (sub 1 ps) Hh Hout) as (pout & Hpout).
  unfold FeedForward_init. cbn [map tl bind].
  rewrite Hnorm. cbn [bind]. rewrite Hpin. cbn [bind].
  unfold Gate_init, assert.
  split; intros Hd.
  - destruct (Z.ltb_spec (zsum (map (fun dim_ => (dim_ * mult)%Z) rest))
                (type0_dim * mult + zsum (map (fun dim_ => (dim_ * mult)%Z) rest)));
      [lia | reflexivity].
  - destruct (Z.ltb_spec (zsum (map (fun dim_ => (dim_ * mult)%Z) rest))
                (type0_dim * mult + zsum (map (fun dim_ => (dim_ * mult)%Z) rest)));
      [|lia].
    cbn [bind]. rewrite Hpout. reflexivity.
Qed.

Lemma FeedForward_init_needs_type0_witness :
  FeedForward_init example_params [0%Z; 1%Z] None 4 = Err (AssertionError GateChannels)
  /\ is_ok (FeedForward_init example_params [1%Z; 1%Z] None 4) = true.
Proof.
  split.
  - apply (proj1 (@FeedForward_init_needs_type0 example_params 0 [1%Z] None 4
                    ltac:(repeat constructor; lia) ltac:(repeat constructor; cbn; lia)
                    ltac:(lia))).
    lia.
  - apply (proj2 (@FeedForward_init_needs_type0 example_params 1 [1%Z] None 4
                    ltac:(repeat constructor; lia) ltac:(repeat constructor; cbn; lia)
                    ltac:(lia))).
    lia.
Defined.

Lemma FeedForward_forward_keys (ps : init_params) (fiber_ : fiber)
    (fiber_out : option fiber) (mult : Z) (ff : FeedForward) (x out : featmap) :
  FeedForward_init ps fiber_ fiber_out mult = Ok ff ->
  FeedForward_forward ff x = Ok out ->
  keys out = seq 0 (common_degrees fiber_ (utils.default fiber_out fiber_)).
Proof.
  intros Hinit H. unfold FeedForward_init in Hinit.
  apply bind_Ok_inv in Hinit. destruct Hinit as (pin_fiber & _ & Hinit).
  apply bind_Ok_inv in Hinit. destruct Hinit as (prenorm & _ & Hinit).
  apply bind_Ok_inv in Hinit. destruct Hinit as (pin & _ & Hinit).
  apply bind_Ok_inv in Hinit. destruct Hinit as (gate & _ & Hinit).
  apply bind_Ok_inv in Hinit. destruct Hinit as (pout & Hpout & Hinit).
  injection Hinit as <-.
  unfold FeedForward_forward in H. cbn [FeedForward_project_out] in H.
  apply bind_Ok_inv in H. destruct H as (o1 & _ & H).
  apply bind_Ok_inv in H. destruct H as (o2 & _ & H).
  apply bind_Ok_inv in H. destruct H as (o3 & _ & H).
  rewrite (@Linear_forward_keys _ _ _ _ _ _ Hpout H).
  unfold common_degrees. rewrite length_map. reflexivity.
Qed.

(** ** Conv *)

Lemma pair_eqb_eq (p q : nat * nat) : pair_eqb p q = true <-> p = q.
Proof.
  destruct p as [a b], q as [c d]. unfold pair_eqb. cbn [fst snd].
  rewrite andb_true_iff, !Nat.eqb_eq. split.
  - intros [-> ->]. reflexivity.
  - intros H. injection H as -> ->. split; reflexivity.
Qed.

Lemma lookup2_setitem2 {A} (d : dict2 A) (k k' : nat * nat) (v : A) :
  lookup2 k (setitem2 d k' v) = if pair_eqb k k' then Some v else lookup2 k d.
Proof.
  induction d as [|[k'' v''] d IH]; cbn [setitem2 lookup2]; [reflexivity|].
  destruct (pair_eqb k' k'') eqn:E'; cbn [lookup2].
  - apply pair_eqb_eq in E'. subst k''. destruct (pair_eqb k k'); reflexivity.
  - rewrite IH. destruct (pair_eqb k k'') eqn:E''; [|reflexivity].
    destruct (pair_eqb k k') eqn:E; [|reflexivity].
    apply pair_eqb_eq in E, E''. subst. rewrite (proj2 (pair_eqb_eq k'' k'') eq_refl) in E'.
    discriminate E'.
Qed.

Lemma foldM_setitem2_lookup {A B} (key : A -> nat * nat) (Q : nat * nat -> B -> Prop)
    (step : dict2 B -> A -> result (dict2 B)) (l : list A) :
  (forall out p out', In p l -> step out p = Ok out' ->
                      exists v, out' = setitem2 out (key p) v /\ Q (key p) v) ->
  forall acc out,
    foldM step l acc = Ok out ->
    (forall k v, lookup2 k acc = Some v -> Q k v) ->
    (forall k v, lookup2 k out = Some v -> Q k v)
    /\ (forall k, lookup2 k acc <> None -> lookup2 k out <> None)
    /\ (forall p, In p l -> lookup2 (key p) out <> None).
Proof.
  induction l as [|a l IH]; intros Hstep acc out H Hacc.
  - cbn in H. injection H as <-. repeat split; [exact Hacc | auto | intros p []].
  - cbn [foldM] in H. apply bind_Ok_inv in H. destruct H as (acc' & Ha & H).
    destruct (Hstep _ _ _ (or_introl eq_refl) Ha) as (v & -> & Hv).
    destruct (IH (fun out0 p out' Hin => Hstep out0 p out' (or_intror Hin)) _ _ H)
      as (Hq & Hkeep & Hnew).
    + intros k v0. rewrite lookup2_setitem2. destruct (pair_eqb k (key a)) eqn:E.
      * apply pair_eqb_eq in E. subst k. intros Hs. injection Hs as <-. exact Hv.
      * apply Hacc.
    + repeat split; [exact Hq | |].
      * intros k Hk. apply Hkeep. rewrite lookup2_setitem2.
        destruct (pair_eqb k (key a)); [discriminate | exact Hk].
      * intros p [<-|Hin]; [|apply Hnew; exact Hin].
        apply Hkeep. rewrite lookup2_setitem2.
        rewrite (proj2 (pair_eqb_eq _ _) eq_refl). discriminate.
Qed.

Lemma fiber_product_In (fiber_in fiber_out : fiber) (di do_ : nat) (mi mo : Z) :
  In ((di, mi), (do_, mo)) (fiber_product fiber_in fiber_out)
  <-> nth_error fiber_in di = Some mi /\ nth_error fiber_out do_ = Some mo.
Proof.
  unfold fiber_product. rewrite in_prod_iff, !enumerate_In. reflexivity.
Qed.

(** X9. A constructed [Conv] holds one kernel for every pair of an input and
    an output degree, built for that pair's degrees and channel counts, so
    the lookups of the forward pass find their kernel; and a [Conv] with
    self-interaction is only ever constructed with pooling. *)
Theorem Conv_init_kernels (ps : init_params) (fiber_in fiber_out : fiber)
    (self_interaction pool : bool) (edge_dim_ : option Z) (splits_ : nat) (self : Conv) :
  Conv_init ps fiber_in fiber_out self_interaction pool edge_dim_ splits_ = Ok self ->
  (self_interaction = true -> pool = true /\ Conv_self_interact self <> None)
  /\ forall di do_ mi mo,
       nth_error fiber_in di = Some mi -> nth_error fiber_out do_ = Some mo ->
       exists k,
         getitem2 (Conv_kernel_unary self) (di, do_) = Ok k
         /\ PairwiseConv_degree_in k = di /\ PairwiseConv_degree_out k = do_
         /\ Z.of_nat (PairwiseConv_nc_in k) = mi /\ Z.of_nat (PairwiseConv_nc_out k) = mo
         /\ PairwiseConv_num_freq k = utils.to_order (Nat.min di do_).
Proof.
  unfold Conv_init. intros H.
  apply bind_Ok_inv in H. destruct H as (kernels & Hk & H).
  apply bind_Ok_inv in H. destruct H as (si & Hsi & H). injection H as <-.
  cbn [Conv_kernel_unary Conv_self_interact]. split.
  - intros ->. destruct pool; [|discriminate Hsi]. cbn [assert bind] in Hsi.
    apply bind_Ok_inv in Hsi. destruct Hsi as (l & _ & Hsi). injection Hsi as <-.
    split; [reflexivity | discriminate].
  - intros di do_ mi mo Hi Ho.
    pose (Q := fun (key : nat * nat) (k : PairwiseConv) =>
                 PairwiseConv_degree_in k = fst key /\ PairwiseConv_degree_out k = snd key
                 /\ nth_error fiber_in (fst key) = Some (Z.of_nat (PairwiseConv_nc_in k))
                 /\ nth_error fiber_out (snd key) = Some (Z.of_nat (PairwiseConv_nc_out k))
                 /\ PairwiseConv_num_freq k = utils.to_order (Nat.min (fst key) (snd key))).
    unshelve epose proof
      (@foldM_setitem2_lookup _ _
         (fun p : (nat * Z) * (nat * Z) => (fst (fst p), fst (snd p))) Q _ _ _ _ _ Hk _)
      as Hall.
    { intros out p out' Hin Hs.
      destruct p as [[di' mi'] [do' mo']]. cbn beta iota in Hs.
      apply fiber_product_In in Hin. destruct Hin as [Hi' Ho'].
      apply bind_Ok_inv in Hs. destruct Hs as (k & Hpk & Hs). injection Hs as <-.
      exists k. split; [reflexivity|]. unfold PairwiseConv_init in Hpk.
      apply bind_Ok_inv in Hpk. destruct Hpk as (nci & Hnci & Hpk).
      apply bind_Ok_inv in Hpk. destruct Hpk as (nco & Hnco & Hpk). injection Hpk as <-.
      unfold check_size in Hnci, Hnco.
      destruct (Z.ltb_spec mi' 0); [discriminate Hnci|]. injection Hnci as <-.
      destruct (Z.ltb_spec mo' 0); [discriminate Hnco|]. injection Hnco as <-.
      unfold Q. cbn [fst snd PairwiseConv_degree_in PairwiseConv_degree_out
                     PairwiseConv_nc_in PairwiseConv_nc_out PairwiseConv_num_freq].
      rewrite !Z2Nat.id by assumption. repeat split; auto. }
    { intros k v Hl. discriminate Hl. }
    destruct Hall as (Hq & _ & Hnew).
    pose proof (Hnew ((di, mi), (do_, mo)) (proj2 (fiber_product_In _ _ _ _ _ _) (conj Hi Ho)))
      as Hfound. cbn [fst snd] in Hfound.
    unfold getitem2.
    destruct (lookup2 (di, do_) kernels) as [k|] eqn:Hl; [|congruence].
    exists k. destruct (Hq _ _ Hl) as (H1 & H2 & H3 & H4 & H5). cbn [fst snd] in *.
    rewrite Hi in H3. rewrite Ho in H4. injection H3 as H3. injection H4 as H4.
    repeat split; auto.
Qed.

Lemma Conv_init_kernels_witness :
  exists k,
    getitem2 (Conv_kernel_unary (Equiformer_conv_in example_model)) (0%nat, 1%nat) = Ok k
    /\ PairwiseConv_degree_in k = 0%nat /\ PairwiseConv_degree_out k = 1%nat
    /\ Z.of_nat (PairwiseConv_nc_in k) = 1%Z /\ Z.of_nat (PairwiseConv_nc_out k) = 1%Z
    /\ PairwiseConv_num_freq k = utils.to_order (Nat.min 0 1).
Proof.
  apply (proj2 (@Conv_init_kernels (sub 3 example_params) [1%Z] [1%Z; 1%Z] true true None 4
                  (Equiformer_conv_in example_model) eq_refl)
           0%nat 1%nat 1%Z 1%Z eq_refl eq_refl).
Defined.

Lemma Conv_pool_step_setitem (accumulate : nat -> result (T3 vec))
    (nm : option (T3 bool)) (out : featmap) (p : nat * Z) (out' : featmap) :
  Conv_pool_step accumulate nm out p = Ok out' -> exists v, out' = setitem out (fst p) v.
Proof.
  destruct p as [degree_out m]. unfold Conv_pool_step. intros H.
  apply bind_Ok_inv in H. destruct H as (o & _ & H). injection H as <-.
  eexists. reflexivity.
Qed.

Lemma Conv_keep_step_setitem (accumulate : nat -> result (T3 vec))
    (out : dict (T3 cmat)) (p : nat * Z) (out' : dict (T3 cmat)) :
  Conv_keep_step accumulate out p = Ok out' -> exists v, out' = setitem out (fst p) v.
Proof.
  destruct p as [degree_out m]. unfold Conv_keep_step. intros H.
  apply bind_Ok_inv in H. destruct H as (o & _ & H). injection H as <-.
  eexists. reflexivity.
Qed.

Lemma Conv_forward_keys (self : Conv) (inp : featmap) (edge_info_ : edge_info)
    (rel_dist : T3 R) (basis : basis_dict) (out : conv_output) :
  Conv_forward self inp edge_info_ rel_dist basis = Ok out ->
  conv_output_keys out = seq 0 (length (Conv_fiber_out self))
  /\ is_pooled out = Conv_pool self.
Proof.
  unfold Conv_forward. destruct edge_info_ as [[neighbor_indices neighbor_masks] edges].
  intros H. apply bind_Ok_inv in H. destruct H as (outputs & Ho & H).
  assert (Hkeys : conv_output_keys outputs = seq 0 (length (Conv_fiber_out self))
                  /\ is_pooled outputs = Conv_pool self).
  { destruct (Conv_pool self).
    - apply bind_Ok_inv in Ho. destruct Ho as (o & Hf & Ho). injection Ho as <-.
      apply (foldM_setitem_keys fst) in Hf.
      + cbn [conv_output_keys is_pooled]. rewrite Hf. cbn [keys map app].
        rewrite enumerate_keys. split; reflexivity.
      + intros acc p acc'. apply Conv_pool_step_setitem.
      + cbn [keys map app]. rewrite enumerate_keys. apply seq_NoDup.
    - apply bind_Ok_inv in Ho. destruct Ho as (o & Hf & Ho). injection Ho as <-.
      apply (foldM_setitem_keys fst) in Hf.
      + cbn [conv_output_keys is_pooled]. rewrite Hf. cbn [keys map app].
        rewrite enumerate_keys. split; reflexivity.
      + intros acc p acc'. apply Conv_keep_step_setitem.
      + cbn [keys map app]. rewrite enumerate_keys. apply seq_NoDup. }
  destruct (Conv_self_interaction self); [|injection H as <-; exact Hkeys].
  apply bind_Ok_inv in H. destruct H as (l & _ & H).
  apply bind_Ok_inv in H. destruct H as (si & _ & H).
  destruct outputs as [o|o]; [|discriminate H]. injection H as <-.
  destruct Hkeys as [Hk Hp]. cbn [conv_output_keys is_pooled] in *.
  split; [|exact Hp].
  rewrite residual_fn_keys by (rewrite Hk; apply seq_NoDup). exact Hk.
Qed.

(** X10. A constructed [Conv] returns one tensor for every degree of its
    output fiber, in ascending order, pooled over the neighbors exactly when
    it was built with [pool]; the self-interaction adds to these degrees and
    brings no further ones. *)
Theorem Conv_forward_degrees (ps : init_params) (fiber_in fiber_out : fiber)
    (self_interaction pool : bool) (edge_dim_ : option Z) (splits_ : nat) (self : Conv)
    (inp : featmap) (edge_info_ : edge_info) (rel_dist : T3 R) (basis : basis_dict)
    (out : conv_output) :
  Conv_init ps fiber_in fiber_out self_interaction pool edge_dim_ splits_ = Ok self ->
  Conv_forward self inp edge_info_ rel_dist basis = Ok out ->
  conv_output_keys out = seq 0 (length fiber_out) /\ is_pooled out = pool.
Proof.
  intros Hinit H. destruct (Conv_init_fields _ _ _ _ _ _ _ Hinit) as (Hp & Hf).
  destruct (@Conv_forward_keys _ _ _ _ _ _ H) as (Hk & Hpool).
  rewrite Hf in Hk. rewrite Hp in Hpool. split; assumption.
Qed.

Lemma Conv_forward_degrees_witness :
  conv_output_keys
    (from_ok (Conv_forward (Equiformer_conv_in example_model) example_feats
                example_edge_info (sel_neighbor_rel_dist example_selection)
                example_conv_basis))
  = [0%nat; 1%nat]
  /\ is_pooled
       (from_ok (Conv_forward (Equiformer_conv_in example_model) example_feats
                   example_edge_info (sel_neighbor_rel_dist example_selection)
                   example_conv_basis))
     = true.
Proof.
  exact (@Conv_forward_degrees (sub 3 example_params) [1%Z] [1%Z; 1%Z] true true None 4
           (Equiformer_conv_in example_model) example_feats
           example_edge_info (sel_neighbor_rel_dist example_selection)
           example_conv_basis _ eq_refl eq_refl).
Defined.

(** ** Attention *)

Lemma mapM_ok_In {A B} (f : A -> result B) (l : list A) (bs : list B) :
  mapM f l = Ok bs -> forall a, In a l -> exists b, f a = Ok b.
Proof.
  revert bs. induction l as [|x l IH]; intros bs H a Hin; [destruct Hin|].
  cbn [mapM] in H. apply bind_Ok_inv in H. destruct H as (b & Hb & H).
  apply bind_Ok_inv in H. destruct H as (bs' & Hbs & _).
  destruct Hin as [<-|Hin]; [exists b; exact Hb | eapply IH; eassumption].
Qed.

Lemma Attention_init_structure (ps : init_params) (fiber_ : fiber)
    (dim_head_ heads_ : utils.int_or_tuple) (attend_self_ : bool)
    (edge_dim_ : option Z) (splits_ : nat) (attn : Attention) :
  Attention_init ps fiber_ dim_head_ heads_ attend_self_ edge_dim_ splits_ = Ok attn ->
  length (utils.cast_tuple dim_head_ (length fiber_)) = length fiber_
  /\ length (utils.cast_tuple heads_ (length fiber_)) = length fiber_
  /\ Forall (fun d => d <> 0%Z) (utils.cast_tuple dim_head_ (length fiber_))
  /\ length (Attention_scale attn) = length fiber_
  /\ Attention_heads attn = utils.cast_tuple heads_ (length fiber_)
  /\ Attention_attend_self attn = attend_self_
  /\ (exists ps', Linear_init ps'
                    (map2 Z.mul (utils.cast_tuple dim_head_ (length fiber_))
                                (utils.cast_tuple heads_ (length fiber_)))
                    fiber_ = Ok (Attention_to_out attn))
  /\ Conv_pool (Attention_to_k attn) = false /\ Conv_pool (Attention_to_v attn) = false.
Proof.
  unfold Attention_init. intros H.
  apply bind_Ok_inv in H. destruct H as (u1 & Hdh & H).
  apply assert_Ok_inv, Nat.eqb_eq in Hdh.
  apply bind_Ok_inv in H. destruct H as (u2 & Hh & H).
  apply assert_Ok_inv, Nat.eqb_eq in Hh.
  apply bind_Ok_inv in H. destruct H as (scale & Hscale & H).
  apply bind_Ok_inv in H. destruct H as (prenorm & _ & H).
  apply bind_Ok_inv in H. destruct H as (to_q & _ & H).
  apply bind_Ok_inv in H. destruct H as (to_v & Hv & H).
  apply bind_Ok_inv in H. destruct H as (to_k & Hk & H).
  apply bind_Ok_inv in H. destruct H as (to_out & Hout & H).
  apply bind_Ok_inv in H. destruct H as (self_kv & _ & H).
  injection H as <-.
  cbn [Attention_scale Attention_heads Attention_attend_self Attention_to_out
       Attention_to_k Attention_to_v].
  apply Conv_init_fields in Hv, Hk.
  repeat split; try assumption; try tauto.
  - apply Forall_forall. intros d Hd.
    destruct (mapM_ok_In _ _ Hscale d Hd) as (s & Hs). unfold inv_sqrt in Hs.
    destruct (Z.eqb_spec d 0); [discriminate Hs | assumption].
  - rewrite (mapM_length _ _ Hscale). exact Hdh.
  - eexists. exact Hout.
Qed.

Lemma map2_length {A B C} (f : A -> B -> C) (a : list A) (b : list B) :
  length (map2 f a b) = Nat.min (length a) (length b).
Proof.
  unfold map2. rewrite length_map. apply zip_length.
Qed.

Lemma Attention_forward_keys (ps : init_params) (fiber_ : fiber)
    (dim_head_ heads_ : utils.int_or_tuple) (attend_self_ : bool)
    (edge_dim_ : option Z) (splits_ : nat) (attn : Attention)
    (features : featmap) (edge_info_ : edge_info) (rel_dist : T3 R)
    (basis : basis_dict) (mask : option (T2 bool)) (out : featmap) :
  Attention_init ps fiber_ dim_head_ heads_ attend_self_ edge_dim_ splits_ = Ok attn ->
  Attention_forward attn features edge_info_ rel_dist basis mask = Ok out ->
  keys out = seq 0 (length fiber_).
Proof.
  intros Hinit H.
  destruct (Attention_init_structure _ _ _ _ _ _ _ Hinit)
    as (Hdh & Hh & _ & _ & _ & _ & (ps' & Hout) & _).
  unfold Attention_forward in H. destruct edge_info_ as [[ni nm] e].
  apply bind_Ok_inv in H. destruct H as (u & _ & H).
  apply bind_Ok_inv in H. destruct H as (f1 & _ & H).
  apply bind_Ok_inv in H. destruct H as (q & _ & H).
  apply bind_Ok_inv in H. destruct H as (k & _ & H).
  apply bind_Ok_inv in H. destruct H as (v & _ & H).
  apply bind_Ok_inv in H. destruct H as (k' & _ & H).
  apply bind_Ok_inv in H. destruct H as (v' & _ & H).
  apply bind_Ok_inv in H. destruct H as (skv & _ & H).
  apply bind_Ok_inv in H. destruct H as (outputs & _ & H).
  rewrite (@Linear_forward_keys _ _ _ _ _ _ Hout H).
  unfold common_degrees. rewrite map2_length, Hdh, Hh, !Nat.min_id. reflexivity.
Qed.

(** X11. An [Attention] is only ever constructed with a [dim_head] and a
    [heads] entry for every degree of its fiber and no [dim_head] of zero,
    its key and value convolutions keep the neighbor axis, and its forward
    pass returns one tensor for every degree of the fiber, in ascending
    order. *)
Theorem Attention_forward_degrees (ps : init_params) (fiber_ : fiber)
    (dim_head_ heads_ : utils.int_or_tuple) (attend_self_ : bool)
    (edge_dim_ : option Z) (splits_ : nat) (attn : Attention)
    (features : featmap) (edge_info_ : edge_info) (rel_dist : T3 R)
    (basis : basis_dict) (mask : option (T2 bool)) (out : featmap) :
  Attention_init ps fiber_ dim_head_ heads_ attend_self_ edge_dim_ splits_ = Ok attn ->
  Attention_forward attn features edge_info_ rel_dist basis mask = Ok out ->
  keys out = seq 0 (length fiber_)
  /\ length (utils.cast_tuple dim_head_ (length fiber_)) = length fiber_
  /\ length (utils.cast_tuple heads_ (length fiber_)) = length fiber_
  /\ Forall (fun d => d <> 0%Z) (utils.cast_tuple dim_head_ (length fiber_))
  /\ Conv_pool (Attention_to_k attn) = false /\ Conv_pool (Attention_to_v attn) = false.
Proof.
  intros Hinit H.
  destruct (Attention_init_structure _ _ _ _ _ _ _ Hinit)
    as (Hdh & Hh & Hnz & _ & _ & _ & _ & Hk & Hv).
  split; [eapply Attention_forward_keys; eassumption|].
  repeat split; assumption.
Qed.

Lemma Attention_forward_degrees_witness :
  match Attention_forward example_attention example_conv_out example_edge_info
          (sel_neighbor_rel_dist example_selection) example_conv_basis None with
  | Ok out =>
      keys out = [0%nat; 1%nat]
      /\ length (utils.cast_tuple (utils.Int 1) 2) = 2%nat
      /\ length (utils.cast_tuple (utils.Int 1) 2) = 2%nat
      /\ Forall (fun d => d <> 0%Z) (utils.cast_tuple (utils.Int 1) 2)
      /\ Conv_pool (Attention_to_k example_attention) = false
      /\ Conv_pool (Attention_to_v example_attention) = false
  | Err _ => False
  end.
Proof.
  assert (Hok : is_ok (Attention_forward example_attention example_conv_out
                         example_edge_info (sel_neighbor_rel_dist example_selection)
                         example_conv_basis None) = true)
    by (lazy; reflexivity).
  destruct (Attention_forward example_attention example_conv_out example_edge_info
              (sel_neighbor_rel_dist example_selection) example_conv_basis None)
    as [out|e] eqn:E; [|discriminate Hok].
  exact (@Attention_forward_degrees (sub 0 (sub 0 (sub 4 example_params))) [1%Z; 1%Z]
           (utils.Int 1) (utils.Int 1) true None 4 example_attention
           example_conv_out example_edge_info
           (sel_neighbor_rel_dist example_selection) example_conv_basis None out
           eq_refl E).
Defined.

(** ** The degrees a model returns *)

Lemma Equiformer_init_built (ps : init_params) (c : config) (self : Equiformer) :
  Equiformer_init ps c = Ok self ->
  built_on (utils.cast_tuple (dim c) (num_degrees c)) self.
Proof.
  intros H. unfold Equiformer_init in H.
  set (self_dim := utils.cast_tuple (dim c) (num_degrees c)) in *.
  do 8 (apply bind_Ok_inv in H; destruct H as (? & _ & H)).
  apply bind_Ok_inv in H. destruct H as (conv_in & Hconv & H).
  apply bind_Ok_inv in H. destruct H as (layers & Hlayers & H).
  apply bind_Ok_inv in H. destruct H as (norm & Hnorm & H).
  apply bind_Ok_inv in H. destruct H as (ff_out & Hff & H).
  injection H as <-. unfold built_on.
  cbn [Equiformer_conv_in Equiformer_layers Equiformer_norm Equiformer_ff_out].
  split; [do 4 eexists; exact Hconv|].
  split; [|split; [exact Hnorm|]].
  - apply mapM_Forall in Hlayers. eapply Forall_impl; [|exact Hlayers].
    intros [attn ff] (ind & _ & Hl).
    apply bind_Ok_inv in Hl. destruct Hl as (attn' & Hattn & Hl).
    apply bind_Ok_inv in Hl. destruct Hl as (ff' & Hfeed & Hl).
    injection Hl as <- <-. cbn [fst snd].
    split; [do 6 eexists; exact Hattn | eexists; exact Hfeed].
  - destruct (reduce_dim_out c); [|injection Hff as <-; exact I].
    destruct (linear_out c).
    + apply bind_Ok_inv in Hff. destruct Hff as (l & Hl & Hff). injection Hff as <-.
      eexists. exact Hl.
    + apply bind_Ok_inv in Hff. destruct Hff as (f & Hf & Hff). injection Hff as <-.
      eexists. exact Hf.
Qed.

Lemma mapM_values_keys {A B} (f : A -> result B) (d : dict A) (out : dict B) :
  NoDup (keys d) -> mapM_values f d = Ok out -> keys out = keys d.
Proof.
  intros Hnd H. unfold mapM_values in H.
  apply (foldM_setitem_keys fst) in H.
  - exact H.
  - intros acc p acc' Hs. apply bind_Ok_inv in Hs. destruct Hs as (v & _ & Hs).
    injection Hs as <-. eexists. reflexivity.
  - exact Hnd.
Qed.

Lemma lookup_keys {A} (k : nat) (d : dict A) : In k (keys d) -> lookup k d <> None.
Proof.
  induction d as [|[k' v'] d IH]; cbn; [tauto|].
  intros [->|Hin].
  - rewrite Nat.eqb_refl. discriminate.
  - destruct (Nat.eqb k k'); [discriminate | apply IH; exact Hin].
Qed.

Lemma firstn_seq (n m : nat) : firstn n (seq 0 m) = seq 0 (Nat.min n m).
Proof.
  generalize 0%nat as s. revert m. induction n as [|n IH]; intros [|m] s; cbn; try reflexivity.
  rewrite IH. reflexivity.
Qed.

Section TrunkDegrees.

Variable get_basis : T3 vec -> Z -> bool -> basis_dict.

Lemma layers_keys (fiber_ : fiber) (layers : list (Attention * FeedForward))
    (ei : edge_info) (rel_dist : T3 R) (basis : basis_dict) (mask_ : option (T2 bool))
    (x x' : featmap) :
  Forall (fun layer : Attention * FeedForward =>
            (exists ps dim_head_ heads_ attend_self_ edge_dim_ splits_,
                Attention_init ps fiber_ dim_head_ heads_ attend_self_ edge_dim_ splits_
                = Ok (fst layer))
            /\ (exists ps, FeedForward_init ps fiber_ None 4 = Ok (snd layer)))
         layers ->
  keys x = seq 0 (length fiber_) ->
  foldM (fun x (layer : Attention * FeedForward) =>
           let (attn, ff) := layer in
           a <- Attention_forward attn x ei rel_dist basis mask_ ;;
           let x := residual_fn a x in
           f <- FeedForward_forward ff x ;;
           Ok (residual_fn f x))
        layers x = Ok x' ->
  keys x' = seq 0 (length fiber_).
Proof.
  intros Hall. revert x.
  induction Hall as [|[attn ff] layers [Hattn Hff] _ IH]; intros x Hx H.
  - cbn [foldM] in H. injection H as <-. exact Hx.
  - cbn [foldM] in H. apply bind_Ok_inv in H. destruct H as (x1 & Hstep & H).
    apply (IH x1); [|exact H].
    apply bind_Ok_inv in Hstep. destruct Hstep as (a & Ha & Hstep).
    apply bind_Ok_inv in Hstep. destruct Hstep as (f & Hf & Hstep).
    injection Hstep as <-.
    cbn [fst snd] in Hattn, Hff.
    destruct Hattn as (ps1 & dh & h & a_s & ed & sp & Hattn). destruct Hff as (ps2 & Hff).
    pose proof (@FeedForward_forward_keys _ _ _ _ _ _ _ Hff Hf) as Hk.
    cbn [utils.default] in Hk. unfold common_degrees in Hk. rewrite Nat.min_id in Hk.
    rewrite residual_fn_keys by (rewrite Hk; apply seq_NoDup). exact Hk.
Qed.

Lemma trunk_keys (fiber_ : fiber) (self : Equiformer) (args : forward_args)
    (feats : featmap) (sel : selection) (x : dict tensor) :
  built_on fiber_ self ->
  trunk get_basis self args feats sel = Ok x ->
  keys x = seq 0 (length fiber_).
Proof.
  intros ((psc & fin & ed & sp & Hconv) & Hlayers & Hnorm & Hff) H. unfold trunk in H.
  apply bind_Ok_inv in H. destruct H as (o & Ho & H).
  apply bind_Ok_inv in H. destruct H as (x1 & Hx1 & H).
  apply bind_Ok_inv in H. destruct H as (x2 & Hx2 & H).
  apply bind_Ok_inv in H. destruct H as (x3 & Hx3 & H).
  apply bind_Ok_inv in H. destruct H as (x4 & Hx4 & H).
  assert (K1 : keys x1 = seq 0 (length fiber_)).
  { destruct (@Conv_forward_keys _ _ _ _ _ _ Ho) as (Hk & _).
    destruct (Conv_init_fields _ _ _ _ _ _ _ Hconv) as (_ & Hf). rewrite Hf in Hk.
    destruct o as [d|d]; [|discriminate Hx1]. injection Hx1 as <-. exact Hk. }
  pose proof (@layers_keys _ _ _ _ _ _ _ _ Hlayers K1 Hx2) as K2.
  assert (K3 : keys x3 = seq 0 (length fiber_)).
  { rewrite (@Norm_forward_keys _ _ _ ltac:(rewrite K2; apply seq_NoDup) Hx3).
    rewrite (Norm_init_length _ _ Hnorm), K2, firstn_seq, Nat.min_id. reflexivity. }
  assert (K4 : keys x4 = seq 0 (length fiber_)).
  { destruct (Equiformer_ff_out self) as [[l|f]|].
    - destruct Hff as (psl & Hl).
      apply bind_Ok_inv in Hx4. destruct Hx4 as (x3' & Hp & Hx4).
      cbn [proj_out_forward] in Hp.
      pose proof (@Linear_forward_keys _ _ _ _ _ _ Hl Hp) as Hk.
      unfold common_degrees in Hk. rewrite repeat_length, Nat.min_id in Hk.
      rewrite (@mapM_values_keys _ _ _ _ _ ltac:(rewrite Hk; apply seq_NoDup) Hx4). exact Hk.
    - destruct Hff as (psf & Hf).
      apply bind_Ok_inv in Hx4. destruct Hx4 as (x3' & Hp & Hx4).
      cbn [proj_out_forward] in Hp.
      pose proof (@FeedForward_forward_keys _ _ _ _ _ _ _ Hf Hp) as Hk.
      cbn [utils.default] in Hk. unfold common_degrees in Hk.
      rewrite repeat_length, Nat.min_id in Hk.
      rewrite (@mapM_values_keys _ _ _ _ _ ltac:(rewrite Hk; apply seq_NoDup) Hx4). exact Hk.
    - rewrite (@mapM_values_keys _ _ _ _ _ ltac:(rewrite K3; apply seq_NoDup) Hx4). exact K3. }
  destruct (arg_return_pooled args).
  - rewrite (@mapM_values_keys _ _ _ _ _ ltac:(rewrite K4; apply seq_NoDup) H). exact K4.
  - injection H as <-. exact K4.
Qed.

(** X12. For a constructed model, the feature map the trunk hands to the
    return stage holds exactly the degrees [0 .. num_degrees - 1], in
    ascending order, whatever the depth, the output projection and the
    pooling; with two degrees or more the return stage finds both tensors
    it reads. *)
Theorem trunk_degrees (ps : init_params) (c : config) (self : Equiformer)
    (args : forward_args) (feats : featmap) (sel : selection) (x : dict tensor) :
  Equiformer_init ps c = Ok self ->
  trunk get_basis self args feats sel = Ok x ->
  keys x = seq 0 (num_degrees c)
  /\ ((2 <= num_degrees c)%nat ->
      exists t0 t1, getitem x 0%nat = Ok t0 /\ getitem x 1%nat = Ok t1).
Proof.
  intros Hinit H.
  destruct (Equiformer_init_num_degrees _ _ Hinit) as (Hlen & _).
  pose proof (trunk_keys _ _ _ (Equiformer_init_built _ _ Hinit) H) as Hk.
  rewrite Hlen in Hk. split; [exact Hk|]. intros H2.
  assert (H0 : lookup 0 x <> None)
    by (apply lookup_keys; rewrite Hk; apply in_seq; lia).
  assert (H1 : lookup 1 x <> None)
    by (apply lookup_keys; rewrite Hk; apply in_seq; lia).
  unfold getitem.
  destruct (lookup 0 x) as [t0|]; [|congruence].
  destruct (lookup 1 x) as [t1|]; [|congruence].
  exists t0, t1. split; reflexivity.
Qed.

End TrunkDegrees.

Lemma trunk_degrees_witness :
  match trunk example_basis example_model (example_args 2) example_feats example_selection with
  | Ok x =>
      keys x = [0%nat; 1%nat]
      /\ exists t0 t1, getitem x 0%nat = Ok t0 /\ getitem x 1%nat = Ok t1
  | Err _ => False
  end.
Proof.
  assert (Hok : is_ok (trunk example_basis example_model (example_args 2) example_feats
                         example_selection) = true)
    by (lazy; reflexivity).
  destruct (trunk example_basis example_model (example_args 2) example_feats
              example_selection) as [x|e] eqn:E; [|discriminate Hok].
  destruct (@trunk_degrees example_basis example_params (example_config 2 Infinite)
              example_model (example_args 2) example_feats example_selection x eq_refl E)
    as (Hk & Hget).
  split; [exact Hk | apply Hget; cbn; lia].
Defined.

(** ** Neighbor selection *)























(** ** Pairwise tensors *)

Lemma select_map_both {A B} (g : A -> B) (f : A -> bool) (l : list A) :
  select (map g l) (map f l) = map g (filter f l).
Proof.
  unfold select. induction l as [|a l IH]; cbn; [reflexivity|].
  destruct (f a); cbn; rewrite IH; reflexivity.
Qed.

Lemma map2_map_same {A B C D} (f : A -> B -> C) (g : D -> A) (h : D -> B) (l : list D) :
  map2 f (map g l) (map h l) = map (fun d => f (g d) (h d)) l.
Proof.
  unfold map2. induction l as [|d l IH]; cbn; [reflexivity|]. rewrite IH. reflexivity.
Qed.

Lemma remove_self_entries {A X} (F : X -> nat -> nat -> A) (xs : list X) (n : nat) :
  (0 < n)%nat ->
  remove_self (length xs) n
    (map (fun x => map (fun i => map (F x i) (seq 0 n)) (seq 0 n)) xs)
  = Ok (map (fun x => map (fun i => map (F x i) (others n i)) (seq 0 n)) xs).
Proof.
  intros Hn. unfold remove_self.
  destruct (Nat.eqb_spec n 0) as [E|_]; [lia|].
  assert (Hrows : forall x,
             map2 select (map (fun i => map (F x i) (seq 0 n)) (seq 0 n)) (exclude_self_mask n)
             = map (fun i => map (F x i) (others n i)) (seq 0 n)).
  { intros x. unfold exclude_self_mask. rewrite map2_map_same.
    apply map_ext_in. intros i Hi. apply in_seq in Hi.
    rewrite select_map_both, filter_others by lia. reflexivity. }
  assert (Huni : forall x, Forall (fun l => length l = (n - 1)%nat)
                             (map (fun i => map (F x i) (others n i)) (seq 0 n))).
  { intros x. apply Forall_forall. intros l Hl. apply in_map_iff in Hl.
    destruct Hl as (i & <- & Hi). apply in_seq in Hi.
    rewrite length_map. apply others_length. lia. }
  unfold masked_select. rewrite map_map.
  rewrite (map_ext _ (fun x => concat (map (fun i => map (F x i) (others n i)) (seq 0 n))))
    by (intros x; rewrite Hrows; reflexivity).
  assert (Huni2 : Forall (fun l => length l = (n * (n - 1))%nat)
                    (map (fun x => concat (map (fun i => map (F x i) (others n i)) (seq 0 n)))
                         xs)).
  { apply Forall_forall. intros l Hl. apply in_map_iff in Hl. destruct Hl as (x & <- & _).
    rewrite (concat_uniform_length (Huni x)), length_map, length_seq. reflexivity. }
  unfold reshape3.
  rewrite (concat_uniform_length Huni2), length_map.
  replace (length xs * n * (n - 1))%nat with (length xs * (n * (n - 1)))%nat by lia.
  rewrite Nat.eqb_refl.
  pose proof (pieces_concat Huni2) as Hp. rewrite length_map in Hp. rewrite Hp.
  rewrite map_map. f_equal. apply map_ext. intros x.
  pose proof (pieces_concat (Huni x)) as Hq. rewrite length_map, length_seq in Hq.
  exact Hq.
Qed.

Lemma map_nth_seq {A} (l : list A) (d : A) :
  map (fun j => nth j l d) (seq 0 (length l)) = l.
Proof.
  induction l as [|a l IH]; cbn [length seq map]; [reflexivity|].
  cbn [nth]. f_equal. rewrite <- seq_shift, map_map. exact IH.
Qed.

(** X15. After the self pairs are removed, the pairwise tensors stay aligned
    with the index tensor: for coordinates of shape [[b, n, _]], entry [p]
    of node [i] holds the other node [j = indices[b][i][p]], the relative
    position [coors[i] - coors[j]] and its norm, and no entry pairs a node
    with itself. *)
Theorem build_pairwise_aligned (self : Equiformer) (args : forward_args) (b n : nat)
    (pw : pairwise) :
  build_pairwise self args b n = Ok pw ->
  length (arg_coors args) = b ->
  Forall (fun cb => length cb = n) (arg_coors args) ->
  pw_indices pw = repeat (map (others n) (seq 0 n)) b
  /\ pw_rel_pos pw
     = map (fun cb =>
              map (fun i => map (fun j => map2 Rminus (nth i cb []) (nth j cb []))
                                (others n i))
                  (seq 0 n))
           (arg_coors args)
  /\ pw_rel_dist pw = map3 l2norm (pw_rel_pos pw).
Proof.
  intros H Hb Hn.
  destruct (build_pairwise_indices _ _ _ _ H) as (Hpos & Hidx).
  split; [exact Hidx|].
  unfold build_pairwise in H.
  apply bind_Ok_inv in H. destruct H as (indices & _ & H).
  apply bind_Ok_inv in H. destruct H as (rel_pos & Hrel & H).
  apply bind_Ok_inv in H. destruct H as (mask & _ & H).
  apply bind_Ok_inv in H. destruct H as (edges & _ & H).
  apply bind_Ok_inv in H. destruct H as (mrd & _ & H).
  injection H as <-. cbn [pw_rel_pos pw_rel_dist]. split; [|reflexivity].
  assert (Hform : map (fun cb => map (fun ci => map (fun cj => map2 Rminus ci cj) cb) cb)
                      (arg_coors args)
                  = map (fun cb => map (fun i => map (fun j => map2 Rminus (nth i cb [])
                                                                     (nth j cb []))
                                                     (seq 0 n))
                                       (seq 0 n))
                        (arg_coors args)).
  { apply map_ext_in. intros cb Hcb.
    pose proof (proj1 (Forall_forall _ _) Hn cb Hcb) as Hlen.
    rewrite <- Hlen.
    transitivity (map (fun ci => map (fun cj => map2 Rminus ci cj)
                                     (map (fun j => nth j cb []) (seq 0 (length cb))))
                      (map (fun i => nth i cb []) (seq 0 (length cb)))).
    - rewrite !map_nth_seq. reflexivity.
    - rewrite map_map. apply map_ext. intros i. rewrite map_map. reflexivity. }
  rewrite Hform, <- Hb in Hrel.
  pose proof (remove_self_entries
                (fun (cb : list vec) i j => map2 Rminus (nth i cb []) (nth j cb []))
                (arg_coors args) Hpos) as E.
  pose proof (eq_trans (eq_sym Hrel) E) as E'. injection E' as ->. reflexivity.
Qed.

Lemma build_pairwise_aligned_witness :
  pw_indices example_pairwise = repeat (map (others 2) (seq 0 2)) 1
  /\ pw_rel_pos example_pairwise
     = map (fun cb =>
              map (fun i => map (fun j => map2 Rminus (nth i cb []) (nth j cb []))
                                (others 2 i))
                  (seq 0 2))
           (arg_coors (example_args 2))
  /\ pw_rel_dist example_pairwise = map3 l2norm (pw_rel_pos example_pairwise).
Proof.
  apply (@build_pairwise_aligned example_model (example_args 2) 1 2 example_pairwise).
  - reflexivity.
  - reflexivity.
  - repeat constructor.
Defined.

(** ** PairwiseConv *)

Lemma freq_sum_loop (l : list (R * R)) (acc : R) :
  fold_left (fun out (p : R * R) => out + fst p * snd p) l acc
  = acc + rsum (map (fun p => fst p * snd p) l).
Proof.
  revert acc. induction l as [|p l IH]; intros acc; cbn [fold_left map].
  - unfold rsum. cbn. ring.
  - rewrite IH. unfold rsum. cbn [fold_right]. ring.
Qed.

Lemma foldM_map {A A' B} (g : A -> A') (f : B -> A' -> result B) (l : list A) (acc : B) :
  foldM f (map g l) acc = foldM (fun out a => f out (g a)) l acc.
Proof.
  revert acc. induction l as [|a l IH]; intros acc; cbn [map foldM]; [reflexivity|].
  destruct (f acc (g a)) as [acc'|e]; cbn [bind]; [apply IH | reflexivity].
Qed.

Lemma freq_loop_from (r b : vec) (acc : R) :
  (length r <= length b)%nat ->
  foldM (fun out i =>
           b_i <- of_option (nth_error b i) IndexError ;;
           Ok (out + nth i r 0 * b_i))
        (seq 0 (length r)) acc
  = Ok (fold_left (fun out (p : R * R) => out + fst p * snd p) (zip r b) acc).
Proof.
  revert b acc. induction r as [|x r IH]; intros b acc Hlen; [reflexivity|].
  destruct b as [|y b]; [cbn in Hlen; lia|].
  cbn [length seq foldM nth_error of_option bind nth zip fold_left fst snd].
  rewrite <- seq_shift, foldM_map. cbn [nth_error nth].
  apply IH. cbn [length] in Hlen. lia.
Qed.

(** A basis with fewer frequencies than the radial weights is indexed out
    of range. *)
Lemma freq_loop_index_error (r b : vec) :
  (length b < length r)%nat -> freq_loop r b = Err IndexError.
Proof.
  unfold freq_loop. generalize 0 at 2. revert b.
  induction r as [|x r IH]; intros b acc Hlen; [cbn in Hlen; lia|].
  destruct b as [|y b]; [reflexivity|].
  cbn [length seq foldM nth_error of_option bind nth].
  rewrite <- seq_shift, foldM_map. cbn [nth_error nth].
  apply IH. cbn [length] in Hlen. lia.
Qed.

(** X16. When the basis has at least the frequencies of the radial weights,
    the loop that accumulates [R[..., i] * B[..., i]] into [out] completes
    and computes, in exact arithmetic, the sum [sum(R * B, dim = -1)] it
    replaces over the frequencies of the radial weights, and is therefore
    linear in the radial weights. *)
Theorem freq_sum_is_sum (r b : vec) (c : R) :
  (length r <= length b)%nat ->
  freq_loop r b = Ok (freq_sum r b)
  /\ freq_sum r b = rsum (map2 Rmult r b)
  /\ freq_loop (map (Rmult c) r) b = Ok (c * freq_sum r b).
Proof.
  intros Hlen.
  assert (Hsum : forall r' b', freq_sum r' b' = rsum (map2 Rmult r' b')).
  { intros r' b'. unfold freq_sum. rewrite freq_sum_loop. unfold map2. ring. }
  assert (Hloop : forall r', (length r' <= length b)%nat ->
                             freq_loop r' b = Ok (freq_sum r' b)).
  { intros r' Hr'. unfold freq_loop, freq_sum. apply freq_loop_from. exact Hr'. }
  split; [apply Hloop; exact Hlen|]. split; [apply Hsum|].
  rewrite Hloop by (rewrite length_map; exact Hlen). f_equal.
  rewrite !Hsum. unfold map2. clear.
  revert b. induction r as [|x r IH]; intros [|y b]; cbn [map zip]; unfold rsum in *;
    cbn [fold_right fst snd]; try ring.
  rewrite IH. ring.
Qed.

Lemma freq_sum_is_sum_witness :
  freq_loop [1; 2; 3] [4; 5; 6] = Ok (freq_sum [1; 2; 3] [4; 5; 6])
  /\ freq_sum [1; 2; 3] [4; 5; 6] = rsum (map2 Rmult [1; 2; 3] [4; 5; 6])
  /\ freq_loop (map (Rmult 2) [1; 2; 3]) [4; 5; 6] = Ok (2 * freq_sum [1; 2; 3] [4; 5; 6]).
Proof.
  apply (@freq_sum_is_sum [1; 2; 3] [4; 5; 6] 2). simpl. lia.
Defined.

Lemma pieces_length {A} (size count : nat) (l : list A) :
  length (pieces size count l) = count.
Proof.
  revert l. induction count as [|c IH]; intros l; cbn; [reflexivity|].
  rewrite IH. reflexivity.
Qed.

Lemma flat_map_length_uniform {A B} (f : A -> list B) (l : list A) (k : nat) :
  (forall a, In a l -> length (f a) = k) -> length (flat_map f l) = (length l * k)%nat.
Proof.
  induction l as [|a l IH]; intros H; cbn; [reflexivity|].
  rewrite length_app, H by (left; reflexivity).
  rewrite IH by (intros a' Ha'; apply H; right; exact Ha'). reflexivity.
Qed.

Lemma kernel_edge_shape (Rm : list (list vec)) (B : basis_elem) (i d_in : nat) :
  Forall (fun R_o => length R_o = i) Rm ->
  Forall (fun B_do => length B_do = d_in) B ->
  length (kernel_edge Rm B) = (length Rm * length B)%nat
  /\ Forall (fun row => length row = (i * d_in)%nat) (kernel_edge Rm B).
Proof.
  intros HR HB. unfold kernel_edge. split.
  - apply flat_map_length_uniform. intros R_o _. apply length_map.
  - apply Forall_forall. intros row Hrow. apply in_flat_map in Hrow.
    destruct Hrow as (R_o & HRo & Hrow). apply in_map_iff in Hrow.
    destruct Hrow as (B_do & <- & HBdo).
    rewrite (flat_map_length_uniform _ R_o (k := d_in)).
    + rewrite (proj1 (Forall_forall _ _) HR R_o HRo). reflexivity.
    + intros R_oi _. rewrite length_map. exact (proj1 (Forall_forall _ _) HB B_do HBdo).
Qed.

Lemma kernel_edge_view (Rm : list (list vec)) (B : basis_elem) :
  kernel_edge Rm B = concat (map (map (@concat R)) (kernel_out Rm B)).
Proof.
  unfold kernel_edge, kernel_out. rewrite flat_map_concat_map, map_map. f_equal.
  apply map_ext. intros R_o. rewrite map_map. apply map_ext. intros B_do.
  apply flat_map_concat_map.
Qed.

Lemma concat_concat_map {A} (L : list (list (list A))) :
  concat (map (@concat A) L) = concat (concat L).
Proof.
  induction L as [|l L IH]; cbn [map concat]; [reflexivity|].
  rewrite concat_app, IH. reflexivity.
Qed.

Lemma view_rows_concat (rows c : nat) (m : list (list R)) :
  length m = rows -> Forall (fun row => length row = c) m ->
  (0 < rows)%nat -> (0 < c)%nat ->
  view_rows rows (concat m) = Ok m.
Proof.
  intros Hlen Hrows Hr Hc. unfold view_rows.
  assert (Hflat : length (concat m) = (c * rows)%nat)
    by (rewrite (concat_uniform_length Hrows), Hlen; apply Nat.mul_comm).
  rewrite Hflat.
  destruct (Nat.eqb_spec rows 0) as [|_]; [lia|].
  destruct (Nat.eqb_spec (c * rows) 0) as [|_]; [nia|]. cbn [orb].
  rewrite Nat.Div0.mod_mul, Nat.div_mul by lia. cbn [Nat.eqb].
  rewrite <- Hlen. rewrite (pieces_concat Hrows). reflexivity.
Qed.

(** X17. For a constructed [PairwiseConv] with input and output channels,
    and a basis element of the shape the kernel reads ([d_out] rows of
    [to_order(degree_in)] entries with [num_freq] frequencies each), the
    final [view] of the sums over the frequencies succeeds and gives the
    kernel of one edge: a matrix of [d_out * nc_out] rows, the output
    channel outermost, and [nc_in * to_order(degree_in)] columns, whatever
    the edge feature; [d_out] is the order of the output degree and the
    number of frequencies that of the smaller degree. *)
Theorem PairwiseConv_kernel_shape (ps : init_params) (degree_in degree_out : nat)
    (nc_in nc_out : Z) (edge_dim_ : option Z) (self : PairwiseConv)
    (x : vec) (B : basis_elem) :
  PairwiseConv_init ps degree_in nc_in degree_out nc_out edge_dim_ = Ok self ->
  (0 < nc_in)%Z -> (0 < nc_out)%Z ->
  length B = PairwiseConv_d_out self ->
  Forall (fun B_do =>
            length B_do = utils.to_order degree_in
            /\ Forall (fun freqs => length freqs = PairwiseConv_num_freq self) B_do) B ->
  let Rm := RadialFunc_forward (PairwiseConv_rp self) x in
  let kernel := kernel_edge Rm B in
  view_rows (PairwiseConv_d_out self * PairwiseConv_nc_out self)
            (concat (concat (concat (kernel_out Rm B)))) = Ok kernel
  /\ length kernel = (PairwiseConv_d_out self * PairwiseConv_nc_out self)%nat
  /\ Forall (fun row => length row
                        = (PairwiseConv_nc_in self * utils.to_order degree_in)%nat) kernel
  /\ PairwiseConv_d_out self = utils.to_order degree_out
  /\ PairwiseConv_num_freq self = utils.to_order (Nat.min degree_in degree_out)
  /\ Z.of_nat (PairwiseConv_nc_in self) = nc_in
  /\ Z.of_nat (PairwiseConv_nc_out self) = nc_out.
Proof.
  intros Hinit Hci Hco Hrows HB Rm kernel. unfold PairwiseConv_init in Hinit.
  apply bind_Ok_inv in Hinit. destruct Hinit as (nci & Hnci & Hinit).
  apply bind_Ok_inv in Hinit. destruct Hinit as (nco & Hnco & Hinit).
  injection Hinit as <-.
  unfold check_size in Hnci, Hnco.
  destruct (Z.ltb_spec nc_in 0) as [|Hin]; [discriminate Hnci|]. injection Hnci as <-.
  destruct (Z.ltb_spec nc_out 0) as [|Hout]; [discriminate Hnco|]. injection Hnco as <-.
  subst kernel Rm.
  cbn [PairwiseConv_rp PairwiseConv_d_out PairwiseConv_nc_in PairwiseConv_nc_out
       PairwiseConv_num_freq] in *.
  set (rp := RadialFunc_init ps (utils.to_order (Nat.min degree_in degree_out))
               (Z.to_nat nc_in) (Z.to_nat nc_out) edge_dim_ 128).
  assert (HR : Forall (fun R_o : list vec => length R_o = Z.to_nat nc_in)
                      (RadialFunc_forward rp x)).
  { unfold RadialFunc_forward. apply Forall_forall. intros R_o HRo.
    apply in_map_iff in HRo. destruct HRo as (y & <- & _).
    apply pieces_length. }
  assert (HB' : Forall (fun B_do : list vec => length B_do = utils.to_order degree_in) B).
  { eapply Forall_impl; [|exact HB]. intros B_do (Hl & _). exact Hl. }
  destruct (kernel_edge_shape HR HB') as (Hlen & Hcols).
  assert (Hlen' : length (kernel_edge (RadialFunc_forward rp x) B)
                  = (utils.to_order degree_out * Z.to_nat nc_out)%nat).
  { rewrite Hlen, Hrows. unfold RadialFunc_forward.
    rewrite length_map, pieces_length. cbn [rp RadialFunc_init RadialFunc_out_dim].
    apply Nat.mul_comm. }
  split; [|split; [exact Hlen' | split; [exact Hcols|]]].
  - replace (concat (concat (concat (kernel_out (RadialFunc_forward rp x) B))))
      with (concat (kernel_edge (RadialFunc_forward rp x) B))
      by (rewrite kernel_edge_view, <- concat_map; apply concat_concat_map).
    apply (view_rows_concat Hlen' Hcols); unfold utils.to_order; nia.
  - repeat split; try reflexivity; apply Z2Nat.id; assumption.
Qed.

Lemma PairwiseConv_kernel_shape_witness :
  view_rows (3 * 2)
    (concat (concat (concat
       (kernel_out
          (RadialFunc_forward
             (PairwiseConv_rp (from_ok (PairwiseConv_init example_params 0 3 1 2 None)))
             [1])
          [[[1]]; [[1]]; [[1]]]))))
  = Ok (kernel_edge
          (RadialFunc_forward
             (PairwiseConv_rp (from_ok (PairwiseConv_init example_params 0 3 1 2 None)))
             [1])
          [[[1]]; [[1]]; [[1]]])
  /\ length (kernel_edge
               (RadialFunc_forward
                  (PairwiseConv_rp (from_ok (PairwiseConv_init example_params 0 3 1 2 None)))
                  [1])
               [[[1]]; [[1]]; [[1]]])
     = (3 * 2)%nat
  /\ Forall (fun row => length row = (3 * utils.to_order 0)%nat)
            (kernel_edge
               (RadialFunc_forward
                  (PairwiseConv_rp (from_ok (PairwiseConv_init example_params 0 3 1 2 None)))
                  [1])
               [[[1]]; [[1]]; [[1]]])
  /\ 3%nat = utils.to_order 1
  /\ 1%nat = utils.to_order (Nat.min 0 1)
  /\ Z.of_nat 3 = 3%Z
  /\ Z.of_nat 2 = 2%Z.
Proof.
  apply (@PairwiseConv_kernel_shape example_params 0 1 3 2 None
           (from_ok (PairwiseConv_init example_params 0 3 1 2 None))
           [1] [[[1]]; [[1]]; [[1]]]).
  - reflexivity.
  - reflexivity.
  - reflexivity.
  - reflexivity.
  - repeat constructor.
Defined.

(** ** Construction of the model *)

Lemma FeedForward_init_type0_pos (ps : init_params) (fiber_ : fiber)
    (fiber_out : option fiber) (mult : Z) (ff : FeedForward) :
  FeedForward_init ps fiber_ fiber_out mult = Ok ff ->
  (0 < hd 0 fiber_ * mult)%Z.
Proof.
  unfold FeedForward_init. intros H.
  apply bind_Ok_inv in H. destruct H as (pin_fiber & Hpin & H).
  apply bind_Ok_inv in H. destruct H as (prenorm & _ & H).
  apply bind_Ok_inv in H. destruct H as (pin & _ & H).
  apply bind_Ok_inv in H. destruct H as (gate & Hgate & _).
  destruct fiber_ as [|d0 rest]; [discriminate Hpin|].
  cbn [map tl hd] in *. injection Hpin as <-.
  unfold Gate_init in Hgate. apply bind_Ok_inv in Hgate. destruct Hgate as (u & Ha & _).
  apply assert_Ok_inv, Z.ltb_lt in Ha. lia.
Qed.

(** X18. A model is only ever constructed with at least one degree and one
    input degree, with [dim] and [dim_in] entries for each of them, with an
    edge dimension whenever edge tokens are embedded, and with [depth]
    layers; if it has a layer, its degree-0 width is positive and no
    [dim_head] is zero. *)
Theorem Equiformer_init_constraints (ps : init_params) (c : config) (self : Equiformer) :
  Equiformer_init ps c = Ok self ->
  (1 <= num_degrees c)%nat /\ (1 <= input_degrees c)%nat
  /\ Equiformer_dim self = utils.cast_tuple (dim c) (num_degrees c)
  /\ length (Equiformer_dim self) = num_degrees c
  /\ length (Equiformer_dim_in self) = input_degrees c
  /\ nth_error (Equiformer_dim_in self) 0 = Some (Equiformer_type0_feat_dim self)
  /\ (num_edge_tokens c <> None -> edge_dim c <> None)
  /\ length (Equiformer_layers self) = depth c
  /\ ((0 < depth c)%nat ->
      (0 < hd 0%Z (Equiformer_dim self))%Z
      /\ Forall (fun d => d <> 0%Z) (utils.cast_tuple (dim_head c) (num_degrees c))).
Proof.
  intros H. destruct (Equiformer_init_num_degrees _ _ H) as (Hlen & Hge).
  unfold Equiformer_init in H.
  set (self_dim := utils.cast_tuple (dim c) (num_degrees c)) in *.
  apply bind_Ok_inv in H. destruct H as (u1 & _ & H).
  apply bind_Ok_inv in H. destruct H as (dim0 & _ & H).
  apply bind_Ok_inv in H. destruct H as (u2 & Hin & H).
  apply assert_Ok_inv, Nat.eqb_eq in Hin.
  apply bind_Ok_inv in H. destruct H as (t0 & Ht0 & H).
  apply of_option_Ok_inv in Ht0.
  apply bind_Ok_inv in H. destruct H as (token_emb & _ & H).
  apply bind_Ok_inv in H. destruct H as (pos_emb & _ & H).
  apply bind_Ok_inv in H. destruct H as (u3 & Hedge & H).
  apply assert_Ok_inv in Hedge.
  apply bind_Ok_inv in H. destruct H as (edge_emb & _ & H).
  apply bind_Ok_inv in H. destruct H as (conv_in & _ & H).
  apply bind_Ok_inv in H. destruct H as (layers & Hlayers & H).
  apply bind_Ok_inv in H. destruct H as (norm & _ & H).
  apply bind_Ok_inv in H. destruct H as (ff_out & _ & H).
  injection H as <-.
  cbn [Equiformer_dim Equiformer_dim_in Equiformer_type0_feat_dim Equiformer_layers].
  split; [exact Hge|]. split.
  { rewrite <- Hin. apply (proj1 (nth_error_Some _ 0)). rewrite Ht0. discriminate. }
  split; [reflexivity|]. split; [exact Hlen|]. split; [exact Hin|]. split; [exact Ht0|].
  split.
  { intros Htok Hdim. destruct (num_edge_tokens c); [|congruence].
    destruct (edge_dim c); [congruence | discriminate Hedge]. }
  split; [rewrite (mapM_length _ _ Hlayers); apply length_seq|].
  intros Hdepth.
  destruct (mapM_ok_In _ _ Hlayers 0%nat) as ([attn ff] & Hl); [apply in_seq; lia|].
  apply bind_Ok_inv in Hl. destruct Hl as (attn' & Hattn & Hl).
  apply bind_Ok_inv in Hl. destruct Hl as (ff' & Hff & _).
  split.
  - apply FeedForward_init_type0_pos in Hff. lia.
  - destruct (Attention_init_structure _ _ _ _ _ _ _ Hattn) as (_ & _ & Hnz & _).
    rewrite Hlen in Hnz. exact Hnz.
Qed.

Lemma Equiformer_init_constraints_witness :
  (1 <= 2)%nat /\ (1 <= 1)%nat
  /\ Equiformer_dim example_model = utils.cast_tuple (utils.Int 1) 2
  /\ length (Equiformer_dim example_model) = 2%nat
  /\ length (Equiformer_dim_in example_model) = 1%nat
  /\ nth_error (Equiformer_dim_in example_model) 0
     = Some (Equiformer_type0_feat_dim example_model)
  /\ (@None Z <> None -> @None Z <> None)
  /\ length (Equiformer_layers example_model) = 1%nat
  /\ ((0 < 1)%nat ->
      (0 < hd 0%Z (Equiformer_dim example_model))%Z
      /\ Forall (fun d => d <> 0%Z) (utils.cast_tuple (utils.Int 1) 2)).
Proof.
  exact (@Equiformer_init_constraints example_params (example_config 2 Infinite)
           example_model eq_refl).
Defined.

(** ** Gating is linear in the higher degrees *)

Lemma lookup_scale_degree (c : R) (d : nat) (x : featmap) (k : nat) :
  lookup k (scale_degree c d x)
  = if Nat.eqb k d then option_map (tscale c) (lookup k x) else lookup k x.
Proof.
  unfold scale_degree. induction x as [|[k' v'] x IH]; cbn [map lookup fst snd].
  - destruct (Nat.eqb k d); reflexivity.
  - destruct (Nat.eqb k' d) eqn:E1; cbn [lookup]; destruct (Nat.eqb k k') eqn:E2;
      try exact IH.
    + apply Nat.eqb_eq in E1, E2. subst. rewrite Nat.eqb_refl. reflexivity.
    + apply Nat.eqb_eq in E2. subst. rewrite E1. reflexivity.
Qed.

Lemma scale_degree_setitem (c : R) (d : nat) (acc : featmap) (k : nat) (t : T2 cmat) :
  scale_degree c d (setitem acc k t)
  = setitem (scale_degree c d acc) k (if Nat.eqb k d then tscale c t else t).
Proof.
  unfold scale_degree. induction acc as [|[k' v'] acc IH]; cbn [setitem map fst snd].
  - destruct (Nat.eqb k d); reflexivity.
  - destruct (Nat.eqb k k') eqn:E2; cbn [map fst snd].
    + destruct (Nat.eqb k' d); cbn [setitem]; rewrite E2;
        destruct (Nat.eqb k d); reflexivity.
    + rewrite IH. destruct (Nat.eqb k' d); cbn [setitem]; rewrite E2; reflexivity.
Qed.

Lemma mapM_result_map {A B C} (h : B -> C) (f : A -> result B) (l : list A) :
  mapM (fun a => result_map h (f a)) l = result_map (map h) (mapM f l).
Proof.
  induction l as [|a l IH]; cbn [mapM]; [reflexivity|].
  destruct (f a) as [b|e]; cbn [result_map bind]; [|reflexivity].
  rewrite IH. destruct (mapM f l); reflexivity.
Qed.

Lemma broadcast2_result_map {A B C D} (h : C -> D) (f : A -> B -> result C)
    (xs : list A) (ys : list B) :
  broadcast2 (fun a b => result_map h (f a b)) xs ys
  = result_map (map h) (broadcast2 f xs ys).
Proof.
  unfold broadcast2. destruct (Nat.eqb (length xs) (length ys)).
  - apply (mapM_result_map h (fun p : A * B => f (fst p) (snd p))).
  - destruct xs as [|x [|x' xs]].
    + destruct ys as [|y [|y' ys]]; reflexivity.
    + apply (mapM_result_map h (fun b : B => f x b)).
    + destruct ys as [|y [|y' ys]]; try reflexivity.
      apply (mapM_result_map h (fun a : A => f a y)).
Qed.

Lemma gate_node_scale (c : R) (x gate : cmat) :
  gate_node (tscale c x) gate = result_map (tscale c) (gate_node x gate).
Proof.
  unfold gate_node.
  change (tscale c x) with (map (map (Rmult c)) x).
  rewrite broadcast2_map_l.
  rewrite <- (broadcast2_result_map (map (Rmult c))).
  apply broadcast2_ext. intros xrow grow.
  rewrite broadcast2_map_l.
  rewrite <- (broadcast2_result_map (Rmult c)).
  apply broadcast2_ext. intros v gv. cbn [result_map]. f_equal. ring.
Qed.

Lemma zip_map_l {A A' B} (h : A -> A') (a : list A) (b : list B) :
  zip (map h a) b = map (fun p => (h (fst p), snd p)) (zip a b).
Proof.
  revert b. induction a as [|x a IH]; intros [|y b]; cbn; try reflexivity.
  rewrite IH. reflexivity.
Qed.

Lemma zipM2_gate_scale (c : R) (xd : T2 cmat) (gate : T2 cmat) :
  zipM2 gate_node (tscale c xd) gate = result_map (tscale c) (zipM2 gate_node xd gate).
Proof.
  unfold zipM2.
  change (tscale c xd) with (map (map (@tscale cmat _ c)) xd).
  transitivity
    (result_map (map (map (@tscale cmat _ c)))
       (mapM (fun p : list cmat * list cmat =>
                mapM (fun q : cmat * cmat => gate_node (fst q) (snd q))
                     (zip (fst p) (snd p)))
             (zip xd gate))); [|reflexivity].
  rewrite <- (mapM_result_map (map (@tscale cmat _ c))).
  rewrite zip_map_l, mapM_map. cbn [fst snd].
  apply mapM_ext. intros [xb gb] _. cbn [fst snd].
  rewrite <- (mapM_result_map (@tscale cmat _ c)).
  rewrite zip_map_l, mapM_map. cbn [fst snd].
  apply mapM_ext. intros [xn gn] _. cbn [fst snd]. apply gate_node_scale.
Qed.

(** X19. The gate acts linearly on every degree above 0: scaling the input
    tensor of such a degree by [c] scales the output tensor of that degree
    by [c] and leaves the other degrees, and any failure, unchanged. *)
Theorem Gate_forward_linear_higher (g : Gate) (x : featmap) (c : R) (d : nat) :
  d <> 0%nat ->
  Gate_forward g (scale_degree c d x) = result_map (scale_degree c d) (Gate_forward g x).
Proof.
  intros Hd. unfold Gate_forward.
  assert (H0 : getitem (scale_degree c d x) 0%nat = getitem x 0%nat).
  { unfold getitem. rewrite lookup_scale_degree.
    destruct (Nat.eqb_spec 0 d); [congruence | reflexivity]. }
  rewrite H0.
  destruct (getitem x 0%nat) as [t0|]; cbn [bind result_map]; [|reflexivity].
  destruct (split_channels (Gate_type0_dim_split g) t0) as [parts|e];
    cbn [bind result_map]; [|reflexivity].
  destruct (of_option (nth_error parts (length parts - 1)) RuntimeError) as [t0'|];
    cbn [bind result_map]; [|reflexivity].
  enough (Hacc : forall (items : list (nat * T2 cmat)) (acc : featmap),
             foldM (fun output (p : nat * T2 cmat) =>
                      let (degree, gate) := p in
                      xd <- getitem (scale_degree c d x) degree ;;
                      t <- zipM2 gate_node xd gate ;;
                      Ok (setitem output degree t))
                   items (scale_degree c d acc)
             = result_map (scale_degree c d)
                 (foldM (fun output (p : nat * T2 cmat) =>
                           let (degree, gate) := p in
                           xd <- getitem x degree ;;
                           t <- zipM2 gate_node xd gate ;;
                           Ok (setitem output degree t))
                        items acc)).
  { refine (eq_trans _ (Hacc _ [(0%nat, map (map (map (map silu))) t0')])).
    unfold scale_degree. cbn [map fst].
    destruct (Nat.eqb_spec 0 d); [congruence | reflexivity]. }
  induction items as [|[degree gate] items IH]; intros acc; [reflexivity|].
  cbn [foldM].
  assert (Hstep : (xd <- getitem (scale_degree c d x) degree ;;
                   t <- zipM2 gate_node xd gate ;;
                   Ok (setitem (scale_degree c d acc) degree t))
                  = result_map (scale_degree c d)
                      (xd <- getitem x degree ;;
                       t <- zipM2 gate_node xd gate ;;
                       Ok (setitem acc degree t))).
  { unfold getitem. rewrite lookup_scale_degree.
    destruct (lookup degree x) as [xd|];
      [|destruct (Nat.eqb degree d); reflexivity].
    destruct (Nat.eqb degree d) eqn:E; cbn [option_map of_option bind].
    - rewrite zipM2_gate_scale.
      destruct (zipM2 gate_node xd gate) as [t|e]; cbn [result_map bind]; [|reflexivity].
      rewrite scale_degree_setitem, E. reflexivity.
    - destruct (zipM2 gate_node xd gate) as [t|e]; cbn [result_map bind]; [|reflexivity].
      rewrite scale_degree_setitem, E. reflexivity. }
  rewrite Hstep.
  destruct (xd <- getitem x degree ;; t <- zipM2 gate_node xd gate ;;
            Ok (setitem acc degree t)) as [acc1|e];
    cbn [bind result_map]; [apply IH | reflexivity].
Qed.

Lemma Gate_forward_linear_higher_witness :
  Gate_forward example_gate (scale_degree 2 1 gate_features)
  = result_map (scale_degree 2 1) (Gate_forward example_gate gate_features).
Proof.
  apply (@Gate_forward_linear_higher example_gate gate_features 2 1). discriminate.
Defined.

(** ** The convolution is linear in the features *)

Lemma foldM_commute {A S} (H : S -> S) (step step' : S -> A -> result S) (l : list A) :
  (forall acc a, In a l -> step' (H acc) a = result_map H (step acc a)) ->
  forall acc, foldM step' l (H acc) = result_map H (foldM step l acc).
Proof.
  induction l as [|a l IH]; intros Hstep acc; [reflexivity|].
  cbn [foldM]. rewrite Hstep by (left; reflexivity).
  destruct (step acc a) as [acc1|e]; cbn [result_map bind]; [|reflexivity].
  apply IH. intros acc0 a0 Hin. apply Hstep. right. exact Hin.
Qed.

Lemma list_add_scale {A} `{Tensor A} (c : R) :
  (forall a b : A, tadd (tscale c a) (tscale c b) = tscale c (tadd a b)) ->
  forall a b : list A, tadd (tscale c a) (tscale c b) = tscale c (tadd a b).
Proof.
  intros Hab a. cbn [tadd tscale list_Tensor]. unfold map2.
  induction a as [|x a IH]; intros [|y b]; cbn [map zip]; try reflexivity.
  cbn [fst snd]. rewrite IH, Hab. reflexivity.
Qed.

Lemma cmat_add_scale (c : R) (a b : cmat) :
  tadd (tscale c a) (tscale c b) = tscale c (tadd a b).
Proof. apply list_add_scale. apply vec_add_scale. Qed.

Lemma T3_vec_add_scale (c : R) (a b : T3 vec) :
  tadd (tscale c a) (tscale c b) = tscale c (tadd a b).
Proof. do 3 apply list_add_scale. apply vec_add_scale. Qed.

Lemma T2_cmat_add_scale (c : R) (a b : T2 cmat) :
  tadd (tscale c a) (tscale c b) = tscale c (tadd a b).
Proof. do 2 apply list_add_scale. apply cmat_add_scale. Qed.

Lemma nth_error_map_opt {A B} (g : A -> B) (l : list A) (j : nat) :
  nth_error (map g l) j = option_map g (nth_error l j).
Proof.
  revert j. induction l as [|a l IH]; intros [|j]; cbn; try reflexivity. apply IH.
Qed.

Lemma batched_index_select1_map {A B} (g : A -> B) (values : T2 A) (indices : T3 nat) :
  utils.batched_index_select1 (map (map g) values) indices
  = result_map (map (map (map g))) (utils.batched_index_select1 values indices).
Proof.
  unfold utils.batched_index_select1.
  rewrite <- (mapM_result_map (map (map g))).
  rewrite zip_map_l, mapM_map. cbn [fst snd].
  apply mapM_ext. intros [vb ib] _. cbn [fst snd].
  rewrite <- (mapM_result_map (map g)).
  apply mapM_ext. intros row _.
  rewrite <- (mapM_result_map g).
  apply mapM_ext. intros j _. rewrite nth_error_map_opt.
  destruct (nth_error vb j); reflexivity.
Qed.

Lemma flatten_scale (c : R) (degree_in : nat) (m_in : Z) (x : T3 cmat) :
  mapM (mapM (mapM (fun node : cmat =>
     let flat := concat node in
     if (Z.of_nat (length flat) =? Z.of_nat (utils.to_order degree_in) * m_in)%Z
     then Ok flat else Err RuntimeError)))
    (map (map (map (@tscale cmat _ c))) x)
  = result_map (map (map (map (@tscale vec _ c))))
      (mapM (mapM (mapM (fun node : cmat =>
         let flat := concat node in
         if (Z.of_nat (length flat) =? Z.of_nat (utils.to_order degree_in) * m_in)%Z
         then Ok flat else Err RuntimeError))) x).
Proof.
  rewrite <- (mapM_result_map (map (map (@tscale vec _ c)))).
  rewrite mapM_map. apply mapM_ext. intros xb _.
  rewrite <- (mapM_result_map (map (@tscale vec _ c))).
  rewrite mapM_map. apply mapM_ext. intros xn _.
  rewrite <- (mapM_result_map (@tscale vec _ c)).
  rewrite mapM_map. apply mapM_ext. intros node _. cbv zeta.
  assert (Hc : concat (@tscale cmat _ c node) = @tscale vec _ c (concat node)).
  { cbn [tscale list_Tensor R_Tensor]. rewrite concat_map. reflexivity. }
  rewrite Hc.
  assert (Hl : length (@tscale vec _ c (concat node)) = length (concat node))
    by apply length_map.
  rewrite Hl. destruct (_ =? _)%Z; reflexivity.
Qed.

Lemma narrow1_map {A B} (h : A -> B) (t : T2 A) (start len : nat) :
  utils.narrow1 (map (map h) t) start len = map (map h) (utils.narrow1 t start len).
Proof.
  unfold utils.narrow1. rewrite !map_map. apply map_ext. intros row.
  rewrite skipn_map, firstn_map. reflexivity.
Qed.

Lemma narrow_all_map {A B} (h : A -> B) (t : T2 A) (start : nat) (sizes : list nat) :
  utils.narrow_all (map (map h) t) start sizes
  = map (map (map h)) (utils.narrow_all t start sizes).
Proof.
  revert start. induction sizes as [|len sizes IH]; intros start; cbn; [reflexivity|].
  rewrite narrow1_map, IH. reflexivity.
Qed.

Lemma axis1_len_map {A B} (h : A -> B) (t : T2 A) :
  utils.axis1_len (map (map h) t) = utils.axis1_len t.
Proof.
  unfold utils.axis1_len. destruct t as [|row t]; cbn; [reflexivity|]. apply length_map.
Qed.

Lemma fast_split_map {A B} (h : A -> B) (t : T2 A) (splits_ : nat) :
  utils.fast_split (map (map h) t) splits_ = map (map (map h)) (utils.fast_split t splits_).
Proof.
  unfold utils.fast_split. rewrite axis1_len_map. apply narrow_all_map.
Qed.

Lemma zip3_map_l {A A' B C} (h : A -> A') (a : list A) (b : list B) (c : list C) :
  zip3 (map h a) b c = map (fun p => (h (fst (fst p)), snd (fst p), snd p)) (zip3 a b c).
Proof.
  revert b c. induction a as [|x a IH]; intros [|y b] [|z c]; cbn; try reflexivity.
  rewrite IH. reflexivity.
Qed.

Lemma rsum_scale (c : R) (v : vec) : rsum (map (Rmult c) v) = c * rsum v.
Proof.
  unfold rsum. induction v as [|x v IH]; cbn; [ring | rewrite IH; ring].
Qed.

Lemma matvec_scale (c : R) (kernel : list vec) (x : vec) :
  matvec kernel (tscale c x) = tscale c (matvec kernel x).
Proof.
  unfold matvec. cbn [tscale list_Tensor R_Tensor]. rewrite map_map.
  apply map_ext. intros row. rewrite <- rsum_scale. f_equal. unfold map2.
  revert x. induction row as [|a row IH]; intros [|b x]; cbn [zip map]; try reflexivity.
  cbn [fst snd]. rewrite IH. f_equal. ring.
Qed.

Lemma zip_with3_map_r {A B B' C} (f : A -> B -> C) (f' : A -> B' -> C) (h : B' -> B)
    (g : C -> C) (x : T3 A) (y : T3 B') :
  (forall a b, f a (h b) = g (f' a b)) ->
  zip_with3 f x (map (map (map h)) y) = map (map (map g)) (zip_with3 f' x y).
Proof.
  intros Hf. unfold zip_with3, map2.
  revert y. induction x as [|xb x IHx]; intros [|yb y]; cbn [zip map]; try reflexivity.
  cbn [fst snd]. rewrite IHx. f_equal.
  clear IHx. revert yb. induction xb as [|xn xb IHb]; intros [|yn yb]; cbn [zip map];
    try reflexivity.
  cbn [fst snd]. rewrite IHb. f_equal.
  revert yn. induction xn as [|a xn IHn]; intros [|b yn]; cbn [zip map]; try reflexivity.
  cbn [fst snd]. rewrite IHn, Hf. reflexivity.
Qed.

Lemma cat1_map {A B} (h : A -> B) (a el : T2 A) :
  utils.cat1 (map (map h) a) (map (map h) el) = map (map h) (utils.cat1 a el).
Proof.
  unfold utils.cat1, map2. revert el.
  induction a as [|x a IH]; intros [|y el]; cbn [zip map]; try reflexivity.
  cbn [fst snd]. rewrite IH, map_app. reflexivity.
Qed.

Lemma safe_cat_map {A B} (h : A -> B) (arr : option (T2 A)) (el : T2 A) :
  utils.safe_cat (option_map (map (map h)) arr) (map (map h) el)
  = option_map (map (map h)) (utils.safe_cat arr el).
Proof.
  destruct arr as [a|]; cbn; [rewrite cat1_map|]; reflexivity.
Qed.

Lemma Conv_chunks_scale (c : R) (kernel_fn : PairwiseConv)
    (split_x split_edge_features : list (T3 vec)) (split_basis_ : list basis_dict) :
  Conv_chunks kernel_fn (map (@tscale (T3 vec) _ c) split_x) split_edge_features split_basis_
  = result_map (option_map (@tscale (T3 vec) _ c))
      (Conv_chunks kernel_fn split_x split_edge_features split_basis_).
Proof.
  unfold Conv_chunks. rewrite zip3_map_l.
  pose proof (@foldM_commute (T3 vec * T3 vec * basis_dict) (option (T3 vec))
                (option_map (@tscale (T3 vec) _ c))
                (Conv_chunk_step kernel_fn)
                (fun acc p => Conv_chunk_step kernel_fn acc
                                (@tscale (T3 vec) _ c (fst (fst p)), snd (fst p), snd p))
                (zip3 split_x split_edge_features split_basis_)) as Hc.
  assert (Hmap : forall (l : list (T3 vec * T3 vec * basis_dict)) acc,
             foldM (Conv_chunk_step kernel_fn)
                   (map (fun p => (@tscale (T3 vec) _ c (fst (fst p)), snd (fst p), snd p)) l)
                   acc
             = foldM (fun acc p => Conv_chunk_step kernel_fn acc
                                     (@tscale (T3 vec) _ c (fst (fst p)), snd (fst p), snd p))
                     l acc).
  { induction l as [|p l IH]; intros acc; cbn [map foldM]; [reflexivity|].
    apply bind_congr. intros acc' _. apply IH. }
  rewrite Hmap. apply (Hc) with (acc := None).
  intros acc [[x_chunk ef] basis] _. cbn [fst snd]. unfold Conv_chunk_step.
  destruct (PairwiseConv_forward kernel_fn ef basis) as [kernel|e];
    cbn [bind result_map]; [|reflexivity].
  f_equal.
  change (@tscale (T3 vec) _ c x_chunk) with (map (map (map (@tscale vec _ c))) x_chunk).
  rewrite (zip_with3_map_r matvec matvec (@tscale vec _ c) (@tscale vec _ c)
             kernel x_chunk (fun a b => matvec_scale c a b)).
  exact (safe_cat_map (map (@tscale vec _ c)) acc (zip_with3 matvec kernel x_chunk)).
Qed.

Lemma bind_commute {A A' B B'} (h : A -> A') (H : B -> B')
    (c0 : result A) (c' : result A') (k : A -> result B) (k' : A' -> result B') :
  c' = result_map h c0 ->
  (forall a, c0 = Ok a -> k' (h a) = result_map H (k a)) ->
  bind c' k' = result_map H (bind c0 k).
Proof.
  intros -> Hk. destruct c0 as [a|e]; cbn [result_map bind]; [|reflexivity].
  apply Hk. reflexivity.
Qed.

Lemma getitem_scale_all (c : R) (inp : featmap) (d : nat) :
  getitem (scale_all c inp) d = result_map (@tscale (T2 cmat) _ c) (getitem inp d).
Proof.
  unfold getitem, scale_all. rewrite (lookup_map_values (@tscale (T2 cmat) _ c)).
  destruct (lookup d inp); reflexivity.
Qed.

Lemma add_output_scale (c : R) (output output_chunk : option (T3 vec)) :
  add_output (option_map (@tscale (T3 vec) _ c) output)
             (option_map (@tscale (T3 vec) _ c) output_chunk)
  = result_map (option_map (@tscale (T3 vec) _ c)) (add_output output output_chunk).
Proof.
  destruct output as [o|], output_chunk as [ch|]; cbn [option_map add_output result_map];
    try reflexivity.
  rewrite T3_vec_add_scale. reflexivity.
Qed.

Lemma Conv_accumulate_step_scale (c : R) (self : Conv) (inp : featmap)
    (neighbor_indices : T3 nat) (edges : option (T3 vec)) (rel_dist : T3 vec)
    (split_basis_ : list basis_dict) (degree_out : nat) (output : option (T3 vec))
    (p : nat * Z) :
  Conv_accumulate_step self (scale_all c inp) neighbor_indices edges rel_dist split_basis_
    degree_out (option_map (@tscale (T3 vec) _ c) output) p
  = result_map (option_map (@tscale (T3 vec) _ c))
      (Conv_accumulate_step self inp neighbor_indices edges rel_dist split_basis_
         degree_out output p).
Proof.
  destruct p as [degree_in m_in]. unfold Conv_accumulate_step.
  eapply (bind_commute (@tscale (T2 cmat) _ c)); [apply getitem_scale_all|].
  intros x _.
  eapply (bind_commute (@tscale (T3 cmat) _ c));
    [exact (batched_index_select1_map (@tscale cmat _ c) x neighbor_indices)|].
  intros x1 _.
  eapply (bind_commute (@tscale (T3 vec) _ c));
    [exact (flatten_scale c degree_in m_in x1)|].
  intros x2 _.
  destruct (getitem2 (Conv_kernel_unary self) (degree_in, degree_out)) as [kernel_fn|e];
    cbn [bind result_map]; [|reflexivity].
  eapply (bind_commute (option_map (@tscale (T3 vec) _ c))).
  - refine (eq_trans _ (Conv_chunks_scale c kernel_fn _ _ _)).
    f_equal. exact (fast_split_map (@tscale (list vec) _ c) x2 (Conv_splits self)).
  - intros chunk _. apply add_output_scale.
Qed.

Lemma Conv_accumulate_scale (c : R) (self : Conv) (inp : featmap)
    (neighbor_indices : T3 nat) (edges : option (T3 vec)) (rel_dist : T3 vec)
    (split_basis_ : list basis_dict) (degree_out : nat) :
  Conv_accumulate self (scale_all c inp) neighbor_indices edges rel_dist split_basis_
    degree_out
  = result_map (option_map (@tscale (T3 vec) _ c))
      (Conv_accumulate self inp neighbor_indices edges rel_dist split_basis_ degree_out).
Proof.
  unfold Conv_accumulate.
  apply (@foldM_commute _ _ (option_map (@tscale (T3 vec) _ c))
           (Conv_accumulate_step self inp neighbor_indices edges rel_dist split_basis_
              degree_out)
           (Conv_accumulate_step self (scale_all c inp) neighbor_indices edges rel_dist
              split_basis_ degree_out)
           (enumerate (Conv_fiber_in self))) with (acc := None).
  intros acc p _. apply Conv_accumulate_step_scale.
Qed.

Lemma map2_map_l {A A' B C} (f : A' -> B -> C) (g : A -> A') (a : list A) (b : list B) :
  map2 f (map g a) b = map2 (fun x y => f (g x) y) a b.
Proof.
  unfold map2. rewrite zip_map_l, map_map. reflexivity.
Qed.

Lemma map2_ext {A B C} (f f' : A -> B -> C) (a : list A) (b : list B) :
  (forall x y, f x y = f' x y) -> map2 f a b = map2 f' a b.
Proof.
  intros H. unfold map2. apply map_ext. intros p. apply H.
Qed.

Lemma map_map2 {A B C D} (h : C -> D) (f : A -> B -> C) (a : list A) (b : list B) :
  map h (map2 f a b) = map2 (fun x y => h (f x y)) a b.
Proof.
  unfold map2. rewrite map_map. reflexivity.
Qed.

Lemma masked_mean_scale (c : R) (row : list vec) (mask : list bool) :
  utils.masked_mean (map (@tscale vec _ c) row) mask
  = @tscale vec _ c (utils.masked_mean row mask).
Proof.
  unfold utils.masked_mean. rewrite length_map.
  rewrite map2_map_l.
  rewrite (map2_ext _ (fun (x : vec) (m : bool) =>
                         @tscale vec _ c (tscale (if m then 1 else 0) x)))
    by (intros x m; apply vec_scale_comm).
  rewrite <- (map_map2 (@tscale vec _ c)
                (fun (x : vec) (m : bool) => tscale (if m then 1 else 0) x)).
  rewrite tsum_scale. apply vec_scale_comm.
Qed.

Lemma mean_scale (c : R) (row : list vec) :
  utils.mean (map (@tscale vec _ c) row) = @tscale vec _ c (utils.mean row).
Proof.
  unfold utils.mean. rewrite length_map, tsum_scale. apply vec_scale_comm.
Qed.

Lemma pieces_map {A B} (g : A -> B) (size count : nat) (l : list A) :
  pieces size count (map g l) = map (map g) (pieces size count l).
Proof.
  revert l. induction count as [|k IH]; intros l; cbn [pieces map]; [reflexivity|].
  rewrite firstn_map, skipn_map, IH. reflexivity.
Qed.

Lemma unflatten_scale (c : R) (order : nat) (v : vec) :
  unflatten order (@tscale vec _ c v) = @tscale cmat _ c (unflatten order v).
Proof.
  unfold unflatten. cbn [tscale list_Tensor R_Tensor].
  rewrite length_map. apply pieces_map.
Qed.

Lemma of_option_map {A B} (h : A -> B) (o : option A) (e : error) :
  of_option (option_map h o) e = result_map h (of_option o e).
Proof. destruct o; reflexivity. Qed.

Lemma pooled_rows_scale (c : R) (neighbor_masks : option (T3 bool)) (output : T3 vec) :
  match neighbor_masks with
  | Some m => map2 (map2 utils.masked_mean) (@tscale (T3 vec) _ c output) m
  | None => map (map utils.mean) (@tscale (T3 vec) _ c output)
  end
  = map (map (@tscale vec _ c))
      match neighbor_masks with
      | Some m => map2 (map2 utils.masked_mean) output m
      | None => map (map utils.mean) output
      end.
Proof.
  change (@tscale (T3 vec) _ c output) with (map (map (map (@tscale vec _ c))) output).
  destruct neighbor_masks as [m|].
  - rewrite map2_map_l, map_map2. apply map2_ext. intros ob mb.
    rewrite map2_map_l, map_map2. apply map2_ext. intros row mask.
    apply masked_mean_scale.
  - rewrite !map_map. apply map_ext. intros ob.
    rewrite !map_map. apply map_ext. intros row. apply mean_scale.
Qed.

Lemma Conv_pool_step_scale (c : R) (accumulate accumulate' : nat -> result (T3 vec))
    (neighbor_masks : option (T3 bool)) (outputs : featmap) (p : nat * Z) :
  (forall d, accumulate' d = result_map (@tscale (T3 vec) _ c) (accumulate d)) ->
  Conv_pool_step accumulate' neighbor_masks (scale_all c outputs) p
  = result_map (scale_all c) (Conv_pool_step accumulate neighbor_masks outputs p).
Proof.
  intros Hacc. destruct p as [degree_out m]. unfold Conv_pool_step.
  eapply (bind_commute (@tscale (T3 vec) _ c)); [apply Hacc|].
  intros output _. cbn [result_map]. f_equal.
  rewrite pooled_rows_scale. unfold scale_all.
  rewrite (map_setitem (@tscale (T2 cmat) _ c)). apply (f_equal (setitem _ degree_out)).
  cbn [tscale list_Tensor]. rewrite !map_map. apply map_ext. intros ob.
  rewrite !map_map. apply map_ext. intros v. apply unflatten_scale.
Qed.

Lemma Conv_keep_step_scale (c : R) (accumulate accumulate' : nat -> result (T3 vec))
    (outputs : dict (T3 cmat)) (p : nat * Z) :
  (forall d, accumulate' d = result_map (@tscale (T3 vec) _ c) (accumulate d)) ->
  Conv_keep_step accumulate'
    (map (fun q : nat * T3 cmat => (fst q, tscale c (snd q))) outputs) p
  = result_map (map (fun q : nat * T3 cmat => (fst q, tscale c (snd q))))
      (Conv_keep_step accumulate outputs p).
Proof.
  intros Hacc. destruct p as [degree_out m]. unfold Conv_keep_step.
  eapply (bind_commute (@tscale (T3 vec) _ c)); [apply Hacc|].
  intros output _. cbn [result_map]. f_equal.
  rewrite (map_setitem (@tscale (T3 cmat) _ c)). apply (f_equal (setitem _ degree_out)).
  unfold map3. cbn [tscale list_Tensor]. rewrite !map_map. apply map_ext. intros ob.
  rewrite !map_map. apply map_ext. intros on.
  rewrite !map_map. apply map_ext. intros v. apply unflatten_scale.
Qed.

Lemma Linear_forward_scale (l : Linear) (c : R) (x : featmap) :
  Linear_forward l (scale_all c x) = result_map (scale_all c) (Linear_forward l x).
Proof.
  unfold Linear_forward.
  apply (@foldM_commute _ _ (scale_all c)
           (fun out (p : nat * list vec) =>
              let (degree, weight) := p in
              t <- getitem x degree ;;
              Ok (setitem out degree (map (map (Linear_node weight)) t)))
           (fun out (p : nat * list vec) =>
              let (degree, weight) := p in
              t <- getitem (scale_all c x) degree ;;
              Ok (setitem out degree (map (map (Linear_node weight)) t)))
           (zip (Linear_degrees l) (Linear_weights l))) with (acc := []).
  intros acc [degree weight] _.
  eapply (bind_commute (@tscale (T2 cmat) _ c)); [apply getitem_scale_all|].
  intros t _. cbn [result_map]. f_equal. unfold scale_all.
  rewrite (map_setitem (@tscale (T2 cmat) _ c)). apply (f_equal (setitem _ degree)).
  change (map (map (Linear_node weight)) (map (map (@tscale cmat _ c)) t)
          = map (map (@tscale cmat _ c)) (map (map (Linear_node weight)) t)).
  rewrite !map_map. apply map_ext. intros row.
  rewrite !map_map. apply map_ext. intros node. apply Linear_node_scale.
Qed.

(** X4. [Linear] has no bias and maps degree by degree: scaling the input
    tensor of one degree by [c] scales the output tensor of that degree by
    [c] and leaves every other degree unchanged, scaling all input tensors
    scales all output tensors, and an input that fails keeps failing the
    same way. *)
Theorem Linear_forward_homogeneous (l : Linear) (c : R) (d : nat) (x : featmap) :
  Linear_forward l (scale_degree c d x) = result_map (scale_degree c d) (Linear_forward l x)
  /\ Linear_forward l (scale_all c x) = result_map (scale_all c) (Linear_forward l x).
Proof.
  split; [|apply Linear_forward_scale].
  unfold Linear_forward.
  assert (Hinit : scale_degree c d [] = []) by reflexivity.
  rewrite <- Hinit at 1.
  apply (@foldM_commute _ _ (scale_degree c d)
           (fun out (p : nat * list vec) =>
              let (degree, weight) := p in
              t <- getitem x degree ;;
              Ok (setitem out degree (map (map (Linear_node weight)) t)))
           (fun out (p : nat * list vec) =>
              let (degree, weight) := p in
              t <- getitem (scale_degree c d x) degree ;;
              Ok (setitem out degree (map (map (Linear_node weight)) t)))
           (zip (Linear_degrees l) (Linear_weights l))).
  intros acc [degree weight] _. unfold getitem. rewrite lookup_scale_degree.
  destruct (lookup degree x) as [t|]; [|destruct (Nat.eqb degree d); reflexivity].
  destruct (Nat.eqb degree d) eqn:E; cbn [option_map of_option bind result_map];
    rewrite scale_degree_setitem, E; [|reflexivity].
  f_equal. apply (f_equal (setitem _ degree)).
  change (map (map (Linear_node weight)) (map (map (@tscale cmat _ c)) t)
          = map (map (@tscale cmat _ c)) (map (map (Linear_node weight)) t)).
  rewrite !map_map. apply map_ext. intros row.
  rewrite !map_map. apply map_ext. intros node. apply Linear_node_scale.
Qed.

Lemma residual_fn_scale (c : R) (x residual : featmap) :
  residual_fn (scale_all c x) (scale_all c residual) = scale_all c (residual_fn x residual).
Proof.
  unfold residual_fn.
  enough (Hacc : forall x acc,
             fold_left (fun out (p : nat * T2 cmat) =>
                          let (degree, tensor) := p in
                          let out := setitem out degree tensor in
                          match lookup degree (scale_all c residual) with
                          | None => out
                          | Some r => setitem out degree (tadd tensor r)
                          end)
                       (scale_all c x) (scale_all c acc)
             = scale_all c
                 (fold_left (fun out (p : nat * T2 cmat) =>
                               let (degree, tensor) := p in
                               let out := setitem out degree tensor in
                               match lookup degree residual with
                               | None => out
                               | Some r => setitem out degree (tadd tensor r)
                               end)
                            x acc))
    by exact (Hacc x []).
  clear x. induction x as [|[d t] x IH]; intros acc; [reflexivity|].
  cbn [scale_all map fold_left fst snd]. fold (scale_all c x).
  refine (eq_trans _ (IH _)). f_equal. cbv beta iota zeta.
  replace (lookup d (scale_all c residual))
    with (option_map (@tscale (T2 cmat) _ c) (lookup d residual))
    by (symmetry; apply (lookup_map_values (@tscale (T2 cmat) _ c))).
  destruct (lookup d residual) as [r|]; cbn [option_map]; unfold scale_all.
  - rewrite !(map_setitem (@tscale (T2 cmat) _ c)).
    rewrite T2_cmat_add_scale. reflexivity.
  - rewrite (map_setitem (@tscale (T2 cmat) _ c)). reflexivity.
Qed.

(** X20. The convolution has no bias: scaling every input tensor by [c]
    scales every output tensor by [c], pooled or per neighbor, with or
    without the self-interaction, and an input on which it fails keeps
    failing with the same error. *)
Theorem Conv_forward_homogeneous (self : Conv) (inp : featmap) (edge_info_ : edge_info)
    (rel_dist : T3 R) (basis : basis_dict) (c : R) :
  Conv_forward self (scale_all c inp) edge_info_ rel_dist basis
  = result_map (scale_conv_output c) (Conv_forward self inp edge_info_ rel_dist basis).
Proof.
  unfold Conv_forward. destruct edge_info_ as [[neighbor_indices neighbor_masks] edges].
  set (rd := map3 (fun r => [r]) rel_dist).
  set (sb := split_basis basis (Conv_splits self)).
  set (accumulate := fun degree_out =>
         output <- Conv_accumulate self inp neighbor_indices edges rd sb degree_out ;;
         of_option output TypeError).
  set (accumulate' := fun degree_out =>
         output <- Conv_accumulate self (scale_all c inp) neighbor_indices edges rd sb
                     degree_out ;;
         of_option output TypeError).
  assert (Hacc : forall d, accumulate' d = result_map (@tscale (T3 vec) _ c) (accumulate d)).
  { intros d. subst accumulate accumulate'. cbv beta.
    eapply (bind_commute (option_map (@tscale (T3 vec) _ c)));
      [apply Conv_accumulate_scale|].
    intros output _. apply of_option_map. }
  eapply (bind_commute (scale_conv_output c)).
  - destruct (Conv_pool self).
    + eapply (bind_commute (scale_all c)); [|intros outputs _; reflexivity].
      apply (@foldM_commute _ _ (scale_all c)
               (Conv_pool_step accumulate neighbor_masks)
               (Conv_pool_step accumulate' neighbor_masks)
               (enumerate (Conv_fiber_out self))) with (acc := []).
      intros acc p _. apply Conv_pool_step_scale. exact Hacc.
    + eapply (bind_commute (map (fun q : nat * T3 cmat => (fst q, tscale c (snd q)))));
        [|intros outputs _; reflexivity].
      apply (@foldM_commute _ _ (map (fun q : nat * T3 cmat => (fst q, tscale c (snd q))))
               (Conv_keep_step accumulate)
               (Conv_keep_step accumulate')
               (enumerate (Conv_fiber_out self))) with (acc := []).
      intros acc p _. apply Conv_keep_step_scale. exact Hacc.
  - intros outputs _.
    destruct (Conv_self_interaction self); [|reflexivity].
    destruct (of_option (Conv_self_interact self) TypeError) as [l|e];
      cbn [bind result_map]; [|reflexivity].
    rewrite Linear_forward_scale.
    destruct (Linear_forward l inp) as [si|e]; cbn [bind result_map]; [|reflexivity].
    destruct outputs as [o|o]; cbn [scale_conv_output result_map]; [|reflexivity].
    rewrite residual_fn_scale. reflexivity.
Qed.

(** ** Attention weights under the neighbor mask *)

Lemma masked_fill_all_false (sim : vec) (mask : list bool) :
  length mask = length sim -> Forall (fun m => m = false) mask ->
  masked_fill_sim sim mask = repeat (- finfo_max) (length sim).
Proof.
  unfold masked_fill_sim, map2. revert mask.
  induction sim as [|s sim IH]; intros [|m mask] Hl Hm; try discriminate Hl; [reflexivity|].
  cbn [zip map fst snd length repeat]. rewrite (Forall_inv Hm).
  rewrite IH; [reflexivity | cbn in Hl; lia | exact (Forall_inv_tail Hm)].
Qed.

Lemma masked_fill_all_true (sim : vec) (mask : list bool) :
  length mask = length sim -> Forall (fun m => m = true) mask ->
  masked_fill_sim sim mask = sim.
Proof.
  unfold masked_fill_sim, map2. revert mask.
  induction sim as [|s sim IH]; intros [|m mask] Hl Hm; try discriminate Hl; [reflexivity|].
  cbn [zip map fst snd]. rewrite (Forall_inv Hm).
  rewrite IH; [reflexivity | cbn in Hl; lia | exact (Forall_inv_tail Hm)].
Qed.

Lemma softmax_constant (a : R) (k : nat) :
  (0 < k)%nat -> softmax (repeat a k) = repeat (/ INR k) k.
Proof.
  intros Hk. unfold softmax.
  assert (Hsum : rsum (map exp (repeat a k)) = INR k * exp a).
  { clear Hk. unfold rsum. induction k as [|k IH]; [cbn; ring|].
    cbn [repeat map fold_right]. rewrite IH, S_INR. ring. }
  rewrite Hsum.
  assert (Hexp : exp a / (INR k * exp a) = / INR k).
  { pose proof (exp_pos a). assert (0 < INR k) by (apply lt_0_INR; exact Hk).
    field. split; lra. }
  rewrite map_repeat, Hexp. reflexivity.
Qed.

(** X21. Without a self key, the neighbor mask has the length of the keys
    and is applied as it is. A mask that admits every neighbor leaves the
    attention weights as without a mask; a mask that excludes every
    neighbor does not silence the node: the weights become uniform, [1/k]
    for each of the [k] excluded neighbors. *)
Theorem attention_mask_extremes (scale : R) (nm : list bool) (q : cmat) (ks : list cmat) :
  ks <> [] -> length nm = length ks ->
  (Forall (fun m => m = true) nm ->
     attention_weights scale (Some nm) q ks = attention_weights scale None q ks)
  /\ (Forall (fun m => m = false) nm ->
        attention_weights scale (Some nm) q ks = repeat (/ INR (length ks)) (length ks)).
Proof.
  intros Hne Hlen. unfold attention_weights.
  set (sim := map (fun kj => inner q kj * scale) ks).
  assert (Hsim : length sim = length ks) by apply length_map.
  assert (Hmask : attention_mask sim nm = nm).
  { unfold attention_mask, pad_left. rewrite Hsim, Hlen.
    replace (Z.of_nat (length ks) - Z.of_nat (length ks))%Z with 0%Z by lia.
    reflexivity. }
  rewrite Hmask. split; intros Hall.
  - rewrite masked_fill_all_true by (try exact Hall; lia). reflexivity.
  - rewrite masked_fill_all_false by (try exact Hall; lia).
    rewrite Hsim. apply softmax_constant.
    destruct ks; [congruence | cbn; lia].
Qed.

Lemma attention_mask_extremes_witness :
  attention_weights 1 (Some [true; true]) [[1]] [[[1]]; [[2]]]
  = attention_weights 1 None [[1]] [[[1]]; [[2]]]
  /\ attention_weights 1 (Some [false; false]) [[1]] [[[1]]; [[2]]]
     = repeat (/ INR 2) 2.
Proof.
  split.
  - apply (proj1 (@attention_mask_extremes 1 [true; true] [[1]] [[[1]]; [[2]]]
                    ltac:(discriminate) eq_refl)).
    repeat constructor.
  - apply (proj2 (@attention_mask_extremes 1 [false; false] [[1]] [[[1]]; [[2]]]
                    ltac:(discriminate) eq_refl)).
    repeat constructor.
Defined.

(** ** The self position under the neighbor mask *)

Lemma split_heads_pieces (h : Z) (t : cmat) (hs : list cmat) :
  split_heads h t = Ok hs ->
  (0 < h)%Z /\ hs = pieces (length t / Z.to_nat h) (Z.to_nat h) t.
Proof.
  unfold split_heads. destruct (Z.leb_spec h 0) as [|Hpos]; [discriminate|].
  destruct (Nat.eqb (length t mod Z.to_nat h) 0); [|discriminate].
  intros H. injection H as <-. split; [exact Hpos | reflexivity].
Qed.

Lemma mapM_split_heads (h : Z) (ks : list cmat) (kss : list (list cmat)) :
  mapM (split_heads h) ks = Ok kss ->
  kss = map (fun t => pieces (length t / Z.to_nat h) (Z.to_nat h) t) ks.
Proof.
  revert kss. induction ks as [|k ks IH]; intros kss H; cbn [mapM] in H.
  - injection H as <-. reflexivity.
  - apply bind_Ok_inv in H. destruct H as (hs & Hhs & H).
    apply bind_Ok_inv in H. destruct H as (rest & Hrest & H).
    injection H as <-. cbn [map].
    rewrite (proj2 (split_heads_pieces _ _ Hhs)), (IH _ Hrest). reflexivity.
Qed.

Lemma head_keys_self (h : Z) (sk : cmat) (ks : list cmat) (per_head : list (list cmat)) :
  head_keys h (Some sk) ks = Ok per_head ->
  per_head = map (fun hd => head_of (Z.to_nat h) hd sk :: map (head_of (Z.to_nat h) hd) ks)
                 (seq 0 (Z.to_nat h)).
Proof.
  unfold head_keys. intros H.
  apply bind_Ok_inv in H. destruct H as (kss & Hkss & H).
  apply bind_Ok_inv in H. destruct H as (sks & Hsks & H).
  injection H as <-.
  apply mapM_split_heads in Hkss. apply split_heads_pieces in Hsks.
  destruct Hsks as (_ & Hsks).
  assert (Hlen : length sks = Z.to_nat h) by (rewrite Hsks; apply pieces_length).
  rewrite <- (map_nth_seq sks []) at 1. rewrite Hlen, map2_map_same.
  apply map_ext. intros hd. subst sks kss. rewrite map_map. reflexivity.
Qed.

Lemma zip3_map_same {A B C D} (a : D -> A) (b : D -> B) (c : D -> C) (l : list D) :
  zip3 (map a l) (map b l) (map c l) = map (fun d => (a d, b d, c d)) l.
Proof.
  induction l as [|d l IH]; cbn; [reflexivity|]. rewrite IH. reflexivity.
Qed.

Lemma attend_head_self_unmasked (scale : R) (nm : list bool) (q s sv : cmat)
    (ks vs : list cmat) :
  (length nm <= length ks)%nat ->
  attend_head scale (Some nm) q (s :: ks) (sv :: vs)
  = spec_self_unmasked_head scale nm q s sv ks vs.
Proof.
  intros Hlen. unfold attend_head, attention_weights, spec_self_unmasked_head.
  cbn [map]. unfold attention_mask, pad_left. cbn [length]. rewrite length_map.
  destruct (Z.leb_spec 0 (Z.of_nat (S (length ks)) - Z.of_nat (length nm))) as [_|Hneg];
    [|lia].
  replace (Z.to_nat (Z.of_nat (S (length ks)) - Z.of_nat (length nm)))
    with (S (length ks - length nm)) by lia.
  cbn [repeat app]. reflexivity.
Qed.

Lemma Attention_node_self_unmasked (h : Z) (scale : R) (nm : list bool)
    (q sk sv : cmat) (ks vs : list cmat) (node : cmat) :
  Attention_node h (RealScale scale) (Some nm) q (Some sk) (Some sv) ks vs = Ok node ->
  (0 < h)%Z
  /\ ((length nm <= length ks)%nat ->
      node = spec_self_unmasked_node (Z.to_nat h) scale nm q sk sv ks vs).
Proof.
  unfold Attention_node. intros H.
  apply bind_Ok_inv in H. destruct H as (qs & Hqs & H).
  apply bind_Ok_inv in H. destruct H as (kh & Hkh & H).
  apply bind_Ok_inv in H. destruct H as (vh & Hvh & H).
  cbn [real_scale bind] in H. injection H as <-.
  apply split_heads_pieces in Hqs. destruct Hqs as (Hpos & Hqs).
  split; [exact Hpos|]. intros Hlen.
  apply head_keys_self in Hkh, Hvh.
  assert (Hq : qs = map (fun hd => head_of (Z.to_nat h) hd q) (seq 0 (Z.to_nat h))).
  { assert (Hlq : length qs = Z.to_nat h) by (rewrite Hqs; apply pieces_length).
    rewrite <- (map_nth_seq qs []) at 1. rewrite Hlq.
    apply map_ext. intros hd. rewrite Hqs. reflexivity. }
  rewrite Hq, Hkh, Hvh, zip3_map_same, map_map. unfold spec_self_unmasked_node.
  f_equal. apply map_ext. intros hd. cbn [fst snd].
  apply attend_head_self_unmasked. rewrite length_map. exact Hlen.
Qed.

Lemma Attention_degree_nodes (neighbor_mask : T3 bool) (queries : featmap)
    (keys_ values : dict (T3 cmat)) (self_keys self_values : featmap)
    (degree : nat) (h : Z) (scale : scale_value) (t : T2 cmat) (bi i : nat)
    (node : cmat) :
  Attention_degree (Some neighbor_mask) queries keys_ values (Some self_keys)
    (Some self_values) degree h scale = Ok t ->
  at2 t bi i = Some node ->
  exists q ks vs sk sv nm,
    at_node queries degree bi i = Some q
    /\ at_node keys_ degree bi i = Some ks
    /\ at_node values degree bi i = Some vs
    /\ at_node self_keys degree bi i = Some sk
    /\ at_node self_values degree bi i = Some sv
    /\ at2 neighbor_mask bi i = Some nm
    /\ Attention_node h scale (Some nm) q (Some sk) (Some sv) ks vs = Ok node.
Proof.
  unfold Attention_degree. intros H Hnode.
  apply bind_Ok_inv in H. destruct H as (qt & Hq & H).
  apply bind_Ok_inv in H. destruct H as (kt & Hk & H).
  apply bind_Ok_inv in H. destruct H as (vt & Hv & H).
  apply bind_Ok_inv in H. destruct H as (osk & Hsk & H).
  apply bind_Ok_inv in H. destruct H as (osv & Hsv & H).
  cbn [getitem_opt] in Hsk, Hsv.
  apply bind_Ok_inv in Hsk. destruct Hsk as (skt & Hsk & Eosk). injection Eosk as <-.
  apply bind_Ok_inv in Hsv. destruct Hsv as (svt & Hsv & Eosv). injection Eosv as <-.
  cbn [opt_like] in H.
  apply getitem_Ok_lookup in Hq, Hk, Hv, Hsk, Hsv.
  unfold at_node. unfold T3, T2 in *. rewrite Hq, Hk, Hv, Hsk, Hsv.
  unfold at2 in *. destruct (nth_error t bi) as [row|] eqn:Erow; [|discriminate Hnode].
  destruct (@mapM_nth_error _ _ _ _ _ H _ _ Erow) as (pb & Epb & Hrow).
  destruct pb as [[[[[qb kb] vb] nmb] skb] svb].
  apply zip_nth_error in Epb. destruct Epb as (Epb & Esvb).
  apply zip_nth_error in Epb. destruct Epb as (Epb & Eskb).
  apply zip_nth_error in Epb. destruct Epb as (Epb & Enmb).
  apply zip_nth_error in Epb. destruct Epb as (Epb & Evb).
  apply zip_nth_error in Epb. destruct Epb as (Eqb & Ekb).
  cbn [fst snd] in *.
  rewrite nth_error_map in Enmb, Eskb, Esvb.
  destruct (nth_error neighbor_mask bi) as [nmrow|]; [|discriminate Enmb].
  destruct (nth_error skt bi) as [skrow|]; [|discriminate Eskb].
  destruct (nth_error svt bi) as [svrow|]; [|discriminate Esvb].
  cbn [option_map] in Enmb, Eskb, Esvb.
  injection Enmb as <-. injection Eskb as <-. injection Esvb as <-.
  rewrite Eqb, Ekb, Evb.
  destruct (@mapM_nth_error _ _ _ _ _ Hrow _ _ Hnode) as (pn & Epn & Hn).
  destruct pn as [[[[[qn kn] vn] nmn] skn] svn].
  apply zip_nth_error in Epn. destruct Epn as (Epn & Esvn).
  apply zip_nth_error in Epn. destruct Epn as (Epn & Eskn).
  apply zip_nth_error in Epn. destruct Epn as (Epn & Enmn).
  apply zip_nth_error in Epn. destruct Epn as (Epn & Evn).
  apply zip_nth_error in Epn. destruct Epn as (Eqn & Ekn).
  cbn [fst snd] in *.
  rewrite nth_error_map in Enmn, Eskn, Esvn.
  destruct (nth_error nmrow i) as [nm|]; [|discriminate Enmn].
  destruct (nth_error skrow i) as [sk|]; [|discriminate Eskn].
  destruct (nth_error svrow i) as [sv|]; [|discriminate Esvn].
  cbn [option_map] in Enmn, Eskn, Esvn.
  injection Enmn as <-. injection Eskn as <-. injection Esvn as <-.
  exists qn, kn, vn, sk, sv, nm. repeat split; try assumption; reflexivity.
Qed.

Lemma setitem_Forall_keyed {A} (Q : nat -> A -> Prop) (d : dict A) (k : nat) (v : A) :
  Forall (fun kv => Q (fst kv) (snd kv)) d -> Q k v ->
  Forall (fun kv => Q (fst kv) (snd kv)) (setitem d k v).
Proof.
  intros Hd Hv. induction d as [|[k' v'] d IH]; cbn.
  - constructor; [exact Hv | constructor].
  - inversion Hd as [|? ? Hh Ht]; subst.
    destruct (Nat.eqb_spec k k') as [->|_]; constructor; auto.
Qed.

Lemma foldM_setitem_Forall_keyed {A B} (Q : nat -> B -> Prop)
    (step : dict B -> A -> result (dict B)) (l : list A) :
  (forall out p out', In p l -> step out p = Ok out' ->
                      exists k v, out' = setitem out k v /\ Q k v) ->
  forall acc out,
    Forall (fun kv => Q (fst kv) (snd kv)) acc ->
    foldM step l acc = Ok out ->
    Forall (fun kv => Q (fst kv) (snd kv)) out.
Proof.
  induction l as [|a l IH]; intros Hstep acc out Hacc H.
  - cbn in H. injection H as <-. exact Hacc.
  - cbn [foldM] in H. apply bind_Ok_inv in H. destruct H as (acc' & Ha & H).
    destruct (Hstep _ _ _ (or_introl eq_refl) Ha) as (k & v & -> & Hv).
    eapply IH; [| apply setitem_Forall_keyed; eassumption | exact H].
    intros out0 p out' Hin. apply Hstep. right. exact Hin.
Qed.

Lemma unpooled_Ok_inv (o : conv_output) (d : dict (T3 cmat)) :
  unpooled o = Ok d -> o = PerNeighbor d.
Proof.
  destruct o; cbn; intros H; [discriminate | injection H as <-; reflexivity].
Qed.

(** C9. With [attend_self] and a neighbor mask, every node of every degree
    of the tensors that [Attention.forward] hands to its output projection
    is the attention of that node's query over the node's own key and value
    followed by its neighbors' (the reference [spec_self_unmasked_node]): the
    own position is never replaced by the mask value, its similarity enters
    the softmax as computed, whatever the node's row of the neighbor mask
    holds, all [False] included; only neighbor positions are masked.  The
    number of heads is positive, and the mask row is taken no longer than
    the neighbor axis of the keys. *)
Theorem self_position_never_masked (self : Attention) (features : featmap)
    (neighbor_indices : T3 nat) (neighbor_mask : T3 bool) (edges : option (T3 vec))
    (rel_dist : T3 R) (basis : basis_dict) (mask : option (T2 bool)) (out : featmap) :
  Attention_attend_self self = true ->
  Attention_forward self features (neighbor_indices, Some neighbor_mask, edges)
    rel_dist basis mask = Ok out ->
  exists normed queries keys_ values to_self_k to_self_v self_keys self_values outputs,
    Norm_forward (Attention_prenorm self) features = Ok normed
    /\ Linear_forward (Attention_to_q self) normed = Ok queries
    /\ Conv_forward (Attention_to_k self) normed
         (neighbor_indices, Some neighbor_mask, edges) rel_dist basis
       = Ok (PerNeighbor keys_)
    /\ Conv_forward (Attention_to_v self) normed
         (neighbor_indices, Some neighbor_mask, edges) rel_dist basis
       = Ok (PerNeighbor values)
    /\ Attention_to_self_k self = Some to_self_k
    /\ Attention_to_self_v self = Some to_self_v
    /\ Linear_forward to_self_k normed = Ok self_keys
    /\ Linear_forward to_self_v normed = Ok self_values
    /\ Linear_forward (Attention_to_out self) outputs = Ok out
    /\ forall degree bi i node,
         at_node outputs degree bi i = Some node ->
         exists h scale q ks vs sk sv nm,
           In (degree, h, RealScale scale)
              (zip3 (keys normed) (Attention_heads self) (Attention_scale self))
           /\ at_node queries degree bi i = Some q
           /\ at_node keys_ degree bi i = Some ks
           /\ at_node values degree bi i = Some vs
           /\ at_node self_keys degree bi i = Some sk
           /\ at_node self_values degree bi i = Some sv
           /\ at2 neighbor_mask bi i = Some nm
           /\ (0 < h)%Z
           /\ ((length nm <= length ks)%nat ->
               node = spec_self_unmasked_node (Z.to_nat h) scale nm q sk sv ks vs).
Proof.
  intros Hself H. unfold Attention_forward in H. cbv beta iota zeta in H.
  rewrite Hself in H.
  apply bind_Ok_inv in H. destruct H as (u & _ & H).
  apply bind_Ok_inv in H. destruct H as (normed & Hnorm & H).
  apply bind_Ok_inv in H. destruct H as (queries & Hq & H).
  apply bind_Ok_inv in H. destruct H as (kconv & Hk & H).
  apply bind_Ok_inv in H. destruct H as (vconv & Hv & H).
  apply bind_Ok_inv in H. destruct H as (keys_ & Hku & H).
  apply bind_Ok_inv in H. destruct H as (values & Hvu & H).
  apply unpooled_Ok_inv in Hku, Hvu. subst kconv vconv.
  apply bind_Ok_inv in H. destruct H as (self_kv & Hskv & H).
  apply bind_Ok_inv in Hskv. destruct Hskv as (to_self_k & Htk & Hskv).
  apply bind_Ok_inv in Hskv. destruct Hskv as (to_self_v & Htv & Hskv).
  apply bind_Ok_inv in Hskv. destruct Hskv as (self_keys & Hsk & Hskv).
  apply bind_Ok_inv in Hskv. destruct Hskv as (self_values & Hsv & Hskv).
  injection Hskv as <-. cbn [fst snd] in H.
  apply of_option_Ok_inv in Htk, Htv.
  apply bind_Ok_inv in H. destruct H as (outputs & Hout & H).
  exists normed, queries, keys_, values, to_self_k, to_self_v, self_keys, self_values,
    outputs.
  repeat (split; [assumption|]).
  intros degree bi i node Hnode.
  unfold at_node in Hnode.
  destruct (lookup degree outputs) as [t|] eqn:Et; [|discriminate Hnode].
  apply lookup_In in Et.
  assert (Hall : Forall (fun kv : nat * T2 cmat =>
            forall bi i node, at2 (snd kv) bi i = Some node ->
              exists h scale q ks vs sk sv nm,
                In (fst kv, h, RealScale scale)
                   (zip3 (keys normed) (Attention_heads self) (Attention_scale self))
                /\ at_node queries (fst kv) bi i = Some q
                /\ at_node keys_ (fst kv) bi i = Some ks
                /\ at_node values (fst kv) bi i = Some vs
                /\ at_node self_keys (fst kv) bi i = Some sk
                /\ at_node self_values (fst kv) bi i = Some sv
                /\ at2 neighbor_mask bi i = Some nm
                /\ (0 < h)%Z
                /\ ((length nm <= length ks)%nat ->
                    node = spec_self_unmasked_node (Z.to_nat h) scale nm q sk sv ks vs))
          outputs).
  { eapply (@foldM_setitem_Forall_keyed _ _
              (fun degree t => forall bi i node, at2 t bi i = Some node ->
                 exists h scale q ks vs sk sv nm,
                   In (degree, h, RealScale scale)
                      (zip3 (keys normed) (Attention_heads self) (Attention_scale self))
                   /\ at_node queries degree bi i = Some q
                   /\ at_node keys_ degree bi i = Some ks
                   /\ at_node values degree bi i = Some vs
                   /\ at_node self_keys degree bi i = Some sk
                   /\ at_node self_values degree bi i = Some sv
                   /\ at2 neighbor_mask bi i = Some nm
                   /\ (0 < h)%Z
                   /\ ((length nm <= length ks)%nat ->
                       node = spec_self_unmasked_node (Z.to_nat h) scale nm q sk sv ks vs)));
      [| apply Forall_nil | exact Hout].
    intros acc [[d h] scale] acc' Hin Hstep.
    apply bind_Ok_inv in Hstep. destruct Hstep as (t' & Ht' & Hacc').
    injection Hacc' as <-. exists d, t'. split; [reflexivity|].
    intros bi' i' node' Hnode'.
    destruct (@Attention_degree_nodes _ _ _ _ _ _ _ _ _ _ _ _ _ Ht' Hnode')
      as (q & ks & vs & sk & sv & nm & Eq & Ek & Ev & Esk & Esv & Enm & Hn).
    destruct scale as [scale|].
    + apply Attention_node_self_unmasked in Hn. destruct Hn as (Hpos & Hn).
      exists h, scale, q, ks, vs, sk, sv, nm. repeat (split; [assumption|]). exact Hn.
    + unfold Attention_node in Hn.
      apply bind_Ok_inv in Hn. destruct Hn as (qs & _ & Hn).
      apply bind_Ok_inv in Hn. destruct Hn as (kh & _ & Hn).
      apply bind_Ok_inv in Hn. destruct Hn as (vh & _ & Hn).
      discriminate Hn. }
  exact (proj1 (Forall_forall _ _) Hall (degree, t) Et bi i node Hnode).
Qed.

Lemma self_position_never_masked_witness :
  match Attention_forward example_attention example_conv_out example_edge_info
          (sel_neighbor_rel_dist example_selection) example_conv_basis None with
  | Ok out =>
      exists normed queries keys_ values to_self_k to_self_v self_keys self_values outputs,
        Norm_forward (Attention_prenorm example_attention) example_conv_out = Ok normed
        /\ Linear_forward (Attention_to_q example_attention) normed = Ok queries
        /\ Conv_forward (Attention_to_k example_attention) normed example_edge_info
             (sel_neighbor_rel_dist example_selection) example_conv_basis
           = Ok (PerNeighbor keys_)
        /\ Conv_forward (Attention_to_v example_attention) normed example_edge_info
             (sel_neighbor_rel_dist example_selection) example_conv_basis
           = Ok (PerNeighbor values)
        /\ Attention_to_self_k example_attention = Some to_self_k
        /\ Attention_to_self_v example_attention = Some to_self_v
        /\ Linear_forward to_self_k normed = Ok self_keys
        /\ Linear_forward to_self_v normed = Ok self_values
        /\ Linear_forward (Attention_to_out example_attention) outputs = Ok out
        /\ forall degree bi i node,
             at_node outputs degree bi i = Some node ->
             exists h scale q ks vs sk sv nm,
               In (degree, h, RealScale scale)
                  (zip3 (keys normed) (Attention_heads example_attention)
                        (Attention_scale example_attention))
               /\ at_node queries degree bi i = Some q
               /\ at_node keys_ degree bi i = Some ks
               /\ at_node values degree bi i = Some vs
               /\ at_node self_keys degree bi i = Some sk
               /\ at_node self_values degree bi i = Some sv
               /\ at2 (sel_neighbor_mask example_selection) bi i = Some nm
               /\ (0 < h)%Z
               /\ ((length nm <= length ks)%nat ->
                   node = spec_self_unmasked_node (Z.to_nat h) scale nm q sk sv ks vs)
  | Err _ => False
  end.
Proof.
  assert (Hok : is_ok (Attention_forward example_attention example_conv_out
                         example_edge_info (sel_neighbor_rel_dist example_selection)
                         example_conv_basis None) = true)
    by (lazy; reflexivity).
  destruct (Attention_forward example_attention example_conv_out example_edge_info
              (sel_neighbor_rel_dist example_selection) example_conv_basis None)
    as [out|e] eqn:E; [|discriminate Hok].
  exact (@self_position_never_masked example_attention example_conv_out
           (sel_neighbor_indices example_selection) (sel_neighbor_mask example_selection)
           (sel_edges example_selection) (sel_neighbor_rel_dist example_selection)
           example_conv_basis None out eq_refl E).
Defined.

(** In float32 the weight of the unmasked own position can be exactly zero:
    one head, the node's own key with similarity [0], one valid neighbor
    with similarity [200]. *)
Lemma self_weight_underflows :
  exists keys_h,
    head_keys 1 (Some [[0]]) [[[200]]] = Ok [keys_h]
    /\ nth 0 (attention_mask (map (fun kj => inner [[1]] kj * 1) keys_h) [true]) false = true
    /\ attention_weights_f32 1 (Some [true]) [[1]] keys_h = [0; 1].
Proof.
  exists [[[0]]; [[200]]]. split; [reflexivity|]. split; [reflexivity|].
  unfold attention_weights_f32.
  change (softmax_f32 [(1 * 0 + 0 + 0) * 1; (1 * 200 + 0 + 0) * 1] = [0; 1]).
  replace ((1 * 0 + 0 + 0) * 1) with 0 by lra.
  replace ((1 * 200 + 0 + 0) * 1) with 200 by lra.
  unfold softmax_f32, row_max. cbn [hd fold_right map].
  assert (Hm : Rmax 0 (Rmax 200 0) = 200).
  { unfold Rmax. destruct (Rle_dec 200 0); [lra|]. destruct (Rle_dec 0 200); lra. }
  assert (E0 : exp_f32 (0 - 200) = 0).
  { unfold exp_f32. destruct (Rle_dec (0 - 200) (-104)); [reflexivity | lra]. }
  assert (E1 : exp_f32 (200 - 200) = 1).
  { unfold exp_f32. destruct (Rle_dec (200 - 200) (-104)); [lra|].
    replace (200 - 200) with 0 by lra. apply exp_0. }
  rewrite Hm, E0, E1. unfold rsum. cbn [fold_right].
  replace (0 + (1 + 0)) with 1 by lra.
  f_equal; [|f_equal]; lra.
Qed.

(** On the run of [example_attention] the rows of the neighbor mask are as
    long as the neighbor axis of the keys, at every node. *)
Example example_mask_fits_keys :
  match (normed <- Norm_forward (Attention_prenorm example_attention) example_conv_out ;;
         Conv_forward (Attention_to_k example_attention) normed example_edge_info
           (sel_neighbor_rel_dist example_selection) example_conv_basis) with
  | Ok (PerNeighbor keys_) =>
      map (fun degree =>
             option_map (map (map (@length cmat))) (lookup degree keys_)) [0; 1]%nat
      = [Some [[1; 1]]; Some [[1; 1]]]%nat
      /\ map (map (@length bool)) (sel_neighbor_mask example_selection) = [[1; 1]]%nat
  | _ => False
  end.
Proof. lazy. split; reflexivity. Qed.

(** Every element of the basis of the examples has, for the pair
    [(degree_in, degree_out)], the [to_order(min(degree_in, degree_out))]
    frequencies that the kernel of that pair reads. *)
Example example_basis_frequencies :
  Forall (fun p : nat * nat * T3 (list (list vec)) =>
            Forall (Forall (Forall (fun B =>
              length B = utils.to_order (snd (fst p))
              /\ Forall (fun row =>
                           length row = utils.to_order (fst (fst p))
                           /\ Forall (fun freqs =>
                                        length freqs
                                        = utils.to_order (Nat.min (fst (fst p)) (snd (fst p))))
                                     row) B))) (snd p))
         example_conv_basis.
Proof. repeat constructor. Qed.
